(** * Topological network features of [connalysis.network.topology]

    A shallow embedding of the orchestration layer around the external
    flag-complex solver: thresholding and filtration of weighted sparse
    matrices, the approximation chunker, the bit-packed simplex decoder,
    the generalised degree, the bidirectional-edge counts, the
    symmetrisation helpers and the Betti-number entry point, followed by
    the older variants of [library/topology.py], the node degree, the
    node participation, persistence and the Betti curves.  The first
    part holds the model, the second its properties.

    Conventions.
    - Python integers are [Z]; node indices, shapes and list positions
      are [nat].
    - A matrix holds boolean, int64 or float64 data ([dtype]); other
      dtypes are not modelled.  Its values are integers in [Z]: for
      int64 data the wrap-around of an addition is written out
      ([wrap64]), for float64 data the rounding to the nearest float64
      number ([float64]); booleans are 0 and 1.  Weights that are not
      whole numbers, NaN and the infinities are not modelled.
    - A function that can raise returns a [result]; a function that
      warns, prints or calls the external solver returns a [traced]
      computation, the list of events it produced together with its
      [result]; [persistence] returns the list of its calls of the
      weighted solver with its [result].  Informational logging
      ([LOG.info]) is left out.
    - The external solvers are parameters of the functions that call
      them. *)

From Stdlib Require Import ZArith List String DecimalString Bool Arith Lia
  Sorted.
Import ListNotations.

Local Open Scope Z_scope.

(* ------------------------------------------------------------------ *)
(** ** Python exceptions and results *)

Inductive exn : Type :=
| AssertionError (msg : string)
| ValueError (msg : string)
| TypeError (msg : string)
| IndexError (msg : string)
| AttributeError (msg : string)
| OverflowError (msg : string).

Inductive result (A : Type) : Type :=
| Ok (a : A)
| Raise (e : exn).

Arguments Ok {A} a.
Arguments Raise {A} e.

Definition rbind {A B : Type} (r : result A) (k : A -> result B) : result B :=
  match r with
  | Ok a => k a
  | Raise e => Raise e
  end.

Definition rassert (b : bool) (msg : string) : result unit :=
  if b then Ok tt else Raise (AssertionError msg).

Definition is_ok {A : Type} (r : result A) : bool :=
  match r with Ok _ => true | Raise _ => false end.

(* ------------------------------------------------------------------ *)
(** ** Numbers of numpy

    The element types of the arrays: [np.bool_], [np.int64] (what numpy
    makes of Python integers) and [np.float64]. *)

Inductive dtype : Type :=
| np_bool
| np_int64
| np_float64.

(** The result type of an operation on two arrays. *)
Definition promote (a b : dtype) : dtype :=
  match a, b with
  | np_float64, _ | _, np_float64 => np_float64
  | np_int64, _ | _, np_int64 => np_int64
  | np_bool, np_bool => np_bool
  end.

(** A result of int64 arithmetic: the integer modulo 2^64, between
    -2^63 and 2^63 - 1. *)
Definition wrap64 (z : Z) : Z := (z + 2 ^ 63) mod 2 ^ 64 - 2 ^ 63.

(** [a / m] rounded to the nearest integer, a tie going to the even
    one, for [a >= 0] and [m > 0]. *)
Definition round_half_even (a m : Z) : Z :=
  let q := a / m in
  let r := a mod m in
  if 2 * r <? m then q
  else if m <? 2 * r then q + 1
  else if Z.even q then q else q + 1.

(** The float64 number nearest to a natural number: 53 significant
    bits, ties to even. *)
Definition float64_abs (a : Z) : Z :=
  let e := Z.log2 a - 52 in
  if e <=? 0 then a else round_half_even a (2 ^ e) * 2 ^ e.

(** The conversion of an integer to float64, as a cast of an int64
    array or the conversion of a Python integer does it (integers
    beyond the largest float64 number, about 2^1024, are not
    modelled). *)
Definition float64 (z : Z) : Z := Z.sgn z * float64_abs (Z.abs z).

(** The integers that are float64 numbers. *)
Definition is_float64 (z : Z) : Prop := float64 z = z.

(* ------------------------------------------------------------------ *)
(** ** Sparse matrices

    A scipy sparse matrix is its shape and its stored entries, listed in
    storage order as (row, column, value).  [csr_data] is the [.data]
    array.  A stored entry may hold an explicit zero; an _edge_ is a
    stored entry with a nonzero value.  The values of a matrix of
    booleans are meant to be 0 and 1 and those of a matrix of float64
    data float64 numbers ([is_float64]); the type does not enforce
    it. *)

Definition entry : Type := (nat * nat * Z)%type.

Definition stored (i j : nat) (v : Z) : entry := (i, j, v).

Definition e_row (e : entry) : nat := fst (fst e).
Definition e_col (e : entry) : nat := snd (fst e).
Definition e_val (e : entry) : Z := snd e.

Record csr : Type := mk_matrix {
  csr_shape : nat * nat;
  csr_entries : list entry;
  csr_dtype : dtype
}.

(** A matrix of int64 data. *)
Abbreviation mk_csr sh es := (mk_matrix sh es np_int64).

Definition csr_data (A : csr) : list Z := map e_val (csr_entries A).

Definition nonzero (v : Z) : bool := negb (v =? 0).

(** The edges of a matrix: stored entries whose value is nonzero. *)
Definition edges (A : csr) : list entry :=
  filter (fun e => nonzero (e_val e)) (csr_entries A).

(** [A.data = d] for a float64 array [d]: the stored positions keep
    their place, the values are replaced position by position, and the
    matrix now holds float64 data. *)
Definition set_data (A : csr) (d : list Z) : csr :=
  mk_matrix (csr_shape A)
            (map (fun p => (fst (fst p), snd p)) (combine (csr_entries A) d))
            np_float64.

(** [A.eliminate_zeros()]: stored zeros leave the sparse structure. *)
Definition eliminate_zeros (A : csr) : csr :=
  mk_matrix (csr_shape A) (edges A) (csr_dtype A).

(* ------------------------------------------------------------------ *)
(** ** numpy helpers on one-dimensional arrays *)

(** [np.zeros(n)], an array of float64 zeros. *)
Definition np_zeros (n : nat) : list Z := repeat 0 n.

(** [xs[mask]]: the values at the positions where [mask] is true. *)
Fixpoint compress (mask : list bool) (xs : list Z) : list Z :=
  match mask, xs with
  | b :: m, x :: r => if b then x :: compress m r else compress m r
  | _, _ => []
  end.

(** [dst[mask] = vals]: the successive values of [vals] are written at
    the positions where [mask] is true. *)
Fixpoint put_mask (dst : list Z) (mask : list bool) (vals : list Z) : list Z :=
  match dst, mask with
  | d :: ds, true :: m =>
      match vals with
      | v :: vs => v :: put_mask ds m vs
      | [] => d :: put_mask ds m []
      end
  | d :: ds, false :: m => d :: put_mask ds m vals
  | _, _ => dst
  end.

(* ------------------------------------------------------------------ *)
(** ** Thresholding: [at_weight_edges] *)

Definition method_error : exn :=
  ValueError "Method has to be 'strength' or 'distance'".

(** [data >= threshold] and [data <= threshold] on one value.  The
    threshold is an integer, a Python [int] in the range of int64 or a
    numpy integer, or a number of the dtype of the data.  Booleans and
    int64 values are compared with it as integers; float64 values are
    compared as float64 numbers, the threshold being converted. *)
Definition compare_with (dt : dtype) (cmp : Z -> Z -> bool) (d threshold : Z)
  : bool :=
  match dt with
  | np_float64 => cmp (float64 d) (float64 threshold)
  | _ => cmp d threshold
  end.

(** [data_thresh] is a float64 array: the values kept are converted
    when they are written into it, and the result holds float64 data
    whatever the input held. *)
Definition at_weight_edges (weighted_adj : csr) (threshold : Z)
           (method : string) : result csr :=
  let data := csr_data weighted_adj in
  let dt := csr_dtype weighted_adj in
  let data_thresh := np_zeros (List.length data) in
  rbind
    (if (method =? "strength")%string then
       let mask := map (fun d => compare_with dt Z.geb d threshold) data in
       Ok (put_mask data_thresh mask (map float64 (compress mask data)))
     else if (method =? "distance")%string then
       let mask := map (fun d => compare_with dt Z.leb d threshold) data in
       Ok (put_mask data_thresh mask (map float64 (compress mask data)))
     else Raise method_error)
    (fun data_thresh =>
       let adj_thresh := set_data weighted_adj data_thresh in
       Ok (eliminate_zeros adj_thresh)).

(* ------------------------------------------------------------------ *)
(** ** Matrix operations of scipy used by the normaliser *)

Definition at_pos (i j : nat) (e : entry) : bool :=
  ((e_row e =? i) && (e_col e =? j))%nat.

Definition sumZ (l : list Z) : Z := fold_right Z.add 0 l.

(** [A[i, j]]: the value of the matrix at a position (stored values at
    the same position add up, positions that are not stored are 0). *)
Definition csr_get (A : csr) (i j : nat) : Z :=
  sumZ (map e_val (filter (at_pos i j) (csr_entries A))).

(** [A.diagonal()] *)
Definition diagonal (A : csr) : list Z :=
  map (fun i => csr_get A i i)
      (seq 0 (Nat.min (fst (csr_shape A)) (snd (csr_shape A)))).

Definition count_nonzero (l : list Z) : nat :=
  List.length (filter nonzero l).

(** All positions of a shape, row by row. *)
Definition positions (sh : nat * nat) : list (nat * nat) :=
  flat_map (fun i => map (fun j => (i, j)) (seq 0 (snd sh))) (seq 0 (fst sh)).

(** The sparse matrix of a function on positions: only nonzero results
    are stored, as the binary operations of scipy do. *)
Definition csr_of_fun (dt : dtype) (sh : nat * nat) (f : nat -> nat -> Z)
  : csr :=
  mk_matrix sh
    (flat_map (fun p => if nonzero (f (fst p) (snd p))
                        then [(fst p, snd p, f (fst p) (snd p))] else [])
              (positions sh))
    dt.

(** [A.T] *)
Definition transpose (A : csr) : csr :=
  mk_matrix (snd (csr_shape A), fst (csr_shape A))
            (map (fun e => (e_col e, e_row e, e_val e)) (csr_entries A))
            (csr_dtype A).

Definition shape_eqb (s1 s2 : nat * nat) : bool :=
  ((fst s1 =? fst s2) && (snd s1 =? snd s2))%nat.

Definition shape_error : exn := ValueError "inconsistent shapes".

(** The truth value of a number: [True] is 1, [False] is 0. *)
Definition truth (v : Z) : Z := if nonzero v then 1 else 0.

(** The sum of two numbers of a dtype: booleans add up to their
    disjunction, int64 numbers wrap around, float64 numbers are rounded
    (a sum beyond the largest float64 number is not modelled). *)
Definition add_in (dt : dtype) (a b : Z) : Z :=
  match dt with
  | np_bool => truth (a + b)
  | np_int64 => wrap64 (a + b)
  | np_float64 => float64 (a + b)
  end.

(** [A + B] *)
Definition csr_add (A B : csr) : result csr :=
  if shape_eqb (csr_shape A) (csr_shape B)
  then let dt := promote (csr_dtype A) (csr_dtype B) in
       Ok (csr_of_fun dt (csr_shape A)
                      (fun i j => add_in dt (csr_get A i j) (csr_get B i j)))
  else Raise shape_error.

(** [A.multiply(B)], the elementwise product of two matrices of the
    same shape (the broadcasting of a row or a column is not modelled).
    It is only ever taken with a matrix of booleans, so that no product
    wraps around or is rounded. *)
Definition csr_multiply (A B : csr) : result csr :=
  if shape_eqb (csr_shape A) (csr_shape B)
  then Ok (csr_of_fun (promote (csr_dtype A) (csr_dtype B)) (csr_shape A)
                      (fun i j => csr_get A i j * csr_get B i j))
  else Raise shape_error.

(** [A.astype('bool')]: every stored value becomes its truth value. *)
Definition astype_bool (A : csr) : csr :=
  mk_matrix (csr_shape A)
            (map (fun e => (e_row e, e_col e, truth (e_val e))) (csr_entries A))
            np_bool.

(** [A.astype(int)] on a matrix of booleans: 0 and 1 as int64. *)
Definition astype_int (A : csr) : csr :=
  mk_matrix (csr_shape A) (csr_entries A) np_int64.

(** [sp.triu(A)]: the entries on and above the diagonal. *)
Definition triu (A : csr) : csr :=
  mk_matrix (csr_shape A)
            (filter (fun e => (e_row e <=? e_col e)%nat) (csr_entries A))
            (csr_dtype A).

(* ------------------------------------------------------------------ *)
(** ** Events and traced computations

    The external collaborators are the two solver entry points, the
    logger and the standard output. *)

(** Extended integers: a dimension bound may be [np.inf]. *)
Inductive ext : Type :=
| Fin (z : Z)
| Inf.

(** The keyword arguments of a call of the counting solver; [None] is
    an argument that the call does not pass (for [vertices_todo], also
    the empty file name, which restricts nothing). *)
Record count_options : Type := mk_count_options {
  opt_max_simplices : option bool;
  opt_containment : option bool;
  opt_return_simplices : option bool;
  opt_threads : option Z;
  opt_max_dim : option Z;
  opt_vertices_todo : option (list nat)
}.

(** What [pyflagsercount.flagser_count] returns. *)
Record flagser_out : Type := mk_flagser_out {
  euler : Z;
  cell_counts : list Z;
  max_cell_counts : option (list Z);
  contain_counts : option (list (list Z));
  simplices : list (list (list nat))
}.

Inductive event : Type :=
| LogWarning (msg : string)
| Print (msg : string)
| CallFlagserCount (adjacency : csr) (opts : count_options)
| CallFlagserUnweighted (adjacency : csr) (min_dimension : Z)
                        (max_dimension : ext) (approximation : option Z).

Definition traced (A : Type) : Type := (list event * result A)%type.

Definition tret {A : Type} (a : A) : traced A := ([], Ok a).

Definition tbind {A B : Type} (m : traced A) (k : A -> traced B) : traced B :=
  match m with
  | (l, Ok a) => let (l', r) := k a in (l ++ l', r)
  | (l, Raise e) => (l, Raise e)
  end.

Definition emit (e : event) : traced unit := ([e], Ok tt).

Definition lift {A : Type} (r : result A) : traced A := ([], r).

Definition py_assert (b : bool) (msg : string) : traced unit :=
  if b then tret tt else lift (Raise (AssertionError msg)).

Definition when (b : bool) (m : traced unit) : traced unit :=
  if b then m else tret tt.

Declare Scope traced_scope.
Delimit Scope traced_scope with traced.

Notation "x <- m ;; k" := (tbind m (fun x => k))
  (at level 61, m at next level, right associativity) : traced_scope.
Notation "m ;; k" := (tbind m (fun _ => k))
  (at level 61, right associativity) : traced_scope.

Definition events {A : Type} (m : traced A) : list event := fst m.
Definition outcome {A : Type} (m : traced A) : result A := snd m.

Definition is_solver_call (e : event) : bool :=
  match e with
  | CallFlagserCount _ _ => true
  | CallFlagserUnweighted _ _ _ _ => true
  | _ => false
  end.

(** The solver calls of a run, in order. *)
Definition solver_calls {A : Type} (m : traced A) : list event :=
  filter is_solver_call (events m).

(* ------------------------------------------------------------------ *)
(** ** Symmetrisation: [rc_submatrix], [underlying_undirected_matrix] *)

Definition diag_warning_errors : string :=
  "The diagonal is non-zero and this may lead to errors!".

Definition diag_matrix_errors : string :=
  "The diagonal of the matrix is non-zero and this may lead to errors!".

Definition rc_submatrix (adj : csr) : traced csr :=
  (when (negb (count_nonzero (diagonal adj) =? 0)%nat)
        (emit (LogWarning diag_warning_errors)) ;;
   let mask := astype_bool adj in
   mask <- lift (csr_multiply mask (transpose mask)) ;;
   lift (csr_multiply adj mask))%traced.

Definition underlying_undirected_matrix (adj : csr) : traced csr :=
  (when (negb (count_nonzero (diagonal adj) =? 0)%nat)
        (emit (LogWarning diag_warning_errors)) ;;
   s <- lift (csr_add adj (transpose adj)) ;;
   tret (astype_bool s))%traced.
(* ------------------------------------------------------------------ *)
(** ** More numpy and pandas helpers *)

(** Insertion into a strictly increasing list, dropping a value that is
    already there. *)
Fixpoint insert_unique (x : Z) (l : list Z) : list Z :=
  match l with
  | [] => [x]
  | y :: r =>
      if x <? y then x :: l
      else if x =? y then l
      else y :: insert_unique x r
  end.

(** [np.unique(xs)]: the sorted distinct values of an array. *)
Definition np_unique (xs : list Z) : list Z := fold_right insert_unique [] xs.

(** A Python dict with insertion order: assigning to a key that is
    present keeps its place. *)
Fixpoint dict_set {V : Type} (d : list (Z * V)) (k : Z) (v : V) : list (Z * V) :=
  match d with
  | [] => [(k, v)]
  | (k', v') :: r => if k' =? k then (k, v) :: r else (k', v') :: dict_set r k v
  end.

Fixpoint map_result {A B : Type} (f : A -> result B) (l : list A)
  : result (list B) :=
  match l with
  | [] => Ok []
  | x :: r =>
      rbind (f x) (fun y => rbind (map_result f r) (fun ys => Ok (y :: ys)))
  end.

(** A series indexed by dimension 0, 1, ... is the list of its values. *)
Definition series : Type := list Z.

(** A frame with one row per key: the key and the values of the row. *)
Definition frame : Type := list (Z * list Z).

Definition pad_row (width : nat) (s : series) : list Z :=
  s ++ repeat 0 (width - List.length s).

Definition frame_width {K : Type} (d : list (K * option series)) : nat :=
  fold_right Nat.max 0%nat
             (map (fun kv => match snd kv with
                             | Some s => List.length s
                             | None => 0%nat
                             end) d).

(** [pd.DataFrame.from_dict(d, orient="index").fillna(0).astype(int)]:
    one row per key in insertion order, one column per dimension that
    occurs in some series, and 0 where a series has no such dimension. *)
Definition frame_from_dict (d : list (Z * option series)) : frame :=
  let width := frame_width d in
  map (fun kv => (fst kv,
                  pad_row width (match snd kv with Some s => s | None => [] end)))
      d.

(* ------------------------------------------------------------------ *)
(** ** Filtration thresholds: [filtration_weights] *)

Definition filtration_weights (adj : csr) (method : string) : result (list Z) :=
  if (method =? "strength")%string then Ok (rev (np_unique (csr_data adj)))
  else if (method =? "distance")%string then Ok (np_unique (csr_data adj))
  else Raise method_error.

Definition list_min (x : Z) (l : list Z) : Z := fold_right Z.min x l.
Definition list_max (x : Z) (l : list Z) : Z := fold_right Z.max x l.

Definition empty_reduction_error : exn :=
  ValueError
    "zero-size array to reduction operation minimum which has no identity".

(* ------------------------------------------------------------------ *)
(** ** Functions around the counting solver *)

Record counts : Type := mk_counts {
  c_euler : Z;
  c_simplex_counts : series;
  c_max_simplex_counts : option series;
  c_simplices : list (list (list nat));
  c_node_participation : option (list (list Z))
}.

Definition diag_warning_ignored : string :=
  "The diagonal is non-zero!  Non-zero entries in the diagonal will be ignored.".

Definition square_error : string :=
  "Dimension mismatch. The matrix must be square.".

Section CountingSolver.

(** [pyflagsercount.flagser_count], an external collaborator. *)
Variable flagser_count : csr -> count_options -> flagser_out.

(** The floating-point arithmetic of [bin_weigths]: the centre of the
    bin of a weight, given the minimum, the maximum and the number of
    bins. *)
Variable bin_center : Z -> Z -> Z -> Z -> Z.

Definition call_flagser_count (adjacency : csr) (opts : count_options)
  : traced flagser_out :=
  (emit (CallFlagserCount adjacency opts) ;;
   tret (flagser_count adjacency opts))%traced.

Definition _flagser_counts (adjacency : csr)
           (max_simplices count_node_participation list_simplices : bool)
           (threads max_dim : Z) : traced counts :=
  (let adjacency := astype_int (astype_bool adjacency) in
   when (negb (count_nonzero (diagonal adjacency) =? 0)%nat)
        (emit (LogWarning diag_warning_ignored)) ;;
   out <- call_flagser_count adjacency
            (mk_count_options (Some max_simplices)
                              (Some count_node_participation)
                              (Some list_simplices) (Some threads)
                              (Some max_dim) None) ;;
   let max_dim_participation :=
     match max_cell_counts out with
     | None => List.length (cell_counts out)
     | Some mc => List.length mc
     end in
   tret (mk_counts (euler out) (cell_counts out) (max_cell_counts out)
                   (simplices out)
                   (option_map (map (pad_row max_dim_participation))
                               (contain_counts out))))%traced.

Definition simplex_counts (adj : csr) (max_simplices : bool)
           (threads max_dim : Z) (simplex_type : string)
  : traced (option series) :=
  (py_assert (count_nonzero (diagonal adj) =? 0)%nat diag_matrix_errors ;;
   py_assert (fst (csr_shape adj) =? snd (csr_shape adj))%nat square_error ;;
   adj <- (if (simplex_type =? "undirected")%string then
             u <- underlying_undirected_matrix adj ;; tret (triu u)
           else if (simplex_type =? "reciprocal")%string then
             r <- rc_submatrix adj ;; tret (triu r)
           else tret adj) ;;
   flagser_counts <- _flagser_counts adj max_simplices false false
                                     threads max_dim ;;
   if max_simplices
   then tret (c_max_simplex_counts flagser_counts)
   else tret (Some (c_simplex_counts flagser_counts)))%traced.

(** [weights.max() + tol]: the tolerance 1e-8 is lost where it is less
    than half the distance from the maximum to the next float64 number
    above it, which is so from 2^27 on and below -2^27. *)
Definition tolerance_lost (max_weight : Z) : bool :=
  (2 ^ 27 <=? max_weight) || (max_weight <? - 2 ^ 27).

(** [step] is zero: the smallest and the largest weight are the same
    float64 number, and the tolerance is lost. *)
Definition zero_step (min_weight max_weight : Z) : bool :=
  (float64 min_weight =? float64 max_weight)
  && tolerance_lost (float64 max_weight).

(** Without bins the step is infinite or not a number, with a step of
    zero the number of bin edges is not a number: [np.arange] cannot
    compute the length of the array of bin edges. *)
Definition arange_length_error : exn :=
  ValueError "arange: cannot compute length".

(** The centres are float64 numbers (the array of the bin edges is taken
    to fit in memory). *)
Definition bin_weigths (weights : list Z) (n_bins : Z) : result (list Z) :=
  match weights with
  | [] => Raise empty_reduction_error
  | w :: ws =>
      let min_weight := list_min w ws in
      let max_weight := list_max w ws in
      if (n_bins =? 0) || zero_step min_weight max_weight
      then Raise arange_length_error
      else Ok (map (fun x => float64 (bin_center min_weight max_weight n_bins x))
                   weights)
  end.

(** One comprehension step: [n_simplices[w] = filter_weight(w)]. *)
Definition filter_weight (adj : csr) (m : string) (threads : Z) (w : Z)
  : traced (option series) :=
  (adj_w <- lift (at_weight_edges adj w m) ;;
   simplex_counts adj_w false threads (-1) "directed")%traced.

Fixpoint comprehension (adj : csr) (m : string) (threads : Z)
         (ws : list Z) (d : list (Z * option series))
  : traced (list (Z * option series)) :=
  match ws with
  | [] => tret d
  | w :: rest =>
      (s <- filter_weight adj m threads w ;;
       comprehension adj m threads rest (dict_set d w s))%traced
  end.

Definition filtered_simplex_counts (adj : csr) (method : string)
           (binned : bool) (n_bins threads : Z) : traced frame :=
  (adj <- (if binned
           then d <- lift (bin_weigths (csr_data adj) n_bins) ;;
                tret (set_data adj d)
           else tret adj) ;;
   weights <- lift (filtration_weights adj method) ;;
   n_simplices <- comprehension adj method threads (rev weights) [] ;;
   tret (frame_from_dict n_simplices))%traced.

End CountingSolver.
(* ------------------------------------------------------------------ *)
(** ** Generalised degree: [node_k_degree] *)

(** The [direction] argument: a string or a tuple of strings. *)
Inductive direction_arg : Type :=
| DStr (s : string)
| DTuple (l : list string).

Definition string_in (s : string) (l : list string) : bool :=
  existsb (String.eqb s) l.

Definition list_string_eqb (l1 l2 : list string) : bool :=
  if list_eq_dec string_dec l1 l2 then true else false.

(** [sub in s] for two strings: [sub] occurs in [s]. *)
Definition contains (sub s : string) : bool :=
  match String.index 0 sub s with Some _ => true | None => false end.

(** [direction in ("IN", "OUT") or tuple(direction) == ("IN", "OUT")]:
    a tuple is never equal to a string, and the tuple of the characters
    of a string is never the pair of two longer strings. *)
Definition direction_valid (d : direction_arg) : bool :=
  match d with
  | DStr s => string_in s ["IN"; "OUT"]%string
  | DTuple l => list_string_eqb l ["IN"; "OUT"]%string
  end.

(** [key in direction] *)
Definition in_direction (key : string) (d : direction_arg) : bool :=
  match d with
  | DStr s => contains key s
  | DTuple l => string_in key l
  end.

Inductive degree_kind : Type := OutDegree | InDegree.

(** A column of the degree table, named ["{dim}_out_degree"] or
    ["{dim}_in_degree"], with one value per node. *)
Definition degree_table : Type := list ((Z * degree_kind) * list Z).

Definition index_error : exn := IndexError "index out of range".

(** [np.array(rows)[:, k]]: column [k] of a list of simplices. *)
Definition column (k : nat) (rows : list (list nat)) : result (list nat) :=
  match rows with
  | [] => Raise index_error
  | _ => if forallb (fun r => (k <? List.length r)%nat) rows
         then Ok (map (fun r => nth k r 0%nat) rows)
         else Raise index_error
  end.

(** [pd.Series(y, index=x)] for [x, y = np.unique(col, return_counts=True)],
    assigned as a column of a frame indexed by the nodes [0 .. n-1] and
    filled with 0: the number of occurrences of each node in [col]. *)
Definition unique_counts (col : list nat) : list (Z * Z) :=
  let zs := map Z.of_nat col in
  map (fun x => (x, Z.of_nat (count_occ Z.eq_dec zs x))) (np_unique zs).

Fixpoint lookup (k : Z) (d : list (Z * Z)) : option Z :=
  match d with
  | [] => None
  | (k', v) :: r => if k' =? k then Some v else lookup k r
  end.

Definition degree_column (n : nat) (col : list nat) : list Z :=
  let s := unique_counts col in
  map (fun v => match lookup (Z.of_nat v) s with Some c => c | None => 0 end)
      (seq 0 n).

(** [np.arange(lo, hi)] *)
Definition arange (lo hi : Z) : list Z :=
  map (fun i => lo + Z.of_nat i) (seq 0 (Z.to_nat (hi - lo))).

Definition not_attained_warning : string :=
  "The maximum dimension selected is not attained".

Definition no_high_simplices_message : string :=
  "There are no simplices of dimension 2 or higher".

Section DegreeAndEdges.

Variable flagser_count : csr -> count_options -> flagser_out.

(** [flagser_count(matrix, return_simplices=True, max_dim=max_dim)] *)
Definition listing_options (max_dim : Z) : count_options :=
  mk_count_options None None (Some true) None (Some max_dim) None.

(** The body of the loop over [dim] of [node_k_degree]. *)
Definition degree_step (out : flagser_out) (n : nat) (direction : direction_arg)
           (table : degree_table) (dim : Z) : result degree_table :=
  rbind
    (if in_direction "OUT" direction then
       match nth_error (simplices out) (Z.to_nat dim) with
       | None => Raise index_error
       | Some rows =>
           rbind (column 0 rows)
                 (fun col => Ok (table ++ [((dim, OutDegree), degree_column n col)]))
       end
     else Ok table)
    (fun table =>
       if in_direction "IN" direction then
         match nth_error (simplices out) (Z.to_nat dim) with
         | None => Raise index_error
         | Some rows =>
             rbind (column (Z.to_nat dim) rows)
                   (fun col => Ok (table ++ [((dim, InDegree), degree_column n col)]))
         end
       else Ok table).

Fixpoint degree_loop (out : flagser_out) (n : nat) (direction : direction_arg)
         (dims : list Z) (table : degree_table) : result degree_table :=
  match dims with
  | [] => Ok table
  | dim :: rest =>
      rbind (degree_step out n direction table dim)
            (degree_loop out n direction rest)
  end.

(** Returns [None] where the Python function falls off its end. *)
Definition node_k_degree (adj : csr) (direction : direction_arg) (max_dim : Z)
  : traced (option degree_table) :=
  (let matrix := adj in
   py_assert ((max_dim >? 1) || (max_dim =? -1)) "max_dim should be >=2" ;;
   py_assert (direction_valid direction) "Invalid `direction`" ;;
   when (negb (count_nonzero (diagonal matrix) =? 0)%nat)
        (emit (LogWarning diag_warning_ignored)) ;;
   flagser_out <- call_flagser_count flagser_count matrix
                    (listing_options max_dim) ;;
   let max_dim_possible := Z.of_nat (List.length (cell_counts flagser_out)) - 1 in
   max_dim <- (if max_dim =? -1 then tret max_dim_possible
               else if max_dim >? max_dim_possible then
                 emit (LogWarning not_attained_warning) ;;
                 tret max_dim_possible
               else tret max_dim) ;;
   if (max_dim <=? 1) && negb (max_dim =? -1) then
     emit (Print no_high_simplices_message) ;;
     tret None
   else
     t <- lift (degree_loop flagser_out (fst (csr_shape matrix)) direction
                            (arange 2 (max_dim + 1)) []) ;;
     tret (Some t))%traced.

(* ---------------------------------------------------------------- *)
(** ** Simplex lists: [list_simplices_by_dimension] *)

(** A numpy array of node indices: [np.array] of an empty list has one
    axis, of a list of rows two. *)
Inductive ndarray : Type :=
| Arr1 (xs : list nat)
| Arr2 (width : nat) (rows : list (list nat)).

Definition np_array (rows : list (list nat)) : ndarray :=
  match rows with
  | [] => Arr1 []
  | r :: _ => Arr2 (List.length r) rows
  end.

(** [s[k] = v] on a series indexed by 0, 1, ...: a label that is not
    there yet is added. *)
Fixpoint series_set {V : Type} (s : list V) (k : nat) (v : V) (dflt : V)
  : list V :=
  match k, s with
  | O, [] => [v]
  | O, _ :: r => v :: r
  | S k', [] => dflt :: series_set [] k' v dflt
  | S k', x :: r => x :: series_set r k' v dflt
  end.

Definition nat_in (v : nat) (l : list nat) : bool := existsb (Nat.eqb v) l.

Definition list_simplices_by_dimension (adj : csr) (max_simplices : bool)
           (max_dim : Z) (nodes : option (list nat)) (simplex_type : string)
           (threads : Z) : traced (list (option ndarray)) :=
  (py_assert (count_nonzero (diagonal adj) =? 0)%nat diag_matrix_errors ;;
   let N := fst (csr_shape adj) in
   py_assert (N =? snd (csr_shape adj))%nat square_error ;;
   match nodes with
   | Some ns => py_assert (forallb (fun v => (v <? N)%nat) ns)
                  "nodes must be a subarray of the nodes of the matrix"
   | None => tret tt
   end ;;
   adj <- (if (simplex_type =? "undirected")%string then
             u <- underlying_undirected_matrix adj ;; tret (triu u)
           else if (simplex_type =? "reciprocal")%string then
             r <- rc_submatrix adj ;; tret (triu r)
           else tret adj) ;;
   out <- call_flagser_count flagser_count adj
            (mk_count_options (Some max_simplices) None (Some true)
                              (Some threads) (Some max_dim) nodes) ;;
   let simplices := map (fun rows => Some (np_array rows)) (simplices out) in
   if max_simplices then tret simplices
   else
     let nodes := match nodes with Some ns => ns | None => seq 0 N end in
     let simplices :=
       series_set simplices 0 (Some (Arr2 1 (map (fun v => [v]) nodes))) None in
     let coom := filter (fun e => nat_in (e_row e) nodes) (csr_entries adj) in
     tret (series_set simplices 1
             (Some (Arr2 2 (map (fun e => [e_row e; e_col e]) coom))) None))%traced.

(* ---------------------------------------------------------------- *)
(** ** Bidirectional-edge counts: [bedge_counts] *)

(** A dense two-dimensional array: its shape and its values. *)
Record ndmat : Type := mk_ndmat {
  m_rows : nat;
  m_cols : nat;
  m_at : nat -> nat -> Z
}.

(** [np.array(adjacency.toarray(), dtype=int)] *)
Definition toarray (A : csr) : ndmat :=
  mk_ndmat (fst (csr_shape A)) (snd (csr_shape A)) (csr_get A).

(** [m[idx]]: the rows of [m] listed by [idx]. *)
Definition take_rows (m : ndmat) (idx : list nat) : result ndmat :=
  if forallb (fun v => (v <? m_rows m)%nat) idx
  then Ok (mk_ndmat (List.length idx) (m_cols m)
                    (fun p j => m_at m (nth p idx 0%nat) j))
  else Raise index_error.

(** [m.T] *)
Definition mat_T (m : ndmat) : ndmat :=
  mk_ndmat (m_cols m) (m_rows m) (fun i j => m_at m j i).

Definition mat_add (a b : ndmat) : ndmat :=
  mk_ndmat (m_rows a) (m_cols a) (fun i j => m_at a i j + m_at b i j).

(** [dense[simplex].T[simplex]] *)
Definition subset_adj (dense : ndmat) (simplex : list nat) : result ndmat :=
  rbind (take_rows dense simplex)
        (fun rows => take_rows (mat_T rows) simplex).

(** The value of [count_bedges] for one dimension: [np.nan], the
    elementwise sum of the matrices of the simplices, or, for a
    dimension without simplices, the column sums of an empty frame. *)
Inductive bedge : Type :=
| BNaN
| BMatrix (m : ndmat)
| BEmptyFrame (width : nat).

Definition count_bedges (dense : ndmat) (simplices_given_dim : option ndarray)
  : result bedge :=
  match simplices_given_dim with
  | None => Ok BNaN
  | Some (Arr1 _) => Raise (IndexError "tuple index out of range")
  | Some (Arr2 width rows) =>
      if (width =? 1)%nat then Ok BNaN
      else
        rbind (map_result (subset_adj dense) rows)
              (fun ms =>
                 match ms with
                 | [] => Ok (BEmptyFrame width)
                 | m :: rest => Ok (BMatrix (fold_left mat_add rest m))
                 end)
  end.

Definition bedge_counts (adjacency : csr)
           (simplices : option (list (option ndarray)))
  : traced (list bedge) :=
  (simplices <- match simplices with
                | None => list_simplices_by_dimension adjacency false (-1)
                                                      None "directed" 1
                | Some s => tret s
                end ;;
   let dense := toarray adjacency in
   lift (map_result (count_bedges dense) simplices))%traced.

End DegreeAndEdges.
(* ------------------------------------------------------------------ *)
(** ** Python indexing and slicing, numpy splitting *)

(** [l[i]]: a negative index counts from the end. *)
Definition py_index {A : Type} (l : list A) (i : Z) : result A :=
  let n := Z.of_nat (List.length l) in
  let j := if i <? 0 then i + n else i in
  if (0 <=? j) && (j <? n) then
    match nth_error l (Z.to_nat j) with
    | Some x => Ok x
    | None => Raise index_error
    end
  else Raise index_error.

(** [l[0:stop]]: a negative stop counts from the end. *)
Definition py_slice_to {A : Type} (l : list A) (stop : Z) : list A :=
  let n := Z.of_nat (List.length l) in
  firstn (Z.to_nat (if stop <? 0 then stop + n else stop)) l.

(** [l[-1] = v] on a list that is not empty. *)
Definition set_last {A : Type} (l : list A) (v : A) : list A :=
  removelast l ++ [v].

(** [a[1:] - a[:-1]] *)
Definition np_diff (a : list Z) : list Z :=
  map (fun p => fst p - snd p) (combine (tl a) (removelast a)).

Fixpoint where_from (i : nat) (l : list Z) : list nat :=
  match l with
  | [] => []
  | x :: r => if nonzero x then i :: where_from (S i) r else where_from (S i) r
  end.

(** [np.where(a != 0)[0]] *)
Definition np_where (a : list Z) : list nat := where_from 0 a.

(** [split_from prev ary indices]: [ary] is what is left of the array
    from position [prev] on; it is cut at the positions [indices]. *)
Fixpoint split_from {A : Type} (prev : nat) (ary : list A) (indices : list nat)
  : list (list A) :=
  match indices with
  | [] => [ary]
  | i :: rest => firstn (i - prev) ary :: split_from i (skipn (i - prev) ary) rest
  end.

(** [np.split(ary, indices)] for increasing indices. *)
Definition np_split {A : Type} (ary : list A) (indices : list nat)
  : list (list A) :=
  split_from 0 ary indices.

(* ------------------------------------------------------------------ *)
(** ** Arithmetic with [np.inf] *)

Definition ext_ltb (a b : ext) : bool :=
  match a, b with
  | Fin x, Fin y => x <? y
  | Fin _, Inf => true
  | Inf, _ => false
  end.

Definition ext_leb (a b : ext) : bool :=
  match a, b with
  | Fin x, Fin y => x <=? y
  | _, Inf => true
  | Inf, Fin _ => false
  end.

Definition ext_add (a : ext) (z : Z) : ext :=
  match a with
  | Fin x => Fin (x + z)
  | Inf => Inf
  end.

(** [int(x)] *)
Definition py_int (x : ext) : result Z :=
  match x with
  | Fin z => Ok z
  | Inf => Raise (OverflowError "cannot convert float infinity to integer")
  end.

(** [max_dim], whose default is the empty list, after
    [if max_dim == []: max_dim = np.inf]. *)
Definition max_dim_or_inf (max_dim : option Z) : ext :=
  match max_dim with
  | None => Inf
  | Some m => Fin m
  end.

(* ------------------------------------------------------------------ *)
(** ** The approximation chunker: [chunk_approx_and_dims]

    A chunk is an array of dimensions, or the two-element list that the
    function appends; its readers take its first element as the lowest
    and its last element as the highest dimension of the chunk. *)

Definition chunk : Type := list ext.

(** The value that the loop over [j] appends to [approx_chunks]. *)
Definition approx_of_chunk (min_dim : Z) (max_dim : ext) (approximation : list Z)
           (dim_chunks : list chunk) (j : nat) : result Z :=
  let size := Z.of_nat (List.length approximation) in
  rbind
    (if ext_ltb (Fin size) (ext_add (ext_add max_dim (- min_dim)) 1) then
       rbind (py_index approximation (-1))
             (fun l => Ok (negb (l =? -1)
                           && (j =? List.length dim_chunks - 1)%nat))
     else Ok false)
    (fun exact =>
       if exact then Ok (-1)
       else
         rbind (py_index dim_chunks (Z.of_nat j)) (fun c =>
         rbind (py_index c 0) (fun d =>
         rbind (py_int d) (fun d =>
         py_index approximation (d - min_dim))))).

Definition chunk_approx_and_dims (min_dim : Z) (max_dim : option Z)
           (approximation : list Z) : result (list chunk * list Z) :=
  let max_dim := max_dim_or_inf max_dim in
  let size := Z.of_nat (List.length approximation) in
  rbind (rassert (ext_leb (Fin (size - 1)) (ext_add max_dim (- min_dim)))
                 "approximation list too long for the dimension range")
  (fun _ =>
  let diff := np_diff approximation in
  let slice_indx := map S (np_where diff) in
  let dim_chunks : list chunk :=
    map (map Fin)
        (np_split (map (fun i => i + min_dim) (arange 0 size)) slice_indx) in
  rbind (py_index approximation (-1)) (fun last_approx =>
  rbind (py_index dim_chunks (-1)) (fun last_chunk =>
  rbind (py_index last_chunk (-1)) (fun last_dim =>
  let dim_chunks :=
    if last_approx =? -1 then
      set_last dim_chunks (set_last last_chunk (Fin (-1)))
    else if ext_ltb last_dim max_dim then
      dim_chunks ++ [[ext_add last_dim 1; max_dim]]
    else dim_chunks in
  rbind (map_result (approx_of_chunk min_dim max_dim approximation dim_chunks)
                    (seq 0 (List.length dim_chunks)))
        (fun approx_chunks => Ok (dim_chunks, approx_chunks)))))).

(* ------------------------------------------------------------------ *)
(** ** Betti numbers: [betti_counts] *)

(** [x in None]: [None] is not a container. *)
Definition py_in_None {A : Type} (x : A) : result bool :=
  Raise (TypeError "argument of type 'NoneType' is not iterable").

Definition approximation_assert_message : string :=
  "For approximation != None, min_dim must be set to 0.".

Section HomologySolver.

(** [pyflagser.flagser_unweighted(...)['betti']], an external
    collaborator. *)
Variable flagser_unweighted : csr -> Z -> ext -> option Z -> list Z.

Definition call_flagser_unweighted (adj : csr) (min_dimension : Z)
           (max_dimension : ext) (approximation : option Z) : traced (list Z) :=
  (emit (CallFlagserUnweighted adj min_dimension max_dimension approximation) ;;
   tret (flagser_unweighted adj min_dimension max_dimension approximation))%traced.

(** The validation at the head of [betti_counts]. *)
Definition betti_counts_checks (adj : csr) (min_dim : Z)
           (approximation : option (list Z)) : traced unit :=
  (py_assert (count_nonzero (diagonal adj) =? 0)%nat diag_matrix_errors ;;
   py_assert (fst (csr_shape adj) =? snd (csr_shape adj))%nat square_error ;;
   is_in <- lift (py_in_None approximation) ;;
   py_assert (negb is_in && negb (min_dim =? 0)) approximation_assert_message)%traced.

(** [approximation] padded with -1 or cut to [max_dim + 1] entries. *)
Definition fit_approximation (max_dim : ext) (approximation : list Z) : list Z :=
  match max_dim with
  | Inf => approximation
  | Fin m =>
      let size := Z.of_nat (List.length approximation) in
      let approximation :=
        if size - 1 <? m
        then approximation ++ repeat (-1) (Z.to_nat (m - (size - 1)))
        else approximation in
      let size := Z.of_nat (List.length approximation) in
      if size - 1 >? m then py_slice_to approximation (m + 1) else approximation
  end.

(** One turn of the loop over the ranges of dimensions. *)
Definition betti_of_range (adj : csr) (approximation : list Z)
           (bettis : list Z) (dims_range : list Z) : traced (list Z) :=
  (n <- lift (py_index dims_range 0) ;;
   N <- lift (py_index dims_range (-1)) ;;
   a <- lift (py_index approximation n) ;;
   let a := if a =? -1 then None else Some a in
   b <- call_flagser_unweighted adj n (Fin N) a ;;
   tret (bettis ++ b))%traced.

Fixpoint betti_loop (adj : csr) (approximation : list Z)
         (ranges : list (list Z)) (bettis : list Z) : traced (list Z) :=
  match ranges with
  | [] => tret bettis
  | r :: rest =>
      (bettis <- betti_of_range adj approximation bettis r ;;
       betti_loop adj approximation rest bettis)%traced
  end.

Definition betti_counts (adj : csr) (min_dim : Z) (max_dim : option Z)
           (simplex_type : string) (approximation : option (list Z))
  : traced (list (Z * Z)) :=
  (let adj := astype_int (astype_bool adj) in
   betti_counts_checks adj min_dim approximation ;;
   adj <- (if (simplex_type =? "undirected")%string then
             u <- underlying_undirected_matrix adj ;; tret (triu u)
           else if (simplex_type =? "reciprocal")%string then
             r <- rc_submatrix adj ;; tret (triu r)
           else tret adj) ;;
   let max_dim := max_dim_or_inf max_dim in
   bettis <- match approximation with
             | None => call_flagser_unweighted adj min_dim max_dim None
             | Some approximation =>
                 let approximation := fit_approximation max_dim approximation in
                 let size := Z.of_nat (List.length approximation) in
                 let diff := np_diff approximation in
                 let slice_indx := map S (np_where diff) in
                 bettis <- betti_loop adj approximation
                             (np_split (arange 0 size) slice_indx) [] ;;
                 match max_dim with
                 | Inf => b <- call_flagser_unweighted adj size Inf None ;;
                          tret (bettis ++ b)
                 | Fin _ => tret bettis
                 end
             end ;;
   let index := arange min_dim (Z.of_nat (List.length bettis) - min_dim) in
   if (List.length index =? List.length bettis)%nat
   then tret (combine index bettis)
   else lift (Raise (ValueError "Length of values does not match length of index")))%traced.

End HomologySolver.

(* ------------------------------------------------------------------ *)
(** ** The bit-packed simplex decoder: [_binary2simplex]

    The words of the file are unsigned 64-bit integers. *)

Definition mask64 : Z := Z.shiftl 1 63.
Definition mask21 : Z := Z.shiftl 1 21 - 1.
Definition mask42 : Z := Z.lxor (Z.shiftl 1 42 - 1) mask21.
Definition mask63 : Z := Z.lxor (Z.lxor (Z.shiftl 1 63 - 1) mask42) mask21.
Definition end_marker : Z := 2 ^ 21 - 1.

(** [decode_vertices]: the pair of [start] and [vertices]. *)
Definition decode_vertices (integer : Z) : bool * list Z :=
  let start := Z.shiftr (Z.land integer mask64) 63 =? 0 in
  let v0 := Z.land integer mask21 in
  let v1 := Z.shiftr (Z.land integer mask42) 21 in
  let v2 := Z.shiftr (Z.land integer mask63) 42 in
  let vertices := filter (fun v => negb (v =? end_marker)) [v0; v1; v2] in
  (start, vertices).

(** [np.cumsum] of a column of booleans, from the running sum [acc]. *)
Fixpoint cumsum_from (acc : Z) (bs : list bool) : list Z :=
  match bs with
  | [] => []
  | b :: r => let acc' := acc + (if b then 1 else 0) in acc' :: cumsum_from acc' r
  end.

(** [rows.groupby("sid").apply(np.hstack)]: one entry per value of the
    key, in increasing order of the key, holding the vertices of the rows
    with that key, in row order. *)
Definition groupby_hstack (rows : list (Z * list Z)) : list (Z * list Z) :=
  map (fun k => (k, List.concat (map snd (filter (fun r => fst r =? k) rows))))
      (np_unique (map fst rows)).

(** A value is true in a Python condition unless it is [None] or 0. *)
Definition truthy (test : option Z) : bool :=
  match test with
  | None => false
  | Some t => negb (t =? 0)
  end.

(** The first component is the column of decoded vertices, returned only
    when [test] is given; the second is the series of simplices indexed
    by simplex id.  Applying a function to an empty series of words
    yields an empty series, which has no [start] column. *)
Definition _binary2simplex (words : list Z) (test : option Z)
  : result (option (list (list Z)) * list (Z * list Z)) :=
  let simplex_info :=
    match test with
    | Some t => if truthy test then py_slice_to words t else words
    | None => words
    end in
  match simplex_info with
  | [] => Raise (AttributeError "'Series' object has no attribute 'start'")
  | _ =>
      let vertices := map decode_vertices simplex_info in
      let sid := cumsum_from 0 (map fst vertices) in
      let simplices := groupby_hstack (combine sid (map snd vertices)) in
      if truthy test then Ok (Some (map snd vertices), simplices)
      else Ok (None, simplices)
  end.

(* ------------------------------------------------------------------ *)
(** ** The older variants of [library/topology.py]

    [at_weight_edges], [filtration_weights], [bin_weigths] and
    [chunk_approx_and_dims] are the same there; the filtration drive and
    the bidirectional-edge counts are written differently. *)

Module Library.

Section Solver.

Variable flagser_count : csr -> count_options -> flagser_out.
Variable bin_center : Z -> Z -> Z -> Z -> Z.

(** Returns the cell counts, or with [max_simplices] all that the solver
    returns. *)
Definition simplex_counts (adj : csr) (max_simplices : bool) (threads : Z)
  : traced (series + flagser_out) :=
  (let adj := astype_int (astype_bool adj) in
   out <- call_flagser_count flagser_count adj
            (mk_count_options (Some max_simplices) None None (Some threads)
                              None None) ;;
   if max_simplices then tret (inr out) else tret (inl (cell_counts out)))%traced.

(** [dict.fromkeys(weights)] *)
Definition fromkeys (weights : list Z) : list (Z * option series) :=
  fold_left (fun d w => dict_set d w None) weights [].

(** The loop over the thresholds: the matrix is thresholded in place,
    turn after turn. *)
Fixpoint drive (adj : csr) (method : string) (threads : Z) (ws : list Z)
         (d : list (Z * option series)) : traced (list (Z * option series)) :=
  match ws with
  | [] => tret d
  | weight :: rest =>
      (adj <- lift (at_weight_edges adj weight method) ;;
       s <- simplex_counts adj false threads ;;
       drive adj method threads rest
             (dict_set d weight (match s with
                                 | inl c => Some c
                                 | inr _ => None
                                 end)))%traced
  end.

Definition filtered_simplex_counts (weighted_adj : csr) (method : string)
           (threads : Z) (binned : bool) (n_bins : Z) : traced frame :=
  (adj <- (if binned
           then d <- lift (bin_weigths bin_center (csr_data weighted_adj) n_bins) ;;
                tret (set_data weighted_adj d)
           else tret weighted_adj) ;;
   weights <- lift (filtration_weights adj method) ;;
   d <- drive adj method threads (rev weights) (fromkeys weights) ;;
   tret (frame_from_dict d))%traced.

End Solver.

(** [np.sum(np.apply_along_axis(extract_subm, 1, matrix), axis=0)]:
    there is nothing to apply the function to in an array without rows,
    and no axis 1 in an array with one axis. *)
Definition count_bedges (adj_dense : ndmat) (matrix : ndarray) : result ndmat :=
  match matrix with
  | Arr1 _ => Raise (ValueError "axis 1 is out of bounds for array of dimension 1")
  | Arr2 _ rows =>
      rbind (map_result (subset_adj adj_dense) rows)
            (fun ms =>
               match ms with
               | [] => Raise (ValueError
                        "Cannot apply_along_axis when any iteration dimensions are 0")
               | m :: rest => Ok (fold_left mat_add rest m)
               end)
  end.

Definition bedge_counts (adj : csr) (simplex_matrix_list : list ndarray)
  : result (list ndmat) :=
  let adj_dense := toarray adj in
  map_result (count_bedges adj_dense) simplex_matrix_list.

(** [str(x)] of an integer, of a bound of dimension, of an optional
    integer and of a boolean, as [print] and [format] write them. *)
Definition str_Z (z : Z) : string := NilZero.string_of_int (Z.to_int z).

Definition str_opt (a : option Z) : string :=
  match a with
  | None => "None"
  | Some z => str_Z z
  end.

Definition str_bool (b : bool) : string := if b then "True" else "False".

(** ["Run betti for dim range {0}-{1} with approximation {2}"] *)
Definition run_message (n N a : string) : string :=
  "Run betti for dim range " ++ n ++ "-" ++ N ++ " with approximation " ++ a.

Section Homology.

Variable flagser_unweighted : csr -> Z -> ext -> option Z -> list Z.

(** One turn of the loop over the ranges of dimensions. *)
Definition betti_of_range (adj : csr) (approximation : list Z)
           (bettis : list Z) (dims_range : list Z) : traced (list Z) :=
  (n <- lift (py_index dims_range 0) ;;
   N <- lift (py_index dims_range (-1)) ;;
   a <- lift (py_index approximation n) ;;
   let a := if a =? -1 then None else Some a in
   emit (Print (run_message (str_Z n) (str_Z N) (str_opt a))) ;;
   b <- call_flagser_unweighted flagser_unweighted adj n (Fin N) a ;;
   tret (bettis ++ b))%traced.

Fixpoint betti_loop (adj : csr) (approximation : list Z)
         (ranges : list (list Z)) (bettis : list Z) : traced (list Z) :=
  match ranges with
  | [] => tret bettis
  | r :: rest =>
      (bettis <- betti_of_range adj approximation bettis r ;;
       betti_loop adj approximation rest bettis)%traced
  end.

(** The variant without validation: the schedule is padded with -1 or
    cut to the range of dimensions, and [min_dim] is read only when
    there is no schedule. *)
Definition betti_counts (adj : csr) (min_dim : Z) (max_dim : option Z)
           (approximation : option (list Z)) : traced (list Z) :=
  (let adj := astype_int (astype_bool adj) in
   let max_dim := max_dim_or_inf max_dim in
   match approximation with
   | None =>
       emit (Print "Run without approximation") ;;
       call_flagser_unweighted flagser_unweighted adj min_dim max_dim None
   | Some approximation =>
       let approximation := fit_approximation max_dim approximation in
       let size := Z.of_nat (List.length approximation) in
       match max_dim with
       | Fin m =>
           emit (Print ("Correct dimensions for approximation: "
                        ++ str_bool (size =? m + 1)))
       | Inf => tret tt
       end ;;
       let diff := np_diff approximation in
       let slice_indx := map S (np_where diff) in
       bettis <- betti_loop adj approximation
                   (np_split (arange 0 size) slice_indx) [] ;;
       match max_dim with
       | Inf =>
           emit (Print (run_message (str_Z size) "inf" "None")) ;;
           b <- call_flagser_unweighted flagser_unweighted adj size Inf None ;;
           tret (bettis ++ b)
       | Fin _ => tret bettis
       end
   end)%traced.

End Homology.

End Library.

(* ------------------------------------------------------------------ *)
(** ** Degrees: [node_degree] *)

(** [tuple(direction)]: the tuple of a string holds its characters. *)
Definition tuple_of (d : direction_arg) : list string :=
  match d with
  | DStr s => map (fun c => String c EmptyString) (list_ascii_of_string s)
  | DTuple l => l
  end.

(** [not direction]: [None], the empty string and the empty tuple. *)
Definition direction_missing (d : option direction_arg) : bool :=
  match d with
  | None => true
  | Some (DStr s) => (String.length s =? 0)%nat
  | Some (DTuple l) => (List.length l =? 0)%nat
  end.

(** [direction in ("IN", "OUT")]: a tuple is never equal to a string. *)
Definition direction_in_in_out (d : direction_arg) : bool :=
  match d with
  | DStr s => string_in s ["IN"; "OUT"]%string
  | DTuple _ => false
  end.

(** [direction == "IN"] *)
Definition direction_is_in (d : direction_arg) : bool :=
  match d with
  | DStr s => (s =? "IN")%string
  | DTuple _ => false
  end.

(** A series indexed by the nodes, or a frame with named columns. *)
Inductive degrees : Type :=
| DegreeSeries (values : list Z)
| DegreeFrame (columns : list (string * list Z)).

(** [matrix.astype('bool')] on a dense array *)
Definition mat_bool (m : ndmat) : ndmat :=
  mk_ndmat (m_rows m) (m_cols m) (fun i j => truth (m_at m i j)).

(** [np.diag(matrix)] *)
Definition np_diag (m : ndmat) : list Z :=
  map (fun i => m_at m i i) (seq 0 (Nat.min (m_rows m) (m_cols m))).

(** The [ValueError] of pandas for values that do not fit the index; its
    message also gives the two lengths, which are left out. *)
Definition length_mismatch_error : exn :=
  ValueError "Length of values does not match length of index".

(** [pd.Series(array, index)] for an index of [n] labels. *)
Definition pd_series (n : nat) (array : list Z) : result (list Z) :=
  if (List.length array =? n)%nat then Ok array else Raise length_mismatch_error.

Definition diag_warning_analysis : string :=
  "The diagonal is non-zero!  This may cause errors in the analysis".

(** The head of the message of the assertion, which ends with the
    direction as it was given. *)
Definition invalid_direction : string := "Invalid `direction`".

Section Degrees.

(** The sum of an array of float64 numbers as numpy computes it; its
    rounding depends on how numpy groups the terms. *)
Variable float_sum : list Z -> Z.

(** [array.sum()] for an array of a dtype: booleans are counted (a count
    cannot wrap around), int64 numbers are added with wrap-around. *)
Definition np_sum (dt : dtype) (l : list Z) : Z :=
  match dt with
  | np_bool => sumZ l
  | np_int64 => wrap64 (sumZ l)
  | np_float64 => float_sum l
  end.

(** The dtype of the sums of an array: booleans are counted in int64. *)
Definition sum_dtype (dt : dtype) : dtype :=
  match dt with
  | np_float64 => np_float64
  | _ => np_int64
  end.

(** [matrix.sum(axis=0)]: one sum per column. *)
Definition sum_axis0 (dt : dtype) (m : ndmat) : list Z :=
  map (fun j => np_sum dt (map (fun i => m_at m i j) (seq 0 (m_rows m))))
      (seq 0 (m_cols m)).

(** [matrix.sum(axis=1)]: one sum per row. *)
Definition sum_axis1 (dt : dtype) (m : ndmat) : list Z :=
  map (fun i => np_sum dt (map (fun j => m_at m i j) (seq 0 (m_cols m))))
      (seq 0 (m_rows m)).

(** The two lambdas [in_degree] and [out_degree] are evaluated where
    they are called. *)
Definition node_degree (adj : csr) (direction : option direction_arg)
           (weighted : bool) : traced degrees :=
  (py_assert (direction_missing direction
              || match direction with
                 | Some d => direction_in_in_out d
                             || list_string_eqb (tuple_of d) ["IN"; "OUT"]%string
                 | None => false
                 end)
             invalid_direction ;;
   let matrix := toarray adj in
   let dt := csr_dtype adj in
   let matrix := if weighted then matrix else mat_bool matrix in
   let dt := if weighted then dt else np_bool in
   when (negb (count_nonzero (np_diag matrix) =? 0)%nat)
        (emit (LogWarning diag_warning_analysis)) ;;
   let series := pd_series (m_rows matrix) in
   let in_degree := fun _ : unit => lift (series (sum_axis0 dt matrix)) in
   let out_degree := fun _ : unit => lift (series (sum_axis1 dt matrix)) in
   let total :=
     i <- in_degree tt ;;
     o <- out_degree tt ;;
     tret (DegreeSeries (map (fun p => add_in (sum_dtype dt) (fst p) (snd p))
                             (combine i o))) in
   match direction with
   | None => total
   | Some d =>
       if direction_missing direction then total
       else if list_string_eqb (tuple_of d) ["IN"; "OUT"]%string then
         i <- in_degree tt ;;
         o <- out_degree tt ;;
         tret (DegreeFrame [("IN"%string, i); ("OUT"%string, o)])
       else if list_string_eqb (tuple_of d) ["OUT"; "IN"]%string then
         o <- out_degree tt ;;
         i <- in_degree tt ;;
         tret (DegreeFrame [("OUT"%string, o); ("IN"%string, i)])
       else if direction_is_in d then
         i <- in_degree tt ;; tret (DegreeSeries i)
       else
         o <- out_degree tt ;; tret (DegreeSeries o)
   end)%traced.

End Degrees.

(* ------------------------------------------------------------------ *)
(** ** Node participation: [node_participation] *)

Section ParticipationSolver.

Variable flagser_count : csr -> count_options -> flagser_out.

Definition node_participation (adj : csr) (max_simplices : bool)
           (threads max_dim : Z) (simplex_type : string)
  : traced (option (list (list Z))) :=
  (let adj := astype_bool adj in
   py_assert (count_nonzero (diagonal adj) =? 0)%nat diag_matrix_errors ;;
   py_assert (fst (csr_shape adj) =? snd (csr_shape adj))%nat square_error ;;
   adj <- (if (simplex_type =? "undirected")%string then
             u <- underlying_undirected_matrix adj ;; tret (triu u)
           else if (simplex_type =? "reciprocal")%string then
             r <- rc_submatrix adj ;; tret (triu r)
           else tret adj) ;;
   flagser_counts <- _flagser_counts flagser_count adj max_simplices true false
                                     threads max_dim ;;
   tret (c_node_participation flagser_counts))%traced.

End ParticipationSolver.

(* ------------------------------------------------------------------ *)
(** ** Persistent homology: [persistence]

    The weighted solver is the only collaborator of [persistence]; a run
    is the list of the calls made to it and the outcome. *)

(** The [approximation] argument: [None], an integer or a list. *)
Inductive approximation_arg : Type :=
| ApproxNone
| ApproxInt (a : Z)
| ApproxList (l : list Z).

(** A call of [pyflagser.flagser_weighted]; [None] as [max_dimension]
    is the default [[]] of [max_dim], handed on as it is. *)
Record weighted_call : Type := mk_weighted_call {
  wc_adjacency : csr;
  wc_min_dimension : ext;
  wc_max_dimension : option ext;
  wc_approximation : option Z
}.

Section WeightedSolver.

(** The type of a persistence diagram. *)
Variable dgm : Type.

(** [flagser_weighted(...)]: its ['dgms'] and its ['betti']. *)
Variable flagser_weighted : weighted_call -> list dgm * list Z.

Variable bin_center : Z -> Z -> Z -> Z -> Z.

(** The floating-point arithmetic of the inversion of the weights:
    [(max - w) / (max - min)] given the maximum, the minimum and [w]. *)
Variable invert_weight : Z -> Z -> Z -> Z.

(** [(np.max(data) - data) / (np.max(data) - np.min(data))], an array
    of float64 numbers *)
Definition invert_weights (data : list Z) : result (list Z) :=
  match data with
  | [] => Raise (ValueError
            "zero-size array to reduction operation maximum which has no identity")
  | w :: ws =>
      Ok (map (fun x => float64 (invert_weight (list_max w ws) (list_min w ws) x))
              data)
  end.

(** One turn of the loop over [zip(dim_chunks, approx_chunks)]. *)
Definition persistence_step (adj : csr)
           (acc : list weighted_call * (list dgm * list Z))
           (dims_range : chunk) (a : Z)
  : result (list weighted_call * (list dgm * list Z)) :=
  rbind (py_index dims_range 0) (fun n =>
  rbind (py_index dims_range (-1)) (fun N =>
  let N := match N with
           | Fin z => if z =? -1 then Inf else N
           | Inf => N
           end in
  let a := if a =? -1 then None else Some a in
  let call := mk_weighted_call adj n (Some N) a in
  let out := flagser_weighted call in
  Ok (fst acc ++ [call], (fst (snd acc) ++ fst out, snd (snd acc) ++ snd out)))).

Fixpoint persistence_loop (adj : csr) (chunks : list (chunk * Z))
         (acc : list weighted_call * (list dgm * list Z))
  : list weighted_call * result (list dgm * list Z) :=
  match chunks with
  | [] => (fst acc, Ok (snd acc))
  | (dims_range, a) :: rest =>
      match persistence_step adj acc dims_range a with
      | Ok acc' => persistence_loop adj rest acc'
      | Raise e => (fst acc, Raise e)
      end
  end.

(** The head of [persistence]: the weights are inverted, then binned,
    as asked. *)
Definition prepare_weights (weighted_adj : csr) (invert binned : bool)
           (n_bins : Z) : result csr :=
  rbind (if invert
         then rbind (invert_weights (csr_data weighted_adj))
                    (fun d => Ok (set_data weighted_adj d))
         else Ok weighted_adj)
        (fun adj =>
           if binned
           then rbind (bin_weigths bin_center (csr_data adj) n_bins)
                      (fun d => Ok (set_data adj d))
           else Ok adj).

(** The second component of the value is [bettis], returned only with
    [return_bettis]. *)
Definition persistence (weighted_adj : csr) (min_dim : Z) (max_dim : option Z)
           (approximation : approximation_arg)
           (invert binned : bool) (n_bins : Z) (return_bettis : bool)
  : list weighted_call * result (list dgm * option (list Z)) :=
  let finish (run : list weighted_call * result (list dgm * list Z)) :=
    (fst run,
     rbind (snd run)
           (fun r => Ok (fst r, if return_bettis then Some (snd r) else None))) in
  match prepare_weights weighted_adj invert binned n_bins with
  | Raise e => ([], Raise e)
  | Ok adj =>
      let single (a : option Z) :=
        let call := mk_weighted_call adj (Fin min_dim)
                                     (option_map Fin max_dim) a in
        finish ([call], Ok (flagser_weighted call)) in
      match approximation with
      | ApproxNone => single None
      | ApproxInt a => single (Some a)
      | ApproxList l =>
          match chunk_approx_and_dims min_dim max_dim l with
          | Raise e => ([], Raise e)
          | Ok (dim_chunks, approx_chunks) =>
              finish (persistence_loop adj (combine dim_chunks approx_chunks)
                                       ([], ([], [])))
          end
      end
  end.

End WeightedSolver.

(* ------------------------------------------------------------------ *)
(** ** Tools for persistence: [num_cycles], [betti_curve]

    Births and deaths are compared only; a value is a number or
    [np.inf]. *)

Definition ext_eqb (a b : ext) : bool :=
  match a, b with
  | Fin x, Fin y => x =? y
  | Inf, Inf => true
  | _, _ => false
  end.

Definition num_cycles (B D : list ext) (thresh : ext) : Z :=
  let born := count_occ Bool.bool_dec (map (fun b => ext_leb b thresh) B) true in
  let dead := count_occ Bool.bool_dec (map (fun d => ext_leb d thresh) D) true in
  Z.of_nat born - Z.of_nat dead.

Fixpoint ext_insert_unique (x : ext) (l : list ext) : list ext :=
  match l with
  | [] => [x]
  | y :: r =>
      if ext_ltb x y then x :: l
      else if ext_eqb x y then l
      else y :: ext_insert_unique x r
  end.

(** [np.unique] on values that may be [np.inf]. *)
Definition ext_unique (xs : list ext) : list ext :=
  fold_right ext_insert_unique [] xs.

Definition betti_curve (B D : list ext) : list ext * list Z :=
  let filt_values := B ++ D in
  let filt_values := ext_unique filt_values in
  let filt_values := filter (fun v => negb (ext_eqb v Inf)) filt_values in
  (filt_values, map (num_cycles B D) filt_values).
(* ------------------------------------------------------------------ *)
(** * Properties

    ** Numbers: wrap-around and rounding *)

Lemma wrap64_small (z : Z) : - 2 ^ 63 <= z < 2 ^ 63 -> wrap64 z = z.
Proof. intros H. unfold wrap64. rewrite Z.mod_small by lia. lia. Qed.

Lemma wrap64_range (z : Z) : - 2 ^ 63 <= wrap64 z < 2 ^ 63.
Proof.
  unfold wrap64. pose proof (Z.mod_pos_bound (z + 2 ^ 63) (2 ^ 64) ltac:(lia)). lia.
Qed.

Lemma wrap64_eqm (z : Z) : exists k, wrap64 z = z + k * 2 ^ 64.
Proof.
  unfold wrap64. exists (- ((z + 2 ^ 63) / 2 ^ 64)).
  pose proof (Z.div_mod (z + 2 ^ 63) (2 ^ 64) ltac:(lia)). lia.
Qed.

Lemma wrap64_add_l (a b : Z) : wrap64 (wrap64 a + b) = wrap64 (a + b).
Proof.
  destruct (wrap64_eqm a) as [k Hk]. rewrite Hk. unfold wrap64.
  replace (a + k * 2 ^ 64 + b + 2 ^ 63) with (a + b + 2 ^ 63 + k * 2 ^ 64) by lia.
  now rewrite Z.mod_add by lia.
Qed.

Lemma round_half_even_bounds (a m : Z) :
  0 <= a -> 0 < m ->
  a / m <= round_half_even a m <= a / m + 1
  /\ (a mod m = 0 -> round_half_even a m = a / m).
Proof.
  intros Ha Hm. unfold round_half_even.
  pose proof (Z.mod_pos_bound a m Hm).
  split.
  - destruct (2 * (a mod m) <? m); [lia|].
    destruct (m <? 2 * (a mod m)); [lia|].
    destruct (Z.even (a / m)); lia.
  - intros H0. rewrite H0.
    destruct (Z.ltb_spec (2 * 0) m); [reflexivity | lia].
Qed.

Lemma round_half_even_mono (a b m : Z) :
  0 <= a <= b -> 0 < m -> round_half_even a m <= round_half_even b m.
Proof.
  intros Hab Hm.
  pose proof (Z.div_mod a m ltac:(lia)) as Ea.
  pose proof (Z.div_mod b m ltac:(lia)) as Eb.
  pose proof (Z.mod_pos_bound a m Hm) as Ra.
  pose proof (Z.mod_pos_bound b m Hm) as Rb.
  assert (Hq : a / m <= b / m) by (apply Z.div_le_mono; lia).
  destruct (Z.eq_dec (a / m) (b / m)) as [E|N].
  - assert (Hr : a mod m <= b mod m) by nia.
    unfold round_half_even. rewrite E.
    destruct (Z.ltb_spec (2 * (a mod m)) m);
      destruct (Z.ltb_spec (2 * (b mod m)) m);
      destruct (Z.ltb_spec m (2 * (a mod m)));
      destruct (Z.ltb_spec m (2 * (b mod m)));
      destruct (Z.even (b / m)); lia.
  - pose proof (round_half_even_bounds a m ltac:(lia) Hm) as [Ba _].
    pose proof (round_half_even_bounds b m ltac:(lia) Hm) as [Bb _].
    lia.
Qed.

Lemma float64_abs_shape (a : Z) :
  0 < Z.log2 a - 52 ->
  let e := Z.log2 a - 52 in
  exists q, float64_abs a = q * 2 ^ e /\ 2 ^ 52 <= q <= 2 ^ 53
            /\ a / 2 ^ e <= q <= a / 2 ^ e + 1
            /\ (a mod 2 ^ e = 0 -> q = a / 2 ^ e).
Proof.
  intros He e. unfold float64_abs. fold e.
  destruct (Z.leb_spec e 0) as [H|_]; [lia|].
  assert (Ha : 0 < a).
  { destruct (Z.ltb_spec 0 a); [assumption|].
    rewrite Z.log2_nonpos in He by lia. lia. }
  pose proof (Z.log2_spec a Ha) as [Hlo Hhi].
  assert (Hpe : 0 < 2 ^ e) by (apply Z.pow_pos_nonneg; lia).
  assert (E1 : 2 ^ Z.log2 a = 2 ^ 52 * 2 ^ e).
  { rewrite <- Z.pow_add_r by lia. f_equal. lia. }
  assert (E2 : 2 ^ Z.succ (Z.log2 a) = 2 ^ 53 * 2 ^ e).
  { rewrite <- Z.pow_add_r by lia. f_equal. lia. }
  assert (Hq1 : 2 ^ 52 <= a / 2 ^ e).
  { apply Z.div_le_lower_bound; lia. }
  assert (Hq2 : a / 2 ^ e < 2 ^ 53).
  { apply Z.div_lt_upper_bound; lia. }
  pose proof (round_half_even_bounds a (2 ^ e) ltac:(lia) Hpe) as [Hb Hz].
  exists (round_half_even a (2 ^ e)).
  split; [reflexivity|]. split; [lia|]. split; [lia|]. exact Hz.
Qed.

Lemma float64_abs_small (a : Z) : 0 <= a <= 2 ^ 53 -> float64_abs a = a.
Proof.
  intros Ha. unfold float64_abs.
  destruct (Z.leb_spec (Z.log2 a - 52) 0) as [H|H]; [reflexivity|].
  assert (Hpos : 0 < a).
  { destruct (Z.ltb_spec 0 a); [assumption|].
    rewrite Z.log2_nonpos in H by lia. lia. }
  pose proof (Z.log2_spec a Hpos) as [Hlo Hhi].
  assert (Hl : Z.log2 a = 53).
  { assert (Z.log2 a < 54).
    { apply Z.log2_lt_pow2; [lia|]. lia. }
    lia. }
  rewrite Hl in *. assert (a = 2 ^ 53).
  { change (2 ^ 53) with 9007199254740992 in *.
    change (2 ^ 53) with 9007199254740992 in Hlo. lia. }
  subst a. reflexivity.
Qed.

Lemma float64_abs_pos (a : Z) : 0 < a -> 0 < float64_abs a.
Proof.
  intros Ha. destruct (Z.leb_spec (Z.log2 a - 52) 0) as [H|H].
  - unfold float64_abs. destruct (Z.leb_spec (Z.log2 a - 52) 0); lia.
  - destruct (float64_abs_shape a H) as (q & -> & Hq & _).
    apply Z.mul_pos_pos; [lia|]. apply Z.pow_pos_nonneg; lia.
Qed.

Lemma float64_abs_0 : float64_abs 0 = 0.
Proof. reflexivity. Qed.

Lemma float64_abs_mono (a b : Z) :
  0 <= a <= b -> float64_abs a <= float64_abs b.
Proof.
  intros Hab.
  destruct (Z.eq_dec a 0) as [->|Hne].
  { rewrite float64_abs_0. destruct (Z.eq_dec b 0) as [->|]; [reflexivity|].
    pose proof (float64_abs_pos b ltac:(lia)). lia. }
  assert (Ha : 0 < a) by lia. assert (Hb : 0 < b) by lia.
  pose proof (Z.log2_le_mono a b ltac:(lia)) as Hl.
  pose proof (Z.log2_spec a Ha) as [Halo Hahi].
  pose proof (Z.log2_spec b Hb) as [Hblo Hbhi].
  destruct (Z.leb_spec (Z.log2 a - 52) 0) as [Ea|Ea];
    destruct (Z.leb_spec (Z.log2 b - 52) 0) as [Eb|Eb].
  - unfold float64_abs.
    destruct (Z.leb_spec (Z.log2 a - 52) 0); [|lia].
    destruct (Z.leb_spec (Z.log2 b - 52) 0); lia.
  - destruct (float64_abs_shape b Eb) as (q & -> & Hq & _).
    unfold float64_abs. destruct (Z.leb_spec (Z.log2 a - 52) 0); [|lia].
    assert (a < 2 ^ 53).
    { eapply Z.lt_le_trans; [exact Hahi|].
      apply Z.pow_le_mono_r; lia. }
    assert (2 ^ 1 <= 2 ^ (Z.log2 b - 52)) by (apply Z.pow_le_mono_r; lia).
    change (2 ^ 1) with 2 in *. nia.
  - lia.
  - destruct (Z.eq_dec (Z.log2 a) (Z.log2 b)) as [E|N].
    + unfold float64_abs.
      destruct (Z.leb_spec (Z.log2 a - 52) 0); [lia|].
      destruct (Z.leb_spec (Z.log2 b - 52) 0); [lia|].
      rewrite E. apply Z.mul_le_mono_nonneg_r.
      * apply Z.pow_nonneg; lia.
      * apply round_half_even_mono; [lia|]. apply Z.pow_pos_nonneg; lia.
    + destruct (float64_abs_shape a Ea) as (qa & -> & Hqa & _).
      destruct (float64_abs_shape b Eb) as (qb & -> & Hqb & _).
      set (ea := Z.log2 a - 52) in *. set (eb := Z.log2 b - 52) in *.
      assert (Hee : ea + 1 <= eb) by (unfold ea, eb; lia).
      assert (Hp : 2 ^ (ea + 1) <= 2 ^ eb) by (apply Z.pow_le_mono_r; lia).
      rewrite Z.pow_add_r in Hp by lia. change (2 ^ 1) with 2 in Hp.
      assert (0 < 2 ^ ea) by (apply Z.pow_pos_nonneg; lia).
      nia.
Qed.

Lemma float64_abs_idem (a : Z) : 0 <= a -> float64_abs (float64_abs a) = float64_abs a.
Proof.
  intros Ha.
  destruct (Z.leb_spec (Z.log2 a - 52) 0) as [Ea|Ea].
  - assert (E : float64_abs a = a).
    { unfold float64_abs. destruct (Z.leb_spec (Z.log2 a - 52) 0); [reflexivity | lia]. }
    now rewrite !E.
  - destruct (float64_abs_shape a Ea) as (q & E & Hq & _).
    set (e := Z.log2 a - 52) in *. rewrite E.
    assert (Hpe : 0 < 2 ^ e) by (apply Z.pow_pos_nonneg; lia).
    destruct (Z.eq_dec q (2 ^ 53)) as [->|Hne].
    + (* the value is 2 ^ (e + 53) *)
      assert (Ev : 2 ^ 53 * 2 ^ e = 2 ^ (e + 53)).
      { rewrite <- Z.pow_add_r by lia. f_equal. lia. }
      rewrite Ev. unfold float64_abs.
      rewrite Z.log2_pow2 by lia.
      destruct (Z.leb_spec (e + 53 - 52) 0); [lia|].
      replace (e + 53 - 52) with (e + 1) by lia.
      assert (Ed : 2 ^ (e + 53) = 2 ^ 52 * 2 ^ (e + 1)).
      { rewrite <- Z.pow_add_r by lia. f_equal. lia. }
      assert (Hpe1 : 0 < 2 ^ (e + 1)) by (apply Z.pow_pos_nonneg; lia).
      pose proof (round_half_even_bounds (2 ^ (e + 53)) (2 ^ (e + 1))
                    ltac:(lia) Hpe1) as [_ Hz].
      rewrite Hz.
      * rewrite Ed at 1. rewrite Z.div_mul by lia. lia.
      * rewrite Ed. apply Z.mod_mul. lia.
    + assert (Hl : Z.log2 (q * 2 ^ e) = e + 52).
      { apply Z.log2_unique; [lia|]. split.
        - rewrite Z.pow_add_r by lia. nia.
        - replace (Z.succ (e + 52)) with (53 + e) by lia.
          rewrite Z.pow_add_r by lia. nia. }
      unfold float64_abs. rewrite Hl.
      destruct (Z.leb_spec (e + 52 - 52) 0); [lia|].
      replace (e + 52 - 52) with e by lia.
      pose proof (round_half_even_bounds (q * 2 ^ e) (2 ^ e)
                    ltac:(nia) Hpe) as [_ Hz].
      rewrite Hz.
      * rewrite Z.div_mul by lia. reflexivity.
      * apply Z.mod_mul. lia.
Qed.

Lemma float64_abs_nonneg (a : Z) : 0 <= a -> 0 <= float64_abs a.
Proof.
  intros Ha. destruct (Z.eq_dec a 0) as [->|]; [now rewrite float64_abs_0|].
  pose proof (float64_abs_pos a ltac:(lia)). lia.
Qed.

Lemma float64_pos (z : Z) : 0 <= z -> float64 z = float64_abs z.
Proof.
  intros H. unfold float64. destruct (Z.eq_dec z 0) as [->|]; [reflexivity|].
  rewrite Z.sgn_pos, Z.abs_eq by lia. lia.
Qed.

Lemma float64_neg (z : Z) : z <= 0 -> float64 z = - float64_abs (- z).
Proof.
  intros H. unfold float64. destruct (Z.eq_dec z 0) as [->|]; [reflexivity|].
  rewrite Z.sgn_neg, Z.abs_neq by lia. lia.
Qed.

Lemma float64_small (z : Z) : - 2 ^ 53 <= z <= 2 ^ 53 -> float64 z = z.
Proof.
  intros H. destruct (Z.le_ge_cases 0 z).
  - rewrite float64_pos, float64_abs_small by lia. reflexivity.
  - rewrite float64_neg, float64_abs_small by lia. lia.
Qed.

Lemma float64_mono (a b : Z) : a <= b -> float64 a <= float64 b.
Proof.
  intros Hab. destruct (Z.le_ge_cases 0 a); destruct (Z.le_ge_cases 0 b).
  - rewrite !float64_pos by lia. apply float64_abs_mono. lia.
  - assert (a = 0) by lia. assert (b = 0) by lia. subst. reflexivity.
  - rewrite float64_neg, float64_pos by lia.
    pose proof (float64_abs_nonneg (- a) ltac:(lia)).
    pose proof (float64_abs_nonneg b ltac:(lia)). lia.
  - rewrite !float64_neg by lia.
    pose proof (float64_abs_mono (- b) (- a) ltac:(lia)). lia.
Qed.

Lemma float64_idem (z : Z) : float64 (float64 z) = float64 z.
Proof.
  destruct (Z.le_ge_cases 0 z).
  - rewrite (float64_pos z) by lia.
    rewrite float64_pos by (apply float64_abs_nonneg; lia).
    apply float64_abs_idem. lia.
  - rewrite (float64_neg z) by lia.
    pose proof (float64_abs_nonneg (- z) ltac:(lia)).
    rewrite float64_neg by lia. rewrite Z.opp_involutive.
    now rewrite float64_abs_idem by lia.
Qed.

Lemma float64_zero (z : Z) : float64 z = 0 <-> z = 0.
Proof.
  split; [|intros ->; reflexivity].
  intros E. destruct (Z.lt_trichotomy z 0) as [H|[H|H]]; [|exact H|].
  - rewrite float64_neg in E by lia.
    pose proof (float64_abs_pos (- z) ltac:(lia)). lia.
  - rewrite float64_pos in E by lia.
    pose proof (float64_abs_pos z ltac:(lia)). lia.
Qed.

Lemma is_float64_small (z : Z) : - 2 ^ 53 <= z <= 2 ^ 53 -> is_float64 z.
Proof. apply float64_small. Qed.

Lemma is_float64_float64 (z : Z) : is_float64 (float64 z).
Proof. apply float64_idem. Qed.

Lemma float64_nonzero (z : Z) : nonzero (float64 z) = nonzero z.
Proof.
  unfold nonzero. destruct (Z.eqb_spec z 0) as [->|Hz]; [reflexivity|].
  destruct (Z.eqb_spec (float64 z) 0) as [E|_]; [|reflexivity].
  apply (proj1 (float64_zero z)) in E. contradiction.
Qed.



(* ------------------------------------------------------------------ *)
(** ** Thresholding *)

(** An entry with its value converted to float64. *)
Definition to_float64 (e : entry) : entry :=
  (e_row e, e_col e, float64 (e_val e)).

(** The integers in the range of int64. *)
Definition in_int64 (z : Z) : Prop := - 2 ^ 63 <= z < 2 ^ 63.

(** A matrix whose weights are float64 numbers as they are: every
    integer up to 2^53 in absolute value is one. *)
Definition exact_weights (A : csr) : Prop := Forall is_float64 (csr_data A).

Section Thresholding.

Variable keep : Z -> bool.

Lemma put_mask_compress (data : list Z) :
  put_mask (np_zeros (List.length data)) (map keep data)
           (map float64 (compress (map keep data) data))
  = map (fun d => if keep d then float64 d else 0) data.
Proof.
  induction data as [|d data IH]; [reflexivity|].
  cbn [List.length map compress np_zeros repeat].
  destruct (keep d); cbn [map put_mask]; f_equal; exact IH.
Qed.

Lemma threshold_entries (es : list entry) :
  filter (fun e => nonzero (e_val e))
         (map (fun p => (fst (fst p), snd p))
              (combine es (map (fun d => if keep d then float64 d else 0)
                               (map e_val es))))
  = map to_float64
        (filter (fun e => keep (e_val e))
                (filter (fun e => nonzero (e_val e)) es)).
Proof.
  induction es as [|[[i j] v] es IH]; [reflexivity|].
  cbn [map combine filter fst snd e_val] in *.
  destruct (keep v) eqn:K.
  - rewrite float64_nonzero.
    destruct (nonzero v) eqn:NZ; cbn [filter e_val snd].
    + rewrite K. cbn [map]. f_equal. exact IH.
    + exact IH.
  - change (nonzero 0) with false. cbn iota.
    destruct (nonzero v); cbn [filter e_val snd].
    + rewrite K. exact IH.
    + exact IH.
Qed.

Lemma thresholded_matrix (A : csr) :
  eliminate_zeros
    (set_data A (put_mask (np_zeros (List.length (csr_data A)))
                          (map keep (csr_data A))
                          (map float64
                               (compress (map keep (csr_data A)) (csr_data A)))))
  = mk_matrix (csr_shape A)
              (map to_float64 (filter (fun e => keep (e_val e)) (edges A)))
              np_float64.
Proof.
  rewrite put_mask_compress. unfold eliminate_zeros, edges, set_data, csr_data.
  cbn [csr_shape csr_entries csr_dtype]. now rewrite threshold_entries.
Qed.

End Thresholding.

Lemma at_weight_edges_strength (A : csr) (t : Z) :
  at_weight_edges A t "strength"
  = Ok (mk_matrix (csr_shape A)
          (map to_float64
               (filter (fun e => compare_with (csr_dtype A) Z.geb (e_val e) t)
                       (edges A)))
          np_float64).
Proof.
  unfold at_weight_edges. simpl.
  now rewrite (thresholded_matrix
                 (fun d => compare_with (csr_dtype A) Z.geb d t)).
Qed.

Lemma at_weight_edges_distance (A : csr) (t : Z) :
  at_weight_edges A t "distance"
  = Ok (mk_matrix (csr_shape A)
          (map to_float64
               (filter (fun e => compare_with (csr_dtype A) Z.leb (e_val e) t)
                       (edges A)))
          np_float64).
Proof.
  unfold at_weight_edges. simpl.
  now rewrite (thresholded_matrix
                 (fun d => compare_with (csr_dtype A) Z.leb d t)).
Qed.




Lemma filter_ext_In {A : Type} (p q : A -> bool) (l : list A) :
  (forall x, In x l -> p x = q x) -> filter p l = filter q l.
Proof.
  induction l as [|x l IH]; intros H; [reflexivity|]. cbn [filter].
  rewrite (H x) by now left. rewrite IH; [reflexivity|].
  intros y Hy. apply H. now right.
Qed.

Lemma filter_map_swap {A B : Type} (f : A -> B) (p : B -> bool) (l : list A) :
  filter p (map f l) = map f (filter (fun x => p (f x)) l).
Proof.
  induction l as [|x l IH]; [reflexivity|]. cbn [map filter].
  destruct (p (f x)); cbn [map]; now rewrite IH.
Qed.

Lemma filter_keeps_all {A : Type} (p : A -> bool) (l : list A) :
  (forall x, In x l -> p x = true) -> filter p l = l.
Proof.
  induction l as [|x l IH]; intros H; [reflexivity|]. cbn [filter].
  rewrite (H x) by now left. f_equal. apply IH. intros y Hy. apply H. now right.
Qed.

(** The edges of a thresholded matrix are its stored entries. *)
Lemma edges_to_float64 (sh : nat * nat) (dt : dtype) (p : entry -> bool)
      (A : csr) :
  edges (mk_matrix sh (map to_float64 (filter p (edges A))) dt)
  = map to_float64 (filter p (edges A)).
Proof.
  unfold edges at 1. cbn [csr_entries]. rewrite filter_map_swap.
  f_equal. apply filter_keeps_all. intros e He.
  apply filter_In in He. destruct He as [He _].
  unfold edges in He. apply filter_In in He. destruct He as [_ He].
  change (e_val (to_float64 e)) with (float64 (e_val e)).
  now rewrite float64_nonzero.
Qed.

Lemma to_float64_exact (e : entry) : is_float64 (e_val e) -> to_float64 e = e.
Proof.
  destruct e as [[i j] v]. unfold to_float64, is_float64. cbn [e_row e_col e_val fst snd].
  now intros ->.
Qed.

Lemma map_to_float64_exact (l : list entry) :
  Forall (fun e => is_float64 (e_val e)) l -> map to_float64 l = l.
Proof.
  induction 1 as [|e l He _ IH]; [reflexivity|]. cbn [map].
  now rewrite to_float64_exact, IH.
Qed.

Lemma exact_weights_edges (A : csr) (p : entry -> bool) :
  exact_weights A -> Forall (fun e => is_float64 (e_val e)) (filter p (edges A)).
Proof.
  unfold exact_weights, csr_data. rewrite Forall_map, !Forall_forall.
  intros H e He. apply filter_In in He. destruct He as [He _].
  unfold edges in He. apply filter_In in He. destruct He as [He _].
  now apply H.
Qed.

(** On weights and a threshold that are float64 numbers, a comparison
    is the comparison of the integers whatever the dtype. *)
Lemma compare_with_exact (dt : dtype) (cmp : Z -> Z -> bool) (d t : Z) :
  is_float64 d -> (dt = np_float64 -> is_float64 t) ->
  compare_with dt cmp d t = cmp d t.
Proof.
  intros Hd Ht. destruct dt; try reflexivity.
  cbn [compare_with]. rewrite Hd, (Ht eq_refl). reflexivity.
Qed.


Lemma map_to_float64_idem (l : list entry) :
  map to_float64 (map to_float64 l) = map to_float64 l.
Proof.
  rewrite map_map. apply map_ext. intros [[i j] v].
  unfold to_float64. cbn [e_row e_col e_val fst snd]. now rewrite float64_idem.
Qed.


Definition two_edges : csr :=
  mk_csr (3, 3)%nat [stored 0 1 1; stored 0 2 5; stored 1 2 0; stored 2 0 9].








(* ------------------------------------------------------------------ *)
(** ** Sorted distinct values *)

Lemma insert_unique_In (x y : Z) (l : list Z) :
  In y (insert_unique x l) <-> y = x \/ In y l.
Proof.
  induction l as [|z l IH]; simpl.
  - intuition.
  - destruct (x <? z) eqn:Hlt; simpl; [intuition|].
    destruct (x =? z) eqn:Heq; simpl.
    + apply Z.eqb_eq in Heq. subst z. intuition.
    + rewrite IH. intuition.
Qed.

Lemma insert_unique_sorted (x : Z) (l : list Z) :
  StronglySorted Z.lt l -> StronglySorted Z.lt (insert_unique x l).
Proof.
  induction 1 as [|z l Hs IH Hz]; simpl.
  - constructor; constructor.
  - destruct (x <? z) eqn:Hlt.
    + apply Z.ltb_lt in Hlt. constructor.
      * now constructor.
      * constructor; [exact Hlt|].
        eapply Forall_impl; [|exact Hz]. intros a Ha. cbv beta in Ha. lia.
    + destruct (x =? z) eqn:Heq.
      * now constructor.
      * apply Z.ltb_ge in Hlt. apply Z.eqb_neq in Heq.
        constructor; [exact IH|].
        apply Forall_forall. intros a Ha. apply insert_unique_In in Ha.
        destruct Ha as [->|Ha]; [lia|].
        rewrite Forall_forall in Hz. now apply Hz.
Qed.

Lemma np_unique_sorted (xs : list Z) : StronglySorted Z.lt (np_unique xs).
Proof.
  induction xs as [|x xs IH]; simpl.
  - constructor.
  - now apply insert_unique_sorted.
Qed.

Lemma np_unique_In (x : Z) (xs : list Z) : In x (np_unique xs) <-> In x xs.
Proof.
  induction xs as [|y xs IH]; simpl; [tauto|].
  rewrite insert_unique_In, IH. intuition.
Qed.


Lemma sorted_app_lt (l : list Z) (x : Z) :
  StronglySorted Z.gt l -> Forall (fun y => y > x) l ->
  StronglySorted Z.gt (l ++ [x]).
Proof.
  induction 1 as [|z l Hs IH Hz]; intros Hall; simpl.
  - constructor; constructor.
  - inversion Hall; subst. constructor.
    + now apply IH.
    + apply Forall_app. split; [exact Hz|]. constructor; [assumption|constructor].
Qed.

Lemma sorted_rev (l : list Z) :
  StronglySorted Z.lt l -> StronglySorted Z.gt (rev l).
Proof.
  induction 1 as [|z l Hs IH Hz]; simpl.
  - constructor.
  - apply sorted_app_lt; [exact IH|].
    apply Forall_forall. intros y Hy. apply in_rev in Hy.
    rewrite Forall_forall in Hz. specialize (Hz y Hy). lia.
Qed.

(* ------------------------------------------------------------------ *)
(** ** The filtration drive *)

(** A threshold is satisfied by the weights at least as large under
    "strength", at most as large otherwise, compared as the dtype of
    the data has it. *)
Definition satisfies (dt : dtype) (m : string) (t w : Z) : bool :=
  if (m =? "strength")%string then compare_with dt Z.geb w t
  else compare_with dt Z.leb w t.

(** The sub-network of a threshold: the edges whose weight satisfies
    it, held as float64 data. *)
Definition sub_network (A : csr) (m : string) (t : Z) : csr :=
  mk_matrix (csr_shape A)
            (map to_float64
                 (filter (fun e => satisfies (csr_dtype A) m t (e_val e))
                         (edges A)))
            np_float64.

(** The comparison of the integers, which [satisfies] is on the data
    that are not float64 and on float64 numbers. *)
Definition meets (m : string) (t w : Z) : bool :=
  if (m =? "strength")%string then w >=? t else w <=? t.


Lemma meets_satisfies (dt : dtype) (m : string) (t w : Z) :
  meets m t w = true -> satisfies dt m t w = true.
Proof.
  unfold satisfies, meets. destruct (m =? "strength")%string; intros H;
    destruct dt; cbn [compare_with]; try exact H.
  - apply Z.geb_le. apply Z.geb_le in H. now apply float64_mono.
  - apply Z.leb_le. apply Z.leb_le in H. now apply float64_mono.
Qed.

Lemma exact_weights_In (A : csr) (e : entry) :
  exact_weights A -> In e (edges A) -> is_float64 (e_val e).
Proof.
  unfold exact_weights, csr_data. rewrite Forall_map, Forall_forall.
  intros H He. apply H. unfold edges in He. now apply filter_In in He.
Qed.


Definition is_square (A : csr) : Prop :=
  fst (csr_shape A) = snd (csr_shape A).

Definition known_method (m : string) : Prop :=
  m = "strength"%string \/ m = "distance"%string.








(** The options of the solver call made by [simplex_counts] with its
    default arguments. *)
Definition counting_options (threads : Z) : count_options :=
  mk_count_options (Some false) (Some false) (Some false) (Some threads)
                   (Some (-1)) None.

Section FiltrationDrive.

Variable flagser_count : csr -> count_options -> flagser_out.
Variable bin_center : Z -> Z -> Z -> Z -> Z.


Definition call_at (A : csr) (m : string) (threads : Z) (w : Z) : event :=
  CallFlagserCount (astype_int (astype_bool (sub_network A m w)))
                   (counting_options threads).



End FiltrationDrive.







Section FilteredCounts.

Variable flagser_count : csr -> count_options -> flagser_out.
Variable bin_center : Z -> Z -> Z -> Z -> Z.


(** C10 (amended). A matrix with no stored entry at all has no
    filtration threshold under either method, and with binning off
    [filtered_simplex_counts] then returns the empty table without a
    solver call, a warning or any other event. *)
Theorem empty_matrix_filtration (adj : csr) (m : string) (n_bins threads : Z) :
  csr_entries adj = [] -> known_method m ->
  filtration_weights adj m = Ok []
  /\ filtered_simplex_counts flagser_count bin_center adj m false n_bins threads
     = ([], Ok []).
Proof.
  intros He Hm.
  assert (Hfw : filtration_weights adj m = Ok []).
  { unfold filtration_weights, csr_data. rewrite He.
    destruct Hm as [-> | ->]; reflexivity. }
  split; [exact Hfw|].
  unfold filtered_simplex_counts. cbn [tret tbind]. rewrite Hfw. reflexivity.
Qed.

(** With binning on, the minimum of the empty weight array is taken. *)
Lemma empty_matrix_binned (adj : csr) (m : string) (n_bins threads : Z) :
  csr_entries adj = [] ->
  filtered_simplex_counts flagser_count bin_center adj m true n_bins threads
  = ([], Raise empty_reduction_error).
Proof.
  intros He. unfold filtered_simplex_counts, csr_data. now rewrite He.
Qed.

(** With binning on and no bin, the bin edges cannot be laid out. *)
Lemma no_bins_binned (adj : csr) (m : string) (threads : Z) :
  csr_entries adj <> [] ->
  filtered_simplex_counts flagser_count bin_center adj m true 0 threads
  = ([], Raise arange_length_error).
Proof.
  intros He. unfold filtered_simplex_counts, bin_weigths, csr_data.
  destruct (csr_entries adj) as [|e es]; [contradiction | reflexivity].
Qed.

(** With binning on, a single weight from 2^27 on leaves a bin width of
    zero. *)
Lemma zero_step_binned (m : string) (n_bins threads : Z) :
  filtered_simplex_counts flagser_count bin_center
                          (mk_csr (2, 2)%nat [stored 0 1 (2 ^ 27)]) m true
                          n_bins threads
  = ([], Raise arange_length_error).
Proof.
  unfold filtered_simplex_counts, bin_weigths, csr_data.
  cbn [csr_entries map e_val stored snd list_min list_max fold_right].
  replace (zero_step (2 ^ 27) (2 ^ 27)) with true by (vm_compute; reflexivity).
  now rewrite orb_true_r.
Qed.

End FilteredCounts.

(** A solver stand-in that counts the vertices and the stored entries. *)
Definition skeleton_count (A : csr) (_ : count_options) : flagser_out :=
  mk_flagser_out 0 [Z.of_nat (fst (csr_shape A));
                    Z.of_nat (List.length (csr_entries A))]
                 None None [].

Definition no_binning (_ _ _ w : Z) : Z := w.

Definition two_weights : csr := mk_csr (2, 2)%nat [stored 0 1 5; stored 1 0 1].



Definition no_entries : csr := mk_csr (2, 2)%nat [].

Lemma empty_matrix_filtration_witness :
  filtration_weights no_entries "distance" = Ok []
  /\ filtered_simplex_counts skeleton_count no_binning no_entries "distance"
                             false 10 1 = ([], Ok []).
Proof.
  apply (empty_matrix_filtration skeleton_count no_binning no_entries "distance");
    [reflexivity | now right].
Defined.

Definition explicit_zero : csr := mk_csr (2, 2)%nat [stored 0 1 0].

(** C10 as stated fails: a matrix whose only stored entry is an explicit
    zero has no stored nonzero entry and no edge, yet 0 is a filtration
    threshold and the solver is called for it. *)
Lemma explicit_zero_has_threshold :
  edges explicit_zero = []
  /\ filtration_weights explicit_zero "strength" = Ok [0]
  /\ filtration_weights explicit_zero "distance" = Ok [0]
  /\ solver_calls (filtered_simplex_counts skeleton_count no_binning
                                           explicit_zero "strength" false 10 1)
     = [call_at explicit_zero "strength" 1 0]
  /\ filtration_weights explicit_zero "strength" <> Ok [].
Proof.
  repeat split; try reflexivity. discriminate.
Qed.

(* ------------------------------------------------------------------ *)
(** ** The approximation chunker *)

(** The dimensions [lo, lo + 1, ..., lo + n - 1], as the chunker builds
    them: [np.arange(n) + lo]. *)
Definition zseq (lo : Z) (n : nat) : list Z :=
  map (fun i => i + lo) (arange 0 (Z.of_nat n)).

Lemma zseq_unfold (lo : Z) (n : nat) :
  zseq lo n = map (fun i => lo + Z.of_nat i) (seq 0 n).
Proof.
  unfold zseq, arange. rewrite Z.sub_0_r, Nat2Z.id, map_map.
  apply map_ext. intros i. lia.
Qed.

Lemma zseq_S (lo : Z) (n : nat) : zseq lo (S n) = lo :: zseq (lo + 1) n.
Proof.
  rewrite !zseq_unfold. cbn [seq map]. f_equal; [lia|].
  rewrite <- seq_shift, map_map. apply map_ext. intros i. lia.
Qed.

Lemma zseq_length (lo : Z) (n : nat) : List.length (zseq lo n) = n.
Proof. rewrite zseq_unfold. now rewrite length_map, length_seq. Qed.

(** Adding an element in front of the first list of a list of lists. *)
Definition cons_to_first {A : Type} (x : A) (l : list (list A)) : list (list A) :=
  match l with
  | c :: cs => (x :: c) :: cs
  | [] => [[x]]
  end.

(** The maximal runs of equal consecutive values of a schedule, as lists
    of dimensions counted from [lo]. *)
Fixpoint runs (lo : Z) (a : list Z) : list (list Z) :=
  match a with
  | [] => [[]]
  | x :: r =>
      match r with
      | [] => [[lo]]
      | y :: _ =>
          if x =? y then cons_to_first lo (runs (lo + 1) r)
          else [lo] :: runs (lo + 1) r
      end
  end.

Lemma np_diff_cons (x y : Z) (r : list Z) :
  np_diff (x :: y :: r) = (y - x) :: np_diff (y :: r).
Proof. reflexivity. Qed.

Lemma where_from_lower (k : nat) (l : list Z) :
  Forall (fun i => (k <= i)%nat) (where_from k l).
Proof.
  revert k. induction l as [|x l IH]; intros k; cbn [where_from].
  - constructor.
  - assert (H : Forall (fun i => (k <= i)%nat) (where_from (S k) l)).
    { eapply Forall_impl; [|apply IH]. intros i Hi. cbv beta in Hi. lia. }
    destruct (nonzero x); [constructor; [lia | exact H] | exact H].
Qed.

Lemma split_from_cons {A : Type} (k : nat) (x : A) (ary : list A)
      (indices : list nat) :
  Forall (fun i => (k < i)%nat) indices ->
  split_from k (x :: ary) indices = cons_to_first x (split_from (S k) ary indices).
Proof.
  intros H. destruct indices as [|i rest]; [reflexivity|].
  inversion H as [|? ? Hi _]; subst. cbn [split_from cons_to_first].
  replace (i - k)%nat with (S (i - S k)) by lia. reflexivity.
Qed.

Lemma split_from_runs (a : list Z) (lo : Z) (k : nat) :
  split_from k (zseq lo (List.length a)) (map S (where_from k (np_diff a)))
  = runs lo a.
Proof.
  revert lo k. induction a as [|x r IH]; intros lo k; [reflexivity|].
  destruct r as [|y r'].
  - cbn [np_diff tl removelast combine map where_from split_from List.length].
    now rewrite zseq_S.
  - rewrite np_diff_cons. cbn [where_from].
    change (List.length (x :: y :: r')) with (S (List.length (y :: r'))).
    rewrite zseq_S. cbn [runs]. unfold nonzero.
    destruct (Z.eqb_spec (y - x) 0) as [Heq|Hne]; cbn [negb].
    + replace (x =? y) with true by (symmetry; apply Z.eqb_eq; lia).
      rewrite split_from_cons.
      * now rewrite IH.
      * apply Forall_forall. intros i Hi. apply in_map_iff in Hi.
        destruct Hi as (i' & <- & Hi').
        pose proof (where_from_lower (S k) (np_diff (y :: r'))) as Hl.
        rewrite Forall_forall in Hl. specialize (Hl i' Hi'). lia.
    + replace (x =? y) with false by (symmetry; apply Z.eqb_neq; lia).
      cbn [map split_from].
      replace (S k - k)%nat with 1%nat by lia.
      cbn [firstn skipn]. now rewrite IH.
Qed.

Lemma np_split_runs (min_dim : Z) (approximation : list Z) :
  np_split (map (fun i => i + min_dim)
                (arange 0 (Z.of_nat (List.length approximation))))
           (map S (np_where (np_diff approximation)))
  = runs min_dim approximation.
Proof. apply (split_from_runs approximation min_dim 0). Qed.

(** [rs] cuts the schedule [a], whose first dimension is [lo], into
    consecutive blocks on each of which the schedule is constant. *)
Fixpoint good_runs (lo : Z) (a : list Z) (rs : list (list Z)) : Prop :=
  match rs with
  | [] => a = []
  | c :: rest =>
      exists (n : nat) (v : Z),
        c = zseq lo (S n)
        /\ firstn (S n) a = repeat v (S n)
        /\ good_runs (lo + Z.of_nat (S n)) (skipn (S n) a) rest
  end.

Lemma runs_cons2 (lo x y : Z) (r : list Z) :
  runs lo (x :: y :: r)
  = if x =? y then cons_to_first lo (runs (lo + 1) (y :: r))
    else [lo] :: runs (lo + 1) (y :: r).
Proof. reflexivity. Qed.

Lemma runs_good (a : list Z) (lo : Z) : a <> [] -> good_runs lo a (runs lo a).
Proof.
  revert lo. induction a as [|x r IH]; intros lo Hne; [congruence|].
  destruct r as [|y r'].
  - cbn [runs good_runs]. exists 0%nat, x. repeat split.
  - specialize (IH (lo + 1) ltac:(discriminate)). rewrite runs_cons2.
    destruct (Z.eqb_spec x y) as [->|Hxy].
    + destruct (runs (lo + 1) (y :: r')) as [|c cs] eqn:Hr.
      * exfalso. cbn [good_runs] in IH. discriminate IH.
      * cbn [cons_to_first]. cbn [good_runs] in IH |- *.
        destruct IH as (n & v & Hc & Hv & Hrest).
        exists (S n), y. split; [|split].
        -- rewrite (zseq_S lo (S n)). now rewrite Hc.
        -- change (firstn (S (S n)) (y :: y :: r'))
             with (y :: firstn (S n) (y :: r')).
           rewrite Hv. cbn [firstn repeat] in Hv. injection Hv as Hv _.
           subst v. reflexivity.
        -- change (skipn (S (S n)) (y :: y :: r')) with (skipn (S n) (y :: r')).
           replace (lo + Z.of_nat (S (S n))) with (lo + 1 + Z.of_nat (S n)) by lia.
           exact Hrest.
    + cbn [good_runs]. exists 0%nat, x. split; [|split].
      * now rewrite zseq_S.
      * reflexivity.
      * cbn [skipn]. replace (lo + Z.of_nat 1) with (lo + 1) by lia.
        exact IH.
Qed.

Fixpoint last_error {A : Type} (l : list A) : option A :=
  match l with
  | [] => None
  | x :: r => match r with [] => Some x | _ :: _ => last_error r end
  end.

(** The chunks, read by their first and last elements, tile the range of
    dimensions from [lo] to [hi]: the first chunk starts at [lo], every
    chunk starts right after the end of the one before it, no chunk is
    empty, and the last one ends at [hi]. *)
Fixpoint tiles (lo : Z) (hi : ext) (cs : list chunk) : Prop :=
  match cs with
  | [] => False
  | c :: rest =>
      hd_error c = Some (Fin lo)
      /\ match rest with
         | [] => last_error c = Some hi /\ ext_leb (Fin lo) hi = true
         | _ :: _ =>
             exists N : Z,
               last_error c = Some (Fin N) /\ lo <= N /\ tiles (N + 1) hi rest
         end
  end.

(** Dimension [d] lies between the first and the last element of [c]. *)
Definition covers (d : Z) (c : chunk) : bool :=
  match hd_error c, last_error c with
  | Some (Fin lo), Some hi => (lo <=? d) && ext_leb (Fin d) hi
  | _, _ => false
  end.

Lemma last_error_app {A : Type} (l : list A) (x : A) :
  last_error (l ++ [x]) = Some x.
Proof.
  induction l as [|y l IH]; [reflexivity|].
  cbn [app last_error]. destruct (l ++ [x]) eqn:E; [|exact IH].
  now destruct l.
Qed.

Lemma last_error_cons {A : Type} (x y : A) (l : list A) :
  last_error (x :: y :: l) = last_error (y :: l).
Proof. reflexivity. Qed.

Lemma zseq_hd (lo : Z) (n : nat) :
  hd_error (map Fin (zseq lo (S n))) = Some (Fin lo).
Proof. now rewrite zseq_S. Qed.

Lemma zseq_last (lo : Z) (n : nat) :
  last_error (map Fin (zseq lo (S n))) = Some (Fin (lo + Z.of_nat n)).
Proof.
  revert lo. induction n as [|n IH]; intros lo.
  - rewrite zseq_S. cbn. now rewrite Z.add_0_r.
  - rewrite zseq_S. cbn [map]. specialize (IH (lo + 1)).
    rewrite zseq_S in IH |- *. cbn [map] in IH |- *.
    rewrite last_error_cons, IH. f_equal. f_equal. lia.
Qed.

Lemma covers_zseq (d s : Z) (n : nat) :
  covers d (map Fin (zseq s (S n))) = true <-> s <= d <= s + Z.of_nat n.
Proof.
  unfold covers. rewrite zseq_hd, zseq_last. cbn [ext_leb].
  rewrite andb_true_iff, !Z.leb_le. tauto.
Qed.

Lemma firstn_repeat_length {A : Type} (k : nat) (a : list A) (v : A) :
  firstn k a = repeat v k -> (k <= List.length a)%nat.
Proof.
  intros H. apply (f_equal (@List.length A)) in H.
  rewrite length_firstn, repeat_length in H. lia.
Qed.

Lemma good_runs_tiles (rs : list (list Z)) (lo : Z) (a : list Z) :
  a <> [] -> good_runs lo a rs ->
  tiles lo (Fin (lo + Z.of_nat (List.length a) - 1)) (map (map Fin) rs).
Proof.
  revert lo a. induction rs as [|c rest IH]; intros lo a Hne Hg.
  - cbn [good_runs] in Hg. contradiction.
  - cbn [good_runs] in Hg. destruct Hg as (n & v & -> & Hv & Hrest).
    pose proof (firstn_repeat_length _ _ _ Hv) as Hlen.
    cbn [map tiles]. split; [apply zseq_hd|].
    destruct rest as [|c' rest'].
    + cbn [good_runs] in Hrest. cbn [map].
      assert (List.length a = S n).
      { apply (f_equal (@List.length Z)) in Hrest.
        rewrite length_skipn in Hrest. cbn in Hrest. lia. }
      split.
      * rewrite zseq_last. f_equal. f_equal. lia.
      * cbn. apply Z.leb_le. lia.
    + assert (Hne' : skipn (S n) a <> []).
      { cbn [good_runs] in Hrest. destruct Hrest as (n' & v' & _ & Hv' & _).
        intros E. rewrite E in Hv'. rewrite firstn_nil in Hv'. discriminate. }
      specialize (IH _ _ Hne' Hrest).
      change (map (map Fin) (c' :: rest'))
        with (map Fin c' :: map (map Fin) rest') in IH |- *.
      exists (lo + Z.of_nat n). split; [apply zseq_last|]. split; [lia|].
      rewrite length_skipn in IH.
      replace (lo + Z.of_nat n + 1) with (lo + Z.of_nat (S n)) by lia.
      replace (lo + Z.of_nat (List.length a) - 1)
        with (lo + Z.of_nat (S n) + Z.of_nat (List.length a - S n) - 1) by lia.
      exact IH.
Qed.

Lemma good_runs_values (rs : list (list Z)) (lo : Z) (a : list Z)
      (j : nat) (c : list Z) :
  good_runs lo a rs -> nth_error rs j = Some c ->
  exists (s : Z) (n : nat) (v : Z),
    c = zseq s (S n) /\ lo <= s
    /\ forall d, s <= d <= s + Z.of_nat n ->
                 nth_error a (Z.to_nat (d - lo)) = Some v.
Proof.
  revert lo a j. induction rs as [|c0 rest IH]; intros lo a j Hg Hj.
  - destruct j; discriminate.
  - cbn [good_runs] in Hg. destruct Hg as (n & v & -> & Hv & Hrest).
    destruct j as [|j].
    + injection Hj as <-. exists lo, n, v. split; [reflexivity|].
      split; [lia|]. intros d Hd.
      rewrite <- (firstn_skipn (S n) a), Hv.
      rewrite nth_error_app1 by (rewrite repeat_length; lia).
      apply nth_error_repeat. lia.
    + cbn [nth_error] in Hj.
      destruct (IH _ _ _ Hrest Hj) as (s & n' & v' & -> & Hs & Hd').
      exists s, n', v'. split; [reflexivity|]. split; [lia|].
      intros d Hd. specialize (Hd' d Hd).
      rewrite nth_error_skipn in Hd'. rewrite <- Hd'. f_equal. lia.
Qed.

Lemma tiles_none_below (cs : list chunk) (lo : Z) (hi : ext) (d : Z) :
  tiles lo hi cs -> d < lo -> filter (covers d) cs = [].
Proof.
  revert lo. induction cs as [|c rest IH]; intros lo Ht Hd; [reflexivity|].
  cbn [tiles] in Ht. destruct Ht as [Hhd Ht]. cbn [filter].
  assert (Hc : covers d c = false).
  { unfold covers. rewrite Hhd. destruct (last_error c); [|reflexivity].
    apply andb_false_iff. left. apply Z.leb_gt. lia. }
  rewrite Hc. destruct rest as [|c' rest']; [reflexivity|].
  destruct Ht as (N & _ & HN & Ht). apply (IH (N + 1)); [exact Ht | lia].
Qed.

Lemma tiles_covers_once (cs : list chunk) (lo : Z) (hi : ext) (d : Z) :
  tiles lo hi cs -> lo <= d -> ext_leb (Fin d) hi = true ->
  List.length (filter (covers d) cs) = 1%nat.
Proof.
  revert lo. induction cs as [|c rest IH]; intros lo Ht Hlo Hhi.
  - contradiction.
  - cbn [tiles] in Ht. destruct Ht as [Hhd Ht]. cbn [filter].
    destruct rest as [|c' rest'].
    + destruct Ht as [Hlast _]. unfold covers. rewrite Hhd, Hlast, Hhi.
      replace (lo <=? d) with true by (symmetry; apply Z.leb_le; lia).
      reflexivity.
    + destruct Ht as (N & Hlast & HN & Ht).
      unfold covers at 1. rewrite Hhd, Hlast. cbn [ext_leb].
      replace (lo <=? d) with true by (symmetry; apply Z.leb_le; lia).
      cbn [andb]. destruct (Z.leb_spec d N) as [Hle|Hgt].
      * cbn [List.length]. f_equal.
        rewrite (tiles_none_below _ _ _ d Ht) by lia. reflexivity.
      * apply (IH (N + 1)); [exact Ht | lia | exact Hhi].
Qed.

Lemma tiles_app (cs cs' : list chunk) (lo N : Z) (hi : ext) :
  tiles lo (Fin N) cs -> tiles (N + 1) hi cs' -> tiles lo hi (cs ++ cs').
Proof.
  revert lo. induction cs as [|c rest IH]; intros lo Ht Ht'; [contradiction|].
  cbn [tiles] in Ht. destruct Ht as [Hhd Ht].
  cbn [app tiles]. split; [exact Hhd|].
  destruct rest as [|c' rest'].
  - destruct Ht as [Hlast Hle]. cbn [app].
    destruct cs' as [|c'' cs'']; [contradiction|].
    exists N. split; [exact Hlast|]. split; [|exact Ht'].
    cbn in Hle. now apply Z.leb_le.
  - destruct Ht as (M & Hlast & HM & Ht).
    change ((c' :: rest') ++ cs') with (c' :: (rest' ++ cs')).
    exists M. split; [exact Hlast|]. split; [exact HM|].
    apply (IH (M + 1)); assumption.
Qed.

Lemma tiles_last (cs : list chunk) (lo : Z) (hi : ext) :
  tiles lo hi cs ->
  exists c, last_error cs = Some c /\ last_error c = Some hi.
Proof.
  revert lo. induction cs as [|c rest IH]; intros lo Ht; [contradiction|].
  cbn [tiles] in Ht. destruct Ht as [_ Ht].
  destruct rest as [|c' rest'].
  - exists c. split; [reflexivity | apply Ht].
  - destruct Ht as (N & _ & _ & Ht). rewrite last_error_cons.
    exact (IH _ Ht).
Qed.

Lemma py_index_nth {A : Type} (l : list A) (k : nat) (x : A) :
  nth_error l k = Some x -> py_index l (Z.of_nat k) = Ok x.
Proof.
  intros H. unfold py_index.
  assert (Hk : (k < List.length l)%nat) by (apply nth_error_Some; congruence).
  replace (Z.of_nat k <? 0) with false by (symmetry; apply Z.ltb_ge; lia).
  replace (0 <=? Z.of_nat k) with true by (symmetry; apply Z.leb_le; lia).
  replace (Z.of_nat k <? Z.of_nat (List.length l)) with true
    by (symmetry; apply Z.ltb_lt; lia).
  cbn [andb]. now rewrite Nat2Z.id, H.
Qed.

Lemma last_error_nth {A : Type} (l : list A) (x : A) :
  last_error l = Some x -> nth_error l (List.length l - 1) = Some x.
Proof.
  induction l as [|y l IH]; [discriminate|].
  destruct l as [|z l]; [now intros [= ->]|].
  rewrite last_error_cons. intros H. specialize (IH H).
  replace (List.length (y :: z :: l) - 1)%nat
    with (S (List.length (z :: l) - 1)) by (cbn [List.length]; lia).
  exact IH.
Qed.

Lemma py_index_last {A : Type} (l : list A) (x : A) :
  last_error l = Some x -> py_index l (-1) = Ok x.
Proof.
  intros H. pose proof (last_error_nth l x H) as Hn.
  assert (Hk : (List.length l - 1 < List.length l)%nat)
    by (apply nth_error_Some; congruence).
  unfold py_index. cbn [Z.ltb Z.compare].
  replace (0 <=? -1 + Z.of_nat (List.length l)) with true
    by (symmetry; apply Z.leb_le; lia).
  replace (-1 + Z.of_nat (List.length l) <? Z.of_nat (List.length l)) with true
    by (symmetry; apply Z.ltb_lt; lia).
  cbn [andb].
  replace (Z.to_nat (-1 + Z.of_nat (List.length l)))
    with (List.length l - 1)%nat by lia.
  now rewrite Hn.
Qed.

Lemma last_error_last (l : list Z) (d : Z) :
  l <> [] -> last_error l = Some (last l d).
Proof.
  induction l as [|x l IH]; [congruence|]. intros _.
  destruct l as [|y l]; [reflexivity|].
  rewrite last_error_cons. apply IH. discriminate.
Qed.

Lemma map_result_nth {A : Type} (f : nat -> result A) (l : list A) (k : nat) :
  (forall j x, nth_error l j = Some x -> f (k + j)%nat = Ok x) ->
  map_result f (seq k (List.length l)) = Ok l.
Proof.
  revert k. induction l as [|y l IH]; intros k H; [reflexivity|].
  cbn [List.length seq map_result].
  rewrite <- (Nat.add_0_r k) at 1. rewrite (H 0%nat y eq_refl). cbn [rbind].
  rewrite IH; [reflexivity|].
  intros j x Hj. rewrite Nat.add_succ_comm. now apply (H (S j)).
Qed.

(** The schedule value of a dimension: the entry of the schedule, or -1
    ("exact") for a dimension beyond the schedule. *)
Definition scheduled (min_dim : Z) (approximation : list Z) (d : Z) : Z :=
  nth (Z.to_nat (d - min_dim)) approximation (-1).

Section ChunkerShape.

Variables (min_dim : Z) (max_dim : option Z) (approximation : list Z).

Let size : Z := Z.of_nat (List.length approximation).
Let mx : ext := max_dim_or_inf max_dim.
Let top : Z := min_dim + size - 1.

Hypothesis nonempty : approximation <> [].
Hypothesis last_not_exact : last approximation 0 <> -1.
Hypothesis fits : ext_leb (Fin (size - 1)) (ext_add mx (- min_dim)) = true.

(** The chunk of the dimensions beyond the schedule, when there are any. *)
Definition beyond : list chunk :=
  if ext_ltb (Fin top) mx then [[Fin (top + 1); mx]] else [].

Definition beyond_value : list Z :=
  if ext_ltb (Fin top) mx then [-1] else [].

Definition schedule_chunks : list chunk := map (map Fin) (runs min_dim approximation).

Definition schedule_values : list Z :=
  map (fun c => scheduled min_dim approximation (hd 0 c))
      (runs min_dim approximation).

Lemma shorter_iff_beyond :
  ext_ltb (Fin size) (ext_add (ext_add mx (- min_dim)) 1) = ext_ltb (Fin top) mx.
Proof.
  unfold top. destruct mx as [M|]; cbn; [|reflexivity].
  destruct (Z.ltb_spec size (M + - min_dim + 1));
    destruct (Z.ltb_spec (min_dim + size - 1) M); try reflexivity; lia.
Qed.

Lemma schedule_tiles : tiles min_dim (Fin top) schedule_chunks.
Proof.
  unfold top, size. apply good_runs_tiles; [exact nonempty|].
  apply runs_good, nonempty.
Qed.

Lemma all_tiles : tiles min_dim mx (schedule_chunks ++ beyond).
Proof.
  unfold beyond. destruct (ext_ltb (Fin top) mx) eqn:T.
  - apply (tiles_app _ _ _ top); [apply schedule_tiles|].
    cbn [tiles hd_error last_error]. split; [reflexivity|].
    split; [reflexivity|].
    destruct mx as [M|]; [|reflexivity]. cbn in T |- *.
    apply Z.ltb_lt in T. apply Z.leb_le. lia.
  - rewrite app_nil_r.
    assert (E : mx = Fin top).
    { pose proof fits as F. unfold top. destruct mx as [M|]; [|discriminate].
      cbn in T, F. apply Z.ltb_ge in T. apply Z.leb_le in F.
      f_equal. unfold top in T. lia. }
    rewrite E. apply schedule_tiles.
Qed.

Lemma chunk_value (j : nat) (x : Z) :
  nth_error (schedule_values ++ beyond_value) j = Some x ->
  approx_of_chunk min_dim mx approximation (schedule_chunks ++ beyond) j = Ok x.
Proof.
  intros Hj. unfold approx_of_chunk. fold size.
  rewrite shorter_iff_beyond.
  assert (Hla : py_index approximation (-1) = Ok (last approximation 0)).
  { apply py_index_last, last_error_last, nonempty. }
  assert (Hlen : List.length schedule_values
                 = List.length (runs min_dim approximation)).
  { unfold schedule_values. apply length_map. }
  assert (Hlen' : List.length schedule_chunks
                  = List.length (runs min_dim approximation)).
  { unfold schedule_chunks. apply length_map. }
  destruct (Nat.lt_ge_cases j (List.length (runs min_dim approximation)))
    as [Hlt|Hge].
  - (* a chunk of the schedule *)
    rewrite nth_error_app1 in Hj by lia.
    unfold schedule_values in Hj. rewrite nth_error_map in Hj.
    destruct (nth_error (runs min_dim approximation) j) as [c|] eqn:Hc;
      [|discriminate].
    cbn [option_map] in Hj. injection Hj as <-.
    destruct (good_runs_values _ _ _ _ _ (runs_good _ min_dim nonempty) Hc)
      as (s & n & v & -> & Hs & Hv).
    assert (Hexact :
      (if ext_ltb (Fin top) mx
       then rbind (py_index approximation (-1))
                  (fun l => Ok (negb (l =? -1)
                                && (j =? List.length (schedule_chunks ++ beyond) - 1)%nat))
       else Ok false) = Ok false).
    { unfold beyond. destruct (ext_ltb (Fin top) mx); [|reflexivity].
      rewrite Hla. cbn [rbind]. f_equal.
      rewrite length_app, Hlen'. cbn [List.length].
      replace (j =? List.length (runs min_dim approximation) + 1 - 1)%nat
        with false by (symmetry; apply Nat.eqb_neq; lia).
      apply andb_false_r. }
    rewrite Hexact. cbn [rbind].
    assert (Hchunk : nth_error (schedule_chunks ++ beyond) j
                     = Some (map Fin (zseq s (S n)))).
    { rewrite nth_error_app1 by lia. unfold schedule_chunks.
      now rewrite nth_error_map, Hc. }
    rewrite (py_index_nth _ _ _ Hchunk). cbn [rbind].
    rewrite zseq_S. cbn [map].
    change (py_index (Fin s :: map Fin (zseq (s + 1) n)) 0) with (@Ok ext (Fin s)).
    cbn [rbind py_int hd].
    specialize (Hv s ltac:(lia)). unfold scheduled.
    rewrite (nth_error_nth _ _ _ Hv).
    replace (s - min_dim) with (Z.of_nat (Z.to_nat (s - min_dim))) by lia.
    now apply py_index_nth.
  - (* the chunk beyond the schedule *)
    rewrite nth_error_app2 in Hj by lia. rewrite Hlen in Hj.
    unfold beyond_value, beyond in *.
    destruct (ext_ltb (Fin top) mx); [|now destruct (j - _)%nat].
    destruct (j - List.length (runs min_dim approximation))%nat as [|k] eqn:Hk;
      [|now destruct k].
    cbn in Hj. injection Hj as <-.
    rewrite Hla. cbn [rbind].
    replace (negb (last approximation 0 =? -1)) with true
      by (symmetry; apply negb_true_iff, Z.eqb_neq, last_not_exact).
    rewrite length_app, Hlen'. cbn [List.length].
    replace (j =? List.length (runs min_dim approximation) + 1 - 1)%nat
      with true by (symmetry; apply Nat.eqb_eq; lia).
    reflexivity.
Qed.

Lemma chunker_shape :
  chunk_approx_and_dims min_dim max_dim approximation
  = Ok (schedule_chunks ++ beyond, schedule_values ++ beyond_value).
Proof.
  unfold chunk_approx_and_dims. fold mx size. rewrite fits. cbn [rassert rbind].
  pose proof (np_split_runs min_dim approximation) as Hsplit.
  fold size in Hsplit. rewrite Hsplit. clear Hsplit. fold schedule_chunks.
  rewrite (py_index_last _ _ (last_error_last _ 0 nonempty)). cbn [rbind].
  destruct (tiles_last _ _ _ schedule_tiles) as (c & Hc & Hlast).
  rewrite (py_index_last _ _ Hc). cbn [rbind].
  rewrite (py_index_last _ _ Hlast). cbn [rbind].
  replace (last approximation 0 =? -1) with false
    by (symmetry; apply Z.eqb_neq, last_not_exact).
  assert (E : (if ext_ltb (Fin top) mx
               then schedule_chunks ++ [[ext_add (Fin top) 1; mx]]
               else schedule_chunks) = schedule_chunks ++ beyond).
  { unfold beyond. destruct (ext_ltb (Fin top) mx); [reflexivity|].
    now rewrite app_nil_r. }
  rewrite E.
  assert (L : List.length (schedule_chunks ++ beyond)
              = List.length (schedule_values ++ beyond_value)).
  { rewrite !length_app. unfold schedule_chunks, schedule_values.
    rewrite !length_map. f_equal. unfold beyond, beyond_value.
    now destruct (ext_ltb (Fin top) mx). }
  rewrite L, map_result_nth; [reflexivity|].
  intros j x Hj. now apply chunk_value.
Qed.

End ChunkerShape.

(** C2 (amended). For a schedule that is not empty, whose last entry is
    not -1 and that is no longer than the range from [min_dim] to
    [max_dim] ([max_dim] possibly unbounded), the chunks tile the range:
    contiguous, in increasing order, every dimension of the range in
    exactly one chunk.  The value of a chunk is the schedule value of
    every dimension it covers, -1 ("exact") for the dimensions beyond the
    schedule, and when the schedule is shorter than the range those
    dimensions form the one last chunk. *)
Theorem chunk_approx_and_dims_tiles
        (min_dim : Z) (max_dim : option Z) (approximation : list Z) :
  approximation <> [] ->
  last approximation 0 <> -1 ->
  ext_leb (Fin (Z.of_nat (List.length approximation) - 1))
          (ext_add (max_dim_or_inf max_dim) (- min_dim)) = true ->
  exists (dim_chunks : list chunk) (approx_chunks : list Z),
    chunk_approx_and_dims min_dim max_dim approximation
    = Ok (dim_chunks, approx_chunks)
    /\ List.length approx_chunks = List.length dim_chunks
    /\ tiles min_dim (max_dim_or_inf max_dim) dim_chunks
    /\ (forall d, min_dim <= d ->
                  ext_leb (Fin d) (max_dim_or_inf max_dim) = true ->
                  List.length (filter (covers d) dim_chunks) = 1%nat)
    /\ (forall j c a d,
           nth_error dim_chunks j = Some c ->
           nth_error approx_chunks j = Some a ->
           covers d c = true ->
           a = scheduled min_dim approximation d)
    /\ (ext_ltb (Fin (Z.of_nat (List.length approximation)))
                (ext_add (ext_add (max_dim_or_inf max_dim) (- min_dim)) 1) = true ->
        last_error dim_chunks
        = Some [Fin (min_dim + Z.of_nat (List.length approximation));
                max_dim_or_inf max_dim]
        /\ last_error approx_chunks = Some (-1)).
Proof.
  intros Hne Hlast Hfits.
  set (size := Z.of_nat (List.length approximation)) in *.
  set (mx := max_dim_or_inf max_dim) in *.
  set (rs := runs min_dim approximation).
  set (dcs := schedule_chunks min_dim approximation
              ++ beyond min_dim max_dim approximation).
  set (acs := schedule_values min_dim approximation
              ++ beyond_value min_dim max_dim approximation).
  assert (Hlen : List.length (schedule_values min_dim approximation)
                 = List.length (schedule_chunks min_dim approximation)).
  { unfold schedule_values, schedule_chunks. now rewrite !length_map. }
  assert (Htiles : tiles min_dim mx dcs)
    by (apply all_tiles; assumption).
  exists dcs, acs.
  split; [apply chunker_shape; assumption|].
  split.
  { unfold dcs, acs. rewrite !length_app, Hlen. f_equal.
    unfold beyond, beyond_value.
    now destruct (ext_ltb (Fin (min_dim + Z.of_nat (List.length approximation) - 1))
                          (max_dim_or_inf max_dim)). }
  split; [exact Htiles|].
  split; [intros d Hd Hhi; now apply (tiles_covers_once dcs min_dim mx d)|].
  split.
  - intros j c a d Hc Ha Hcov. unfold dcs, acs in Hc, Ha.
    assert (Hlrs : List.length (schedule_chunks min_dim approximation)
                   = List.length rs).
    { unfold schedule_chunks. apply length_map. }
    destruct (Nat.lt_ge_cases j (List.length rs)) as [Hlt|Hge].
    + rewrite nth_error_app1 in Hc by lia.
      rewrite nth_error_app1 in Ha by lia.
      unfold schedule_chunks in Hc. unfold schedule_values in Ha.
      rewrite nth_error_map in Hc, Ha. fold rs in Hc, Ha.
      destruct (nth_error rs j) as [r|] eqn:Hr; [|discriminate].
      cbn [option_map] in Hc, Ha. injection Hc as <-. injection Ha as <-.
      destruct (good_runs_values _ _ _ _ _ (runs_good _ min_dim Hne) Hr)
        as (s & n & v & -> & Hs & Hv).
      apply covers_zseq in Hcov.
      rewrite zseq_S. cbn [hd]. unfold scheduled.
      rewrite (nth_error_nth _ _ _ (Hv s ltac:(lia))).
      now rewrite (nth_error_nth _ _ _ (Hv d Hcov)).
    + rewrite nth_error_app2 in Hc by lia.
      rewrite nth_error_app2 in Ha by lia.
      rewrite Hlen in Ha. unfold beyond, beyond_value in Hc, Ha.
      destruct (ext_ltb (Fin (min_dim + Z.of_nat (List.length approximation) - 1))
                        (max_dim_or_inf max_dim));
        [|now destruct (j - _)%nat].
      destruct (j - List.length (schedule_chunks min_dim approximation))%nat
        as [|k]; [|now destruct k].
      cbn in Hc, Ha. injection Hc as <-. injection Ha as <-.
      unfold covers in Hcov. cbn in Hcov.
      apply andb_true_iff in Hcov. destruct Hcov as [Hcov _].
      apply Z.leb_le in Hcov. unfold scheduled.
      symmetry. apply nth_overflow. lia.
  - intros Hshort. fold size mx in Hshort.
    pose proof (shorter_iff_beyond min_dim max_dim approximation Hfits) as E.
    fold size mx in E. rewrite Hshort in E.
    unfold dcs, acs, beyond, beyond_value. fold size mx. rewrite <- E.
    rewrite !last_error_app. split; [|reflexivity].
    f_equal. f_equal. f_equal. lia.
Qed.

Lemma chunk_approx_and_dims_tiles_witness :
  exists (dim_chunks : list chunk) (approx_chunks : list Z),
    chunk_approx_and_dims 0 (Some 5) [5; 5; 7] = Ok (dim_chunks, approx_chunks)
    /\ tiles 0 (Fin 5) dim_chunks
    /\ last_error dim_chunks = Some [Fin 3; Fin 5]
    /\ last_error approx_chunks = Some (-1).
Proof.
  destruct (chunk_approx_and_dims_tiles 0 (Some 5) [5; 5; 7])
    as (dcs & acs & Hrun & _ & Ht & _ & _ & Hlast).
  - discriminate.
  - cbn. lia.
  - reflexivity.
  - exists dcs, acs. split; [exact Hrun|]. split; [exact Ht|].
    apply Hlast. reflexivity.
Defined.

(** A chunk as [persistence] reads it: a last element -1 stands for
    [np.inf]. *)
Definition as_read (c : chunk) : chunk :=
  match last_error c with
  | Some (Fin (-1)) => set_last c Inf
  | _ => c
  end.

(** C2 as stated fails: a schedule that ends in -1 has the last
    dimension of its last chunk overwritten by -1, the mark of an
    unbounded chunk, so the chunks do not end at [max_dim], whether the
    mark is taken as a dimension or as it is read. *)
Lemma chunk_approx_and_dims_exact_tail_not_tiling :
  chunk_approx_and_dims 0 (Some 2) [5; -1; -1]
  = Ok ([[Fin 0]; [Fin 1; Fin (-1)]], [5; -1])
  /\ ~ tiles 0 (Fin 2) [[Fin 0]; [Fin 1; Fin (-1)]]
  /\ List.length (filter (covers 2) [[Fin 0]; [Fin 1; Fin (-1)]]) <> 1%nat
  /\ map as_read [[Fin 0]; [Fin 1; Fin (-1)]] = [[Fin 0]; [Fin 1; Inf]]
  /\ ~ tiles 0 (Fin 2) [[Fin 0]; [Fin 1; Inf]].
Proof.
  split; [reflexivity|]. split; [|split; [|split]].
  - cbn. intros (_ & N & HN & _ & _ & Hlast & _).
    injection HN as <-. discriminate Hlast.
  - cbn. discriminate.
  - reflexivity.
  - cbn. intros (_ & N & HN & _ & _ & Hlast & _). discriminate Hlast.
Qed.

(** Two further inputs on which the claim fails: in a last chunk of one
    dimension the mark replaces the only dimension, and the empty
    schedule has no last entry to inspect. *)
Lemma chunk_approx_and_dims_edge_inputs :
  chunk_approx_and_dims 0 (Some 1) [5; -1] = Ok ([[Fin 0]; [Fin (-1)]], [5; -1])
  /\ chunk_approx_and_dims 2 (Some 5) [5; -1] = Raise index_error
  /\ chunk_approx_and_dims 0 (Some 5) [] = Raise index_error.
Proof. repeat split. Qed.

(** *** Schedules that end in -1

    What the chunker does by design when the schedule ends in -1 and its
    last run has at least two dimensions: the chunks and their values are
    those of the schedule, except that the last dimension of the last
    chunk is replaced by -1, which its readers take as "unbounded". *)

Lemma zseq_snoc (lo : Z) (n : nat) :
  zseq lo (S n) = zseq lo n ++ [lo + Z.of_nat n].
Proof.
  rewrite !zseq_unfold. rewrite seq_S, map_app. reflexivity.
Qed.

Lemma last_error_snoc {A : Type} (l : list A) (x : A) :
  last_error l = Some x -> l = removelast l ++ [x].
Proof.
  induction l as [|y l IH]; [discriminate|].
  destruct l as [|z l]; [now intros [= ->]|].
  rewrite last_error_cons. intros H.
  change (removelast (y :: z :: l)) with (y :: removelast (z :: l)).
  cbn [app]. f_equal. now apply IH.
Qed.

Lemma last_error_map {A B : Type} (f : A -> B) (l : list A) (x : A) :
  last_error l = Some x -> last_error (map f l) = Some (f x).
Proof.
  induction l as [|y l IH]; [discriminate|].
  destruct l as [|z l]; [now intros [= ->]|].
  rewrite last_error_cons. intros H. cbn [map]. rewrite last_error_cons.
  now apply IH.
Qed.

Lemma nth_error_set_last {A : Type} (l : list A) (c c' : A) (j : nat) (x : A) :
  last_error l = Some c -> nth_error l j = Some x ->
  nth_error (set_last l c') j = Some (if (j =? List.length l - 1)%nat then c' else x).
Proof.
  intros Hl Hj. unfold set_last.
  assert (Hlen : (j < List.length l)%nat) by (apply nth_error_Some; congruence).
  pose proof (last_error_snoc l c Hl) as E.
  assert (Hrl : List.length (removelast l) = (List.length l - 1)%nat).
  { apply (f_equal (@List.length A)) in E.
    rewrite length_app in E. cbn [List.length] in E. lia. }
  destruct (Nat.eqb_spec j (List.length l - 1)) as [->|Hne].
  - rewrite nth_error_app2 by lia. rewrite Hrl, Nat.sub_diag. reflexivity.
  - rewrite nth_error_app1 by lia. rewrite E in Hj.
    rewrite nth_error_app1 in Hj by lia. exact Hj.
Qed.

Lemma chunk_approx_and_dims_exact_tail
      (min_dim : Z) (max_dim : option Z) (approximation : list Z)
      (s : Z) (n : nat) :
  approximation <> [] ->
  last approximation 0 = -1 ->
  ext_leb (Fin (Z.of_nat (List.length approximation) - 1))
          (ext_add (max_dim_or_inf max_dim) (- min_dim)) = true ->
  last_error (runs min_dim approximation) = Some (zseq s (S (S n))) ->
  chunk_approx_and_dims min_dim max_dim approximation
  = Ok (set_last (schedule_chunks min_dim approximation)
                 (map Fin (zseq s (S n)) ++ [Fin (-1)]),
        schedule_values min_dim approximation).
Proof.
  intros Hne Hlast Hfits Hrun.
  pose proof (runs_good approximation min_dim Hne) as Hgood.
  assert (Hc : last_error (schedule_chunks min_dim approximation)
               = Some (map Fin (zseq s (S (S n))))).
  { unfold schedule_chunks. now apply last_error_map. }
  assert (Hcl : last_error (map Fin (zseq s (S (S n))))
                = Some (Fin (s + Z.of_nat (S n)))) by apply zseq_last.
  assert (Hset : set_last (map Fin (zseq s (S (S n)))) (Fin (-1))
                 = map Fin (zseq s (S n)) ++ [Fin (-1)]).
  { unfold set_last. f_equal. rewrite (zseq_snoc s (S n)), map_app.
    cbn [map]. now rewrite removelast_last. }
  unfold chunk_approx_and_dims. rewrite Hfits. cbn [rassert rbind].
  rewrite np_split_runs. fold (schedule_chunks min_dim approximation).
  rewrite (py_index_last _ _ (last_error_last _ 0 Hne)). cbn [rbind].
  rewrite (py_index_last _ _ Hc). cbn [rbind].
  rewrite (py_index_last _ _ Hcl). cbn [rbind].
  rewrite Hlast. change (-1 =? -1) with true. cbv iota. rewrite Hset.
  set (dcs := set_last (schedule_chunks min_dim approximation)
                       (map Fin (zseq s (S n)) ++ [Fin (-1)])).
  assert (Hlen : List.length dcs
                 = List.length (schedule_values min_dim approximation)).
  { unfold dcs, set_last, schedule_values.
    pose proof (last_error_snoc _ _ Hc) as E.
    apply (f_equal (@List.length chunk)) in E.
    rewrite length_app in E |- *. cbn [List.length] in E |- *.
    unfold schedule_chunks in E |- *. rewrite !length_map in *. lia. }
  rewrite Hlen, map_result_nth; [reflexivity|].
  intros j x Hj. cbn [Nat.add]. unfold approx_of_chunk.
  rewrite (py_index_last _ _ (last_error_last _ 0 Hne)), Hlast.
  change (-1 =? -1) with true.
  assert (Hexact :
    (if ext_ltb (Fin (Z.of_nat (List.length approximation)))
                (ext_add (ext_add (max_dim_or_inf max_dim) (- min_dim)) 1)
     then rbind (Ok (-1))
                (fun l => Ok (negb (l =? -1) && (j =? List.length dcs - 1)%nat))
     else Ok false) = Ok false).
  { now destruct (ext_ltb _ _). }
  rewrite Hexact. cbn [rbind].
  unfold schedule_values in Hj. rewrite nth_error_map in Hj.
  destruct (nth_error (runs min_dim approximation) j) as [r|] eqn:Hr;
    [|discriminate].
  cbn [option_map] in Hj. injection Hj as <-.
  destruct (good_runs_values _ _ _ _ _ Hgood Hr) as (s' & n' & v & -> & Hs' & Hv).
  assert (Hchunk : nth_error (schedule_chunks min_dim approximation) j
                   = Some (map Fin (zseq s' (S n')))).
  { unfold schedule_chunks. now rewrite nth_error_map, Hr. }
  pose proof (nth_error_set_last _ _ (map Fin (zseq s (S n)) ++ [Fin (-1)])
                                 _ _ Hc Hchunk) as Hj'.
  fold dcs in Hj'.
  assert (Hhead : exists c', nth_error dcs j = Some c'
                             /\ py_index c' 0 = Ok (Fin s')).
  { destruct (j =? _)%nat eqn:Hjl in Hj'.
    - apply Nat.eqb_eq in Hjl.
      exists (map Fin (zseq s (S n)) ++ [Fin (-1)]). split; [exact Hj'|].
      assert (Hsame : zseq s' (S n') = zseq s (S (S n))).
      { pose proof (last_error_nth _ _ Hrun) as Hn.
        unfold schedule_chunks in Hjl. rewrite length_map in Hjl.
        rewrite <- Hjl in Hn. congruence. }
      rewrite !zseq_S in Hsame. injection Hsame as Hss _. subst s'.
      now rewrite zseq_S.
    - exists (map Fin (zseq s' (S n'))). split; [exact Hj'|].
      now rewrite zseq_S. }
  destruct Hhead as (c' & Hc' & Hfirst).
  rewrite (py_index_nth _ _ _ Hc'). cbn [rbind]. rewrite Hfirst.
  cbn [rbind py_int]. rewrite zseq_S. cbn [hd].
  specialize (Hv s' ltac:(lia)). unfold scheduled.
  rewrite (nth_error_nth _ _ _ Hv).
  replace (s' - min_dim) with (Z.of_nat (Z.to_nat (s' - min_dim))) by lia.
  now apply py_index_nth.
Qed.

(* ------------------------------------------------------------------ *)
(** ** The bit-packed simplex decoder *)

(** The layout of a word, in the words of the format description: the
    flag is bit 63 and slot [k] is the 21 bits from bit [21 * k] on. *)
Definition bit63 (w : Z) : bool := Z.testbit w 63.

Definition slot (k : Z) (w : Z) : Z := (w / 2 ^ (21 * k)) mod 2 ^ 21.

(** The vertices of a word: its three slots without the empty ones. *)
Definition word_vertices (w : Z) : list Z :=
  filter (fun v => negb (v =? 2 ^ 21 - 1)) [slot 0 w; slot 1 w; slot 2 w].

(** The words cut into consecutive blocks, a new block beginning at
    every word that satisfies [starts] (the words before the first such
    word form a block of their own). *)
Fixpoint blocks (starts : Z -> bool) (words : list Z) : list (list Z) :=
  match words with
  | [] => []
  | w :: r =>
      match r with
      | [] => [[w]]
      | w' :: _ =>
          if starts w' then [w] :: blocks starts r
          else cons_to_first w (blocks starts r)
      end
  end.

(** The vertex list of a block of words. *)
Definition simplex_of (block : list Z) : list Z :=
  List.concat (map word_vertices block).

(** The decoder as the format description has it: a word with bit 63 set
    begins a new simplex. *)
Definition decode_flag_set (words : list Z) : list (list Z) :=
  map simplex_of (blocks bit63 words).

(** The decoder as the code has it: a word with bit 63 clear begins a
    new simplex. *)
Definition decode_flag_clear (words : list Z) : list (list Z) :=
  map simplex_of (blocks (fun w => negb (bit63 w)) words).

Lemma shiftr_land_shiftl (a m k : Z) :
  0 <= k -> Z.shiftr (Z.land a (Z.shiftl m k)) k = Z.land (Z.shiftr a k) m.
Proof.
  intros Hk. rewrite Z.shiftr_land. f_equal.
  rewrite Z.shiftr_shiftl_l by lia. now rewrite Z.sub_diag, Z.shiftl_0_r.
Qed.

Lemma decode_start (w : Z) :
  (Z.shiftr (Z.land w mask64) 63 =? 0) = negb (bit63 w).
Proof.
  unfold mask64, bit63. rewrite shiftr_land_shiftl by lia.
  change 1 with (Z.ones 1) at 1. rewrite Z.land_ones by lia.
  rewrite Z.shiftr_div_pow2 by lia. change (2 ^ 1) with 2.
  destruct (Z.testbit w 63) eqn:Hb; cbn [negb].
  - apply Z.testbit_true in Hb; [|lia]. rewrite Hb. reflexivity.
  - apply Z.testbit_false in Hb; [|lia]. rewrite Hb. reflexivity.
Qed.

Lemma decode_slot0 (w : Z) : Z.land w mask21 = slot 0 w.
Proof.
  unfold slot. change mask21 with (Z.ones 21).
  rewrite Z.land_ones by lia. change (2 ^ (21 * 0)) with 1.
  now rewrite Z.div_1_r.
Qed.

Lemma decode_slot1 (w : Z) : Z.shiftr (Z.land w mask42) 21 = slot 1 w.
Proof.
  unfold slot. change mask42 with (Z.shiftl (Z.ones 21) 21).
  rewrite shiftr_land_shiftl, Z.land_ones, Z.shiftr_div_pow2 by lia.
  reflexivity.
Qed.

Lemma decode_slot2 (w : Z) : Z.shiftr (Z.land w mask63) 42 = slot 2 w.
Proof.
  unfold slot. change mask63 with (Z.shiftl (Z.ones 21) 42).
  rewrite shiftr_land_shiftl, Z.land_ones, Z.shiftr_div_pow2 by lia.
  reflexivity.
Qed.

Lemma decode_vertices_layout (w : Z) :
  decode_vertices w = (negb (bit63 w), word_vertices w).
Proof.
  unfold decode_vertices, word_vertices.
  now rewrite decode_start, decode_slot0, decode_slot1, decode_slot2.
Qed.

(** The rows that are grouped: the running sum of the start flags, from
    [acc], next to the vertices of each word. *)
Definition sid_rows (acc : Z) (words : list Z) : list (Z * list Z) :=
  combine (cumsum_from acc (map fst (map decode_vertices words)))
          (map snd (map decode_vertices words)).

Definition started (w : Z) : Z := if negb (bit63 w) then 1 else 0.

Lemma sid_rows_cons (acc w : Z) (r : list Z) :
  sid_rows acc (w :: r)
  = (acc + started w, word_vertices w) :: sid_rows (acc + started w) r.
Proof.
  unfold sid_rows. cbn [map cumsum_from combine].
  now rewrite decode_vertices_layout.
Qed.

Lemma sid_rows_lower (acc : Z) (words : list Z) :
  Forall (fun r => acc <= fst r) (sid_rows acc words).
Proof.
  revert acc. induction words as [|w r IH]; intros acc.
  - constructor.
  - rewrite sid_rows_cons.
    assert (0 <= started w) by (unfold started; destruct (negb (bit63 w)); lia).
    constructor; [cbn; lia|].
    eapply Forall_impl; [|apply IH]. intros a Ha. cbv beta in Ha. lia.
Qed.

Lemma np_unique_nil (xs : list Z) : np_unique xs = [] -> xs = [].
Proof.
  intros H. destruct xs as [|x xs]; [reflexivity|].
  assert (Hin : In x (np_unique (x :: xs))) by (apply np_unique_In; now left).
  rewrite H in Hin. contradiction.
Qed.

Lemma groupby_hstack_cons (k : Z) (v : list Z) (rest : list (Z * list Z)) :
  Forall (fun r => k <= fst r) rest ->
  groupby_hstack ((k, v) :: rest)
  = match groupby_hstack rest with
    | (k', vs) :: gs => if k' =? k then (k, v ++ vs) :: gs
                        else (k, v) :: (k', vs) :: gs
    | [] => [(k, v)]
    end.
Proof.
  intros Hlow. unfold groupby_hstack.
  change (map fst ((k, v) :: rest)) with (k :: map fst rest).
  change (np_unique (k :: map fst rest))
    with (insert_unique k (np_unique (map fst rest))).
  pose proof (np_unique_sorted (map fst rest)) as Hs.
  assert (Hge : forall y, In y (np_unique (map fst rest)) -> k <= y).
  { intros y Hy. apply (proj1 (np_unique_In _ _)) in Hy. apply in_map_iff in Hy.
    destruct Hy as (r & <- & Hr). rewrite Forall_forall in Hlow. now apply Hlow. }
  assert (Hmem : In k (map fst rest) <-> In k (np_unique (map fst rest)))
    by (symmetry; apply np_unique_In).
  assert (Hfilter : ~ In k (map fst rest) ->
                    filter (fun r => fst r =? k) rest = []).
  { intros Hn. clear -Hn. induction rest as [|[k' v'] rest IH]; [reflexivity|].
    cbn [filter fst]. cbn [map fst In] in Hn.
    destruct (Z.eqb_spec k' k); [tauto|]. apply IH. tauto. }
  destruct (np_unique (map fst rest)) as [|y l] eqn:Hl.
  - apply np_unique_nil in Hl. apply map_eq_nil in Hl. subst rest.
    cbn. rewrite Z.eqb_refl. cbn. now rewrite app_nil_r.
  - inversion Hs as [|? ? Hs' Hy]; subst.
    assert (Hky : k <= y) by (apply Hge; now left).
    assert (Htail : map (fun key => (key, List.concat
                           (map snd (filter (fun r => fst r =? key) ((k, v) :: rest))))) l
                    = map (fun key => (key, List.concat
                           (map snd (filter (fun r => fst r =? key) rest)))) l).
    { apply map_ext_in. intros key Hkey. cbn [filter fst].
      rewrite Forall_forall in Hy. specialize (Hy key Hkey).
      replace (k =? key) with false by (symmetry; apply Z.eqb_neq; lia).
      reflexivity. }
    cbn [insert_unique]. destruct (Z.ltb_spec k y) as [Hlt|Hnl].
    + cbn [map]. replace (y =? k) with false by (symmetry; apply Z.eqb_neq; lia).
      f_equal.
      * cbn [filter fst]. rewrite Z.eqb_refl. cbn [map snd List.concat].
        rewrite Hfilter.
        -- cbn. now rewrite app_nil_r.
        -- intros Hin. apply (proj1 Hmem) in Hin. destruct Hin as [->|Hin]; [lia|].
           rewrite Forall_forall in Hy. specialize (Hy k Hin). lia.
      * f_equal.
        -- cbn [filter fst].
           replace (k =? y) with false by (symmetry; apply Z.eqb_neq; lia).
           reflexivity.
        -- exact Htail.
    + assert (y = k) by lia. subst y. rewrite Z.eqb_refl. cbn [map].
      rewrite Z.eqb_refl. f_equal; [|exact Htail].
      cbn [filter fst]. rewrite Z.eqb_refl. reflexivity.
Qed.

Lemma blocks_cons2 (starts : Z -> bool) (w w' : Z) (r : list Z) :
  blocks starts (w :: w' :: r)
  = if starts w' then [w] :: blocks starts (w' :: r)
    else cons_to_first w (blocks starts (w' :: r)).
Proof. reflexivity. Qed.

Lemma blocks_cons (starts : Z -> bool) (w : Z) (r : list Z) :
  exists g gs, blocks starts (w :: r) = g :: gs.
Proof.
  revert w. induction r as [|w' r IH]; intros w.
  - now exists [w], [].
  - rewrite blocks_cons2. destruct (starts w').
    + now exists [w], (blocks starts (w' :: r)).
    + destruct (IH w') as (g & gs & E). rewrite E.
      now exists (w :: g), gs.
Qed.

Lemma grouped_blocks (r : list Z) (w acc : Z) :
  groupby_hstack (sid_rows acc (w :: r))
  = combine (zseq (acc + started w)
                  (List.length (blocks (fun w => negb (bit63 w)) (w :: r))))
            (map simplex_of (blocks (fun w => negb (bit63 w)) (w :: r))).
Proof.
  revert w acc. induction r as [|w' r IH]; intros w acc.
  - rewrite sid_rows_cons, groupby_hstack_cons by constructor.
    cbn. unfold simplex_of. cbn. now rewrite app_nil_r.
  - rewrite sid_rows_cons, groupby_hstack_cons by apply sid_rows_lower.
    rewrite IH, blocks_cons2.
    assert (Hst : started w' = if negb (bit63 w') then 1 else 0) by reflexivity.
    rewrite Hst. clear Hst.
    destruct (blocks_cons (fun w => negb (bit63 w)) w' r) as (g & gs & E).
    rewrite E. destruct (negb (bit63 w')).
    + cbn [List.length map]. rewrite (zseq_S (acc + started w + 1)).
      cbn [combine].
      replace (acc + started w + 1 =? acc + started w) with false
        by (symmetry; apply Z.eqb_neq; lia).
      rewrite (zseq_S (acc + started w)). cbn [combine]. f_equal.
      * unfold simplex_of. cbn [map List.concat]. now rewrite app_nil_r.
      * now rewrite (zseq_S (acc + started w + 1)).
    + cbn [cons_to_first List.length map]. rewrite Z.add_0_r.
      rewrite (zseq_S (acc + started w)). cbn [combine].
      now rewrite Z.eqb_refl.
Qed.

Lemma combine_fst {A B : Type} (l : list A) (l' : list B) :
  List.length l = List.length l' -> map fst (combine l l') = l.
Proof.
  revert l'. induction l as [|x l IH]; intros [|y l'] H;
    try reflexivity; try discriminate.
  cbn [combine map fst]. f_equal. apply IH. now injection H.
Qed.

Lemma combine_snd {A B : Type} (l : list A) (l' : list B) :
  List.length l = List.length l' -> map snd (combine l l') = l'.
Proof.
  revert l'. induction l as [|x l IH]; intros [|y l'] H;
    try reflexivity; try discriminate.
  cbn [combine map snd]. f_equal. apply IH. now injection H.
Qed.

(** The words that are decoded: all of them, or the first [test]. *)
Definition inspected (words : list Z) (test : option Z) : list Z :=
  match test with
  | Some t => if truthy test then py_slice_to words t else words
  | None => words
  end.

(** C5 (amended). On a sequence of words that is not empty the decoder
    begins a new simplex exactly at the words whose bit 63 is clear
    (words before the first such word form a simplex of their own), and
    each simplex is the concatenation, in word order, of the slots of
    bits 0-20, 21-41 and 42-62 of its words, without the slots equal to
    2^21 - 1.  The simplices are numbered consecutively. *)
Theorem binary2simplex_groups_at_clear_flag (words : list Z) (test : option Z) :
  inspected words test <> [] ->
  exists (vertices : option (list (list Z))) (simplices : list (Z * list Z)),
    _binary2simplex words test = Ok (vertices, simplices)
    /\ map snd simplices = decode_flag_clear (inspected words test)
    /\ map fst simplices
       = zseq (started (hd 0 (inspected words test)))
              (List.length (decode_flag_clear (inspected words test))).
Proof.
  intros Hne. unfold _binary2simplex. fold (inspected words test).
  destruct (inspected words test) as [|w r] eqn:Hw; [congruence|].
  assert (Hg : groupby_hstack
                 (combine (cumsum_from 0 (map fst (map decode_vertices (w :: r))))
                          (map snd (map decode_vertices (w :: r))))
               = combine (zseq (started w) (List.length (decode_flag_clear (w :: r))))
                         (decode_flag_clear (w :: r))).
  { pose proof (grouped_blocks r w 0) as G. unfold sid_rows in G.
    rewrite G. unfold decode_flag_clear.
    now rewrite length_map, Z.add_0_l. }
  assert (Hlen : List.length (zseq (started w)
                                   (List.length (decode_flag_clear (w :: r))))
                 = List.length (decode_flag_clear (w :: r)))
    by apply zseq_length.
  exists (if truthy test then Some (map snd (map decode_vertices (w :: r))) else None),
         (combine (zseq (started w) (List.length (decode_flag_clear (w :: r))))
                  (decode_flag_clear (w :: r))).
  split; [|split].
  - rewrite Hg. now destruct (truthy test).
  - now apply combine_snd.
  - cbn [hd]. now apply combine_fst.
Qed.

(** Two words, both with bit 63 set: vertices 1, 2, 3 and 4, 5. *)
Definition flagged_words : list Z :=
  [2 ^ 63 + 1 + 2 * 2 ^ 21 + 3 * 2 ^ 42;
   2 ^ 63 + 4 + 5 * 2 ^ 21 + (2 ^ 21 - 1) * 2 ^ 42].

(** Two words, the first with bit 63 clear, the second with it set. *)
Definition clear_then_set : list Z :=
  [1 + 2 * 2 ^ 21 + 3 * 2 ^ 42;
   2 ^ 63 + 4 + 5 * 2 ^ 21 + (2 ^ 21 - 1) * 2 ^ 42].

Lemma binary2simplex_groups_at_clear_flag_witness :
  exists (vertices : option (list (list Z))) (simplices : list (Z * list Z)),
    _binary2simplex clear_then_set None = Ok (vertices, simplices)
    /\ map snd simplices = [[1; 2; 3; 4; 5]]
    /\ map fst simplices = [1].
Proof.
  destruct (binary2simplex_groups_at_clear_flag clear_then_set None)
    as (vs & ss & Hrun & Hsnd & Hfst).
  - discriminate.
  - exists vs, ss. split; [exact Hrun|]. split; [exact Hsnd | exact Hfst].
Defined.

(** C5 as stated fails: of two words that both have bit 63 set the
    format description makes two simplices, the decoder one. *)
Lemma binary2simplex_set_flag_does_not_start :
  Forall (fun w => bit63 w = true) flagged_words
  /\ decode_flag_set flagged_words = [[1; 2; 3]; [4; 5]]
  /\ _binary2simplex flagged_words None = Ok (None, [(0, [1; 2; 3; 4; 5])]).
Proof.
  split; [repeat constructor|]. split; reflexivity.
Qed.

(* ------------------------------------------------------------------ *)
(** ** The validation of [betti_counts] *)

(** The validation that the docstring of [betti_counts] announces, for a
    square matrix with zero diagonal: an [AssertionError] exactly when an
    approximation is given and [min_dim] is not 0. *)
Definition documented_check_fails (min_dim : Z) (approximation : option (list Z))
  : bool :=
  match approximation with
  | None => false
  | Some _ => negb (min_dim =? 0)
  end.

Definition zero_matrix (n : nat) : csr := mk_csr (n, n) [].

Section BettiValidation.

Variable flagser_unweighted : csr -> Z -> ext -> option Z -> list Z.

Lemma betti_counts_checks_never_pass (adj : csr) (min_dim : Z)
      (approximation : option (list Z)) :
  is_ok (outcome (betti_counts_checks adj min_dim approximation)) = false.
Proof.
  unfold betti_counts_checks.
  destruct (count_nonzero (diagonal adj) =? 0)%nat; [|reflexivity].
  cbn [py_assert tbind tret app].
  destruct (fst (csr_shape adj) =? snd (csr_shape adj))%nat; reflexivity.
Qed.

(** Whatever its arguments, [betti_counts] does not return: the third
    check evaluates [approximation in None]. *)
Lemma betti_counts_never_returns (adj : csr) (min_dim : Z) (max_dim : option Z)
      (simplex_type : string) (approximation : option (list Z)) :
  is_ok (outcome (betti_counts flagser_unweighted adj min_dim max_dim
                               simplex_type approximation)) = false
  /\ solver_calls (betti_counts flagser_unweighted adj min_dim max_dim
                                simplex_type approximation) = [].
Proof.
  unfold betti_counts.
  set (flags := astype_int (astype_bool adj)).
  pose proof (betti_counts_checks_never_pass flags min_dim approximation) as H.
  unfold betti_counts_checks in *.
  destruct (count_nonzero (diagonal flags) =? 0)%nat;
    [|split; reflexivity].
  cbn [py_assert tbind tret app] in *.
  destruct (fst (csr_shape flags) =? snd (csr_shape flags))%nat;
    split; reflexivity.
Qed.

(** C1, the code at the default call: on the 2 x 2 zero matrix, with
    [min_dim = 0] and no approximation, the documented check passes, but
    the code raises [TypeError] before any solver call. *)
Theorem betti_counts_default_call_raises :
  documented_check_fails 0 None = false
  /\ betti_counts flagser_unweighted (zero_matrix 2) 0 None "directed" None
     = ([], Raise (TypeError "argument of type 'NoneType' is not iterable")).
Proof. split; reflexivity. Qed.

End BettiValidation.

(* ------------------------------------------------------------------ *)
(** ** Generalised degree *)

(** The solver lists the simplices of dimension [d]: at least one, each
    with [d + 1] vertices. *)
Definition lists_dimension (out : flagser_out) (d : Z) : Prop :=
  exists rows,
    nth_error (simplices out) (Z.to_nat d) = Some rows
    /\ rows <> []
    /\ Forall (fun r => List.length r = S (Z.to_nat d)) rows.

Lemma column_ok (k : nat) (rows : list (list nat)) :
  rows <> [] -> Forall (fun r => (k < List.length r)%nat) rows ->
  column k rows = Ok (map (fun r => nth k r 0%nat) rows).
Proof.
  intros Hne Hall. unfold column. destruct rows as [|r rows]; [congruence|].
  replace (forallb (fun r0 => (k <? List.length r0)%nat) (r :: rows)) with true;
    [reflexivity|].
  symmetry. apply forallb_forall. intros x Hx.
  rewrite Forall_forall in Hall. apply Nat.ltb_lt. now apply Hall.
Qed.

Lemma degree_step_ok (out : flagser_out) (n : nat) (direction : direction_arg)
      (table : degree_table) (dim : Z) :
  0 <= dim -> lists_dimension out dim ->
  exists table', degree_step out n direction table dim = Ok table'.
Proof.
  intros Hdim (rows & Hrows & Hne & Hall). unfold degree_step. rewrite Hrows.
  assert (H0 : column 0 rows = Ok (map (fun r => nth 0 r 0%nat) rows)).
  { apply column_ok; [exact Hne|]. eapply Forall_impl; [|exact Hall].
    intros r Hr. cbv beta in Hr. lia. }
  assert (Hd : column (Z.to_nat dim) rows
               = Ok (map (fun r => nth (Z.to_nat dim) r 0%nat) rows)).
  { apply column_ok; [exact Hne|]. eapply Forall_impl; [|exact Hall].
    intros r Hr. cbv beta in Hr. lia. }
  rewrite H0, Hd.
  destruct (in_direction "OUT" direction); destruct (in_direction "IN" direction);
    cbn [rbind]; eexists; reflexivity.
Qed.

Lemma degree_loop_ok (out : flagser_out) (n : nat) (direction : direction_arg)
      (dims : list Z) (table : degree_table) :
  Forall (fun d => 0 <= d /\ lists_dimension out d) dims ->
  exists table', degree_loop out n direction dims table = Ok table'.
Proof.
  revert table. induction dims as [|d dims IH]; intros table Hall.
  - now exists table.
  - inversion Hall as [|? ? [Hd Hl] Hall']; subst. cbn [degree_loop].
    destruct (degree_step_ok out n direction table d Hd Hl) as (t' & ->).
    cbn [rbind]. now apply IH.
Qed.

Lemma arange_In (lo hi d : Z) : In d (arange lo hi) <-> lo <= d < hi.
Proof.
  unfold arange. rewrite in_map_iff. split.
  - intros (i & <- & Hi). apply in_seq in Hi. lia.
  - intros H. exists (Z.to_nat (d - lo)). split; [lia|]. apply in_seq. lia.
Qed.

Section GeneralisedDegree.

Variable flagser_count : csr -> count_options -> flagser_out.

(** [node_k_degree] on valid arguments, as one expression: the events
    in order and the outcome. *)
Lemma node_k_degree_run (adj : csr) (direction : direction_arg) (max_dim : Z) :
  (max_dim >? 1) || (max_dim =? -1) = true ->
  direction_valid direction = true ->
  let out := flagser_count adj (listing_options max_dim) in
  let attainable := Z.of_nat (List.length (cell_counts out)) - 1 in
  let diag_events :=
    if negb (count_nonzero (diagonal adj) =? 0)%nat
    then [LogWarning diag_warning_ignored] else [] in
  let lowered := negb (max_dim =? -1) && (max_dim >? attainable) in
  let dim := if (max_dim =? -1) || (max_dim >? attainable)
             then attainable else max_dim in
  let head := diag_events
              ++ [CallFlagserCount adj (listing_options max_dim)]
              ++ (if lowered then [LogWarning not_attained_warning] else []) in
  node_k_degree flagser_count adj direction max_dim
  = if (dim <=? 1) && negb (dim =? -1)
    then (head ++ [Print no_high_simplices_message], Ok None)
    else match degree_loop out (fst (csr_shape adj)) direction
                           (arange 2 (dim + 1)) [] with
         | Ok t => (head, Ok (Some t))
         | Raise e => (head, Raise e)
         end.
Proof.
  intros Hpre Hdir. cbv zeta. unfold node_k_degree. rewrite Hpre, Hdir.
  unfold call_flagser_count, when, emit, lift, py_assert, tret.
  cbn [tbind app].
  destruct (negb (count_nonzero (diagonal adj) =? 0)%nat);
    destruct (max_dim =? -1);
    destruct (max_dim >? Z.of_nat (List.length
                (cell_counts (flagser_count adj (listing_options max_dim)))) - 1);
    cbn [orb andb negb tbind app];
    match goal with
    | |- context [if ?b then _ else _] => destruct b
    end;
    cbn [tbind app];
    try reflexivity;
    match goal with
    | |- context [degree_loop ?a ?b ?c ?d ?e] => destruct (degree_loop a b c d e)
    end; reflexivity.
Qed.

(** C8 (amended). [node_k_degree] always calls the solver, once, since
    the attainable dimension is read off the solver's cell counts.  When
    these show a complex of dimension 0 or 1, the function prints that
    there are no simplices of dimension 2 or higher and returns nothing.
    When the requested [max_dim] exceeds the attainable dimension, it
    logs a warning and computes the table up to the attainable
    dimension, which succeeds when the solver lists the simplices of
    those dimensions. *)
Theorem node_k_degree_degenerate_cases
        (adj : csr) (direction : direction_arg) (max_dim : Z) :
  let out := flagser_count adj (listing_options max_dim) in
  let attainable := Z.of_nat (List.length (cell_counts out)) - 1 in
  let run := node_k_degree flagser_count adj direction max_dim in
  (max_dim > 1 \/ max_dim = -1) ->
  direction_valid direction = true ->
  solver_calls run = [CallFlagserCount adj (listing_options max_dim)]
  /\ (0 <= attainable <= 1 ->
      outcome run = Ok None
      /\ In (Print no_high_simplices_message) (events run))
  /\ (2 <= attainable < max_dim ->
      (forall d, 2 <= d <= attainable -> lists_dimension out d) ->
      In (LogWarning not_attained_warning) (events run)
      /\ exists table,
           degree_loop out (fst (csr_shape adj)) direction
                       (arange 2 (attainable + 1)) [] = Ok table
           /\ outcome run = Ok (Some table)).
Proof.
  intros out attainable run Hmax Hdir.
  assert (Hpre : (max_dim >? 1) || (max_dim =? -1) = true).
  { apply orb_true_iff. destruct Hmax as [H | H].
    - left. apply Z.gtb_lt. lia.
    - right. now apply Z.eqb_eq. }
  pose proof (node_k_degree_run adj direction max_dim Hpre Hdir) as Hrun.
  cbv zeta in Hrun. fold out in Hrun. fold attainable in Hrun. fold run in Hrun.
  set (diag_events := if negb (count_nonzero (diagonal adj) =? 0)%nat
                      then [LogWarning diag_warning_ignored] else []) in Hrun.
  assert (Hdiag : filter is_solver_call diag_events = []).
  { unfold diag_events.
    now destruct (negb (count_nonzero (diagonal adj) =? 0)%nat). }
  set (lowered := negb (max_dim =? -1) && (max_dim >? attainable)) in Hrun.
  set (dim := if (max_dim =? -1) || (max_dim >? attainable)
              then attainable else max_dim) in Hrun.
  set (head := diag_events
               ++ [CallFlagserCount adj (listing_options max_dim)]
               ++ (if lowered then [LogWarning not_attained_warning] else []))
    in Hrun.
  assert (Hhead : filter is_solver_call head
                  = [CallFlagserCount adj (listing_options max_dim)]).
  { unfold head. rewrite !filter_app, Hdiag. now destruct lowered. }
  split; [|split].
  - unfold solver_calls, events. rewrite Hrun.
    destruct ((dim <=? 1) && negb (dim =? -1)).
    + cbn [fst]. rewrite filter_app, Hhead. reflexivity.
    + destruct (degree_loop out (fst (csr_shape adj)) direction
                            (arange 2 (dim + 1)) []); exact Hhead.
  - intros Hflat.
    assert (Hdim : (dim <=? 1) && negb (dim =? -1) = true).
    { unfold dim. destruct (Z.eqb_spec max_dim (-1)) as [E|E]; cbn [orb].
      - apply andb_true_iff. split; [apply Z.leb_le; lia|].
        apply negb_true_iff, Z.eqb_neq. lia.
      - destruct (Z.gtb_spec max_dim attainable); [|lia].
        apply andb_true_iff. split; [apply Z.leb_le; lia|].
        apply negb_true_iff, Z.eqb_neq. lia. }
    rewrite Hdim in Hrun. unfold outcome, events. rewrite Hrun. cbn [fst snd].
    split; [reflexivity|]. apply in_or_app. right. now left.
  - intros [H2 Hlt] Hlisted.
    assert (Hgt : (max_dim >? attainable) = true) by (apply Z.gtb_lt; lia).
    assert (Hne : (max_dim =? -1) = false) by (apply Z.eqb_neq; lia).
    assert (Hdim : dim = attainable).
    { unfold dim. now rewrite Hgt, orb_true_r. }
    assert (Hlow : lowered = true).
    { unfold lowered. now rewrite Hgt, Hne. }
    rewrite Hdim in Hrun.
    replace ((attainable <=? 1) && negb (attainable =? -1)) with false in Hrun
      by (symmetry; apply andb_false_iff; left; apply Z.leb_gt; lia).
    destruct (degree_loop_ok out (fst (csr_shape adj)) direction
                             (arange 2 (attainable + 1)) [])
      as (table & Htable).
    { apply Forall_forall. intros d Hd. apply arange_In in Hd.
      split; [lia|]. apply Hlisted. lia. }
    rewrite Htable in Hrun. unfold outcome, events. rewrite Hrun. cbn [fst snd].
    split.
    + unfold head. rewrite Hlow. apply in_or_app. right.
      apply in_or_app. right. now left.
    + exists table. split; [exact Htable | reflexivity].
Qed.

End GeneralisedDegree.

Definition both_directions : direction_arg := DTuple ["IN"; "OUT"]%string.

Lemma node_k_degree_degenerate_cases_witness :
  solver_calls (node_k_degree skeleton_count (zero_matrix 2) both_directions 3)
  = [CallFlagserCount (zero_matrix 2) (listing_options 3)]
  /\ outcome (node_k_degree skeleton_count (zero_matrix 2) both_directions 3)
     = Ok None.
Proof.
  destruct (node_k_degree_degenerate_cases skeleton_count (zero_matrix 2)
                                           both_directions 3)
    as (Hcalls & Hflat & _).
  - left. lia.
  - reflexivity.
  - split; [exact Hcalls|]. apply Hflat. cbn. lia.
Defined.

(** C8 as stated fails: on a graph without edges the solver is called
    before the function reports that there are no simplices of
    dimension 2 or higher. *)
Lemma node_k_degree_calls_solver_first :
  events (node_k_degree skeleton_count (zero_matrix 2) both_directions (-1))
  = [CallFlagserCount (zero_matrix 2) (listing_options (-1));
     Print no_high_simplices_message]
  /\ solver_calls (node_k_degree skeleton_count (zero_matrix 2)
                                 both_directions (-1)) <> [].
Proof. split; [reflexivity | discriminate]. Qed.

(* ------------------------------------------------------------------ *)
(** ** The underlying undirected matrix *)

Lemma sumZ_app (l1 l2 : list Z) : sumZ (l1 ++ l2) = sumZ l1 + sumZ l2.
Proof.
  unfold sumZ. induction l1 as [|x l1 IH]; cbn [app fold_right]; [reflexivity|].
  rewrite IH. lia.
Qed.

Lemma sum_indicator (c : Z) (i n start : nat) :
  sumZ (map (fun k => if (k =? i)%nat then c else 0) (seq start n))
  = if ((start <=? i) && (i <? start + n))%nat then c else 0.
Proof.
  revert start. induction n as [|n IH]; intros start.
  - cbn [seq map sumZ fold_right].
    destruct (Nat.leb_spec start i); destruct (Nat.ltb_spec i (start + 0));
      cbn [andb]; try reflexivity; lia.
  - cbn [seq map]. change (sumZ (?x :: ?l)) with (x + sumZ l). rewrite IH.
    destruct (Nat.eqb_spec start i);
      destruct (Nat.leb_spec start i);
      destruct (Nat.leb_spec (S start) i);
      destruct (Nat.ltb_spec i (start + S n));
      destruct (Nat.ltb_spec i (S start + n));
      cbn [andb]; try lia.
Qed.

Lemma sum_over_positions (c : Z) (i j N M : nat) :
  sumZ (map (fun p => if ((fst p =? i) && (snd p =? j))%nat then c else 0)
            (positions (N, M)))
  = if ((i <? N) && (j <? M))%nat then c else 0.
Proof.
  unfold positions. cbn [fst snd].
  assert (Hrow : forall i',
    sumZ (map (fun p => if ((fst p =? i) && (snd p =? j))%nat then c else 0)
              (map (fun j' => (i', j')) (seq 0 M)))
    = if (i' =? i)%nat then (if (j <? M)%nat then c else 0) else 0).
  { intros i'. rewrite map_map. cbn [fst snd].
    destruct (Nat.eqb_spec i' i); cbn [andb].
    - rewrite sum_indicator. now rewrite Nat.add_0_l.
    - induction (seq 0 M) as [|x l IH]; [reflexivity|].
      cbn [map]. change (sumZ (?x :: ?l)) with (x + sumZ l). now rewrite IH. }
  assert (Hall : forall l,
    sumZ (map (fun p => if ((fst p =? i) && (snd p =? j))%nat then c else 0)
              (flat_map (fun i' => map (fun j' => (i', j')) (seq 0 M)) l))
    = sumZ (map (fun i' => if (i' =? i)%nat
                           then (if (j <? M)%nat then c else 0) else 0) l)).
  { induction l as [|x l IH]; [reflexivity|].
    cbn [flat_map map]. rewrite map_app, sumZ_app, Hrow, IH. reflexivity. }
  rewrite Hall, sum_indicator. rewrite Nat.add_0_l. cbn [Nat.leb andb].
  now destruct (i <? N)%nat, (j <? M)%nat.
Qed.

Lemma csr_get_flat (f : nat -> nat -> Z) (i j : nat) (ps : list (nat * nat)) :
  sumZ (map e_val
            (filter (at_pos i j)
                    (flat_map (fun p => if nonzero (f (fst p) (snd p))
                                        then [(fst p, snd p, f (fst p) (snd p))]
                                        else [])
                              ps)))
  = sumZ (map (fun p => if ((fst p =? i) && (snd p =? j))%nat then f i j else 0)
              ps).
Proof.
  induction ps as [|[p1 p2] ps IH]; [reflexivity|].
  cbn [flat_map]. rewrite filter_app, map_app, sumZ_app.
  cbn [map fst snd].
  change (sumZ (?x :: ?l)) with (x + sumZ l). f_equal; [|exact IH].
  destruct (nonzero (f p1 p2)) eqn:NZ.
  - cbn [filter]. unfold at_pos, e_row, e_col. cbn [fst snd].
    destruct (Nat.eqb_spec p1 i); destruct (Nat.eqb_spec p2 j); cbn [andb];
      try reflexivity.
    subst. cbn. unfold e_val. cbn. lia.
  - cbn [filter map]. unfold nonzero in NZ. apply negb_false_iff, Z.eqb_eq in NZ.
    destruct (Nat.eqb_spec p1 i); destruct (Nat.eqb_spec p2 j); cbn [andb];
      try reflexivity.
    subst. cbn. congruence.
Qed.

Lemma csr_get_of_fun (dt : dtype) (sh : nat * nat) (f : nat -> nat -> Z)
      (i j : nat) :
  csr_get (csr_of_fun dt sh f) i j
  = if ((i <? fst sh) && (j <? snd sh))%nat then f i j else 0.
Proof.
  unfold csr_get, csr_of_fun. cbn [csr_entries]. rewrite csr_get_flat.
  destruct sh as [N M]. apply sum_over_positions.
Qed.

Lemma csr_get_transpose (A : csr) (i j : nat) :
  csr_get (transpose A) i j = csr_get A j i.
Proof.
  unfold csr_get, transpose. cbn [csr_entries]. f_equal.
  induction (csr_entries A) as [|e es IH]; [reflexivity|].
  cbn [map filter].
  assert (Hsw : at_pos i j (e_col e, e_row e, e_val e) = at_pos j i e).
  { unfold at_pos, e_row, e_col. cbn [fst snd]. apply andb_comm. }
  rewrite Hsw. destruct (at_pos j i e); cbn [map]; [f_equal|]; exact IH.
Qed.

Lemma nonzero_truth (v : Z) : nonzero (truth v) = nonzero v.
Proof. unfold truth. now destruct (nonzero v) eqn:E. Qed.

Lemma astype_bool_of_fun (dt : dtype) (sh : nat * nat) (f : nat -> nat -> Z) :
  astype_bool (csr_of_fun dt sh f)
  = csr_of_fun np_bool sh (fun i j => truth (f i j)).
Proof.
  unfold astype_bool, csr_of_fun. cbn [csr_shape csr_entries]. f_equal.
  induction (positions sh) as [|p ps IH]; [reflexivity|].
  cbn [flat_map]. rewrite map_app. f_equal; [|exact IH].
  rewrite nonzero_truth. now destruct (nonzero (f (fst p) (snd p))).
Qed.

Lemma promote_same (dt : dtype) : promote dt dt = dt.
Proof. now destruct dt. Qed.

(** The sum of two numbers of a dtype that are not negative is zero only
    if both are (int64 numbers being below 2^63). *)
Lemma add_in_nonneg (dt : dtype) (a b : Z) :
  0 <= a < 2 ^ 63 -> 0 <= b < 2 ^ 63 ->
  nonzero (add_in dt a b) = nonzero (a + b).
Proof.
  intros Ha Hb. destruct dt; cbn [add_in].
  - apply nonzero_truth.
  - unfold nonzero. f_equal.
    destruct (Z.eqb_spec (a + b) 0) as [E|N].
    + rewrite E. reflexivity.
    + apply Z.eqb_neq. unfold wrap64.
      destruct (Z.ltb_spec (a + b) (2 ^ 63)) as [Hlt|Hge].
      * rewrite Z.mod_small by lia. lia.
      * replace (a + b + 2 ^ 63) with (a + b - 2 ^ 63 + 1 * 2 ^ 64) by lia.
        rewrite Z.mod_add by lia. rewrite Z.mod_small by lia. lia.
  - apply float64_nonzero.
Qed.

(** What the code computes: an entry of the result is true exactly when
    the sum of the two opposite entries, taken in the dtype of the
    matrix, is not zero. *)
Lemma underlying_undirected_matrix_entry (A : csr) (i j : nat) :
  is_square A ->
  (i < fst (csr_shape A))%nat -> (j < fst (csr_shape A))%nat ->
  exists B,
    outcome (underlying_undirected_matrix A) = Ok B
    /\ csr_get B i j
       = truth (add_in (csr_dtype A) (csr_get A i j) (csr_get A j i)).
Proof.
  intros Hsq Hi Hj. unfold is_square in Hsq.
  exists (csr_of_fun np_bool (csr_shape A)
            (fun i j => truth (add_in (csr_dtype A) (csr_get A i j)
                                      (csr_get A j i)))).
  split.
  - unfold underlying_undirected_matrix, csr_add.
    replace (shape_eqb (csr_shape A) (csr_shape (transpose A))) with true.
    + unfold when, emit, lift, tret, outcome.
      change (csr_dtype (transpose A)) with (csr_dtype A).
      rewrite promote_same.
      destruct (negb (count_nonzero (diagonal A) =? 0)%nat); cbn [tbind snd];
        rewrite astype_bool_of_fun; f_equal; unfold csr_of_fun; f_equal;
        apply flat_map_ext; intros p; now rewrite csr_get_transpose.
    + symmetry. unfold shape_eqb, transpose. cbn [csr_shape fst snd].
      rewrite Hsq. now rewrite !Nat.eqb_refl.
  - rewrite csr_get_of_fun. rewrite <- Hsq.
    replace (i <? fst (csr_shape A))%nat with true
      by (symmetry; now apply Nat.ltb_lt).
    replace (j <? fst (csr_shape A))%nat with true
      by (symmetry; now apply Nat.ltb_lt).
    reflexivity.
Qed.

(** On matrices without negative entries, which for int64 data are
    below 2^63, this is the symmetric closure. *)
Lemma underlying_undirected_matrix_nonnegative (A : csr) (i j : nat) :
  is_square A ->
  (forall r c, 0 <= csr_get A r c < 2 ^ 63) ->
  (i < fst (csr_shape A))%nat -> (j < fst (csr_shape A))%nat ->
  exists B,
    outcome (underlying_undirected_matrix A) = Ok B
    /\ (csr_get B i j = 1 <-> csr_get A i j <> 0 \/ csr_get A j i <> 0).
Proof.
  intros Hsq Hpos Hi Hj.
  destruct (underlying_undirected_matrix_entry A i j Hsq Hi Hj) as (B & HB & E).
  exists B. split; [exact HB|]. rewrite E. unfold truth.
  rewrite (add_in_nonneg _ _ _ (Hpos i j) (Hpos j i)). unfold nonzero.
  pose proof (Hpos i j). pose proof (Hpos j i).
  destruct (Z.eqb_spec (csr_get A i j + csr_get A j i) 0); cbn [negb]; split;
    intros; try lia.
Qed.

(** Two opposite edges whose weights cancel. *)
Definition opposite_weights : csr :=
  mk_csr (2, 2)%nat [stored 0 1 1; stored 1 0 (-1)].

(** C7, the code on two opposite edges of weights 1 and -1: both entries
    are nonzero and the diagonal is zero, yet the result stores no entry,
    so its entry at (0, 1) is false. *)
Theorem underlying_undirected_matrix_cancelling_weights :
  csr_get opposite_weights 0 1 = 1
  /\ csr_get opposite_weights 1 0 = -1
  /\ diagonal opposite_weights = [0; 0]
  /\ underlying_undirected_matrix opposite_weights
     = ([], Ok (mk_matrix (2, 2)%nat [] np_bool))
  /\ csr_get (mk_matrix (2, 2)%nat [] np_bool) 0 1 = 0.
Proof. repeat split. Qed.

(* ------------------------------------------------------------------ *)
(** ** Bidirectional-edge counts *)

Lemma map_result_Forall2 {A B : Type} (f : A -> result B) (R : A -> B -> Prop)
      (l : list A) :
  Forall (fun x => exists y, f x = Ok y /\ R x y) l ->
  exists ys, map_result f l = Ok ys /\ Forall2 R l ys.
Proof.
  induction 1 as [|x l (y & Hy & HR) _ (ys & Hys & HF)].
  - exists []. split; [reflexivity | constructor].
  - exists (y :: ys). cbn [map_result]. rewrite Hy, Hys. cbn [rbind].
    split; [reflexivity | now constructor].
Qed.



Lemma fold_mat_add_at (ms : list ndmat) (m0 : ndmat) (p q : nat) :
  m_at (fold_left mat_add ms m0) p q
  = m_at m0 p q + sumZ (map (fun m => m_at m p q) ms).
Proof.
  revert m0. induction ms as [|m ms IH]; intros m0.
  - cbn. lia.
  - cbn [fold_left map]. change (sumZ (?x :: ?l)) with (x + sumZ l).
    rewrite IH. cbn [mat_add m_at]. lia.
Qed.


(** The vertices of a simplex are nodes of the matrix. *)
Definition nodes_of (A : csr) (s : list nat) : Prop :=
  Forall (fun v => (v < fst (csr_shape A))%nat /\ (v < snd (csr_shape A))%nat) s.

(** What [subset_adj] extracts for a simplex [s]: entry [(p, q)] is the
    adjacency from the [q]-th to the [p]-th vertex of [s]. *)
Definition transposed_induced (A : csr) (s : list nat) (m : ndmat) : Prop :=
  m_rows m = List.length s
  /\ m_cols m = List.length s
  /\ forall p q, m_at m p q = csr_get A (nth q s 0%nat) (nth p s 0%nat).

Lemma subset_adj_transposed (A : csr) (s : list nat) :
  nodes_of A s ->
  exists m, subset_adj (toarray A) s = Ok m /\ transposed_induced A s m.
Proof.
  intros Hs. unfold subset_adj, take_rows, toarray. cbn [m_rows m_cols].
  assert (H1 : forallb (fun v => (v <? fst (csr_shape A))%nat) s = true).
  { apply forallb_forall. intros v Hv. unfold nodes_of in Hs.
    rewrite Forall_forall in Hs. apply Nat.ltb_lt. now apply Hs. }
  assert (H2 : forallb (fun v => (v <? snd (csr_shape A))%nat) s = true).
  { apply forallb_forall. intros v Hv. unfold nodes_of in Hs.
    rewrite Forall_forall in Hs. apply Nat.ltb_lt. now apply Hs. }
  rewrite H1. cbn [rbind mat_T m_rows m_cols m_at]. rewrite H2.
  eexists. split; [reflexivity|]. now repeat split.
Qed.



Lemma sum_transposed (A : csr) (rows : list (list nat)) (ms : list ndmat)
      (p q : nat) :
  Forall2 (transposed_induced A) rows ms ->
  sumZ (map (fun m => m_at m p q) ms)
  = sumZ (map (fun s => csr_get A (nth q s 0%nat) (nth p s 0%nat)) rows).
Proof.
  induction 1 as [|s m rows ms (_ & _ & Hm) _ IH]; [reflexivity|].
  cbn [map]. change (sumZ (?x :: ?l)) with (x + sumZ l). now rewrite Hm, IH.
Qed.


Section BidirectionalEdges.

Variable flagser_count : csr -> count_options -> flagser_out.


End BidirectionalEdges.





(* ------------------------------------------------------------------ *)
(** ** The older variants *)










Section LibraryDrive.

Variable flagser_count : csr -> count_options -> flagser_out.
Variable bin_center : Z -> Z -> Z -> Z -> Z.





End LibraryDrive.

(** The older [bedge_counts] sums the same transposed blocks, for every
    dimension with at least one simplex, the vertices included. *)
Lemma library_bedge_counts_transposed (adj : csr) (width : nat)
      (s : list nat) (rows : list (list nat)) :
  Forall (nodes_of adj) (s :: rows) ->
  exists m,
    Library.count_bedges (toarray adj) (Arr2 width (s :: rows)) = Ok m
    /\ forall p q,
         m_at m p q
         = sumZ (map (fun s => csr_get adj (nth q s 0%nat) (nth p s 0%nat))
                     (s :: rows)).
Proof.
  intros Hall. unfold Library.count_bedges.
  destruct (map_result_Forall2 (subset_adj (toarray adj))
                               (transposed_induced adj) (s :: rows))
    as (ms & Hms & HF).
  { eapply Forall_impl; [|exact Hall]. intros x Hx.
    now apply subset_adj_transposed. }
  rewrite Hms. cbn [rbind].
  inversion HF as [|? m0 ? ms' Hsm HF']; subst.
  exists (fold_left mat_add ms' m0). split; [reflexivity|].
  intros p q. destruct Hsm as (_ & _ & Hm).
  rewrite fold_mat_add_at, Hm. cbn [map].
  change (sumZ (?x :: ?l)) with (x + sumZ l).
  now rewrite (sum_transposed adj rows ms' p q HF').
Qed.

(* ------------------------------------------------------------------ *)
(** * Further properties

    ** Thresholds and thresholding *)

(** X1. [filtration_weights] lists every stored weight of the matrix
    exactly once and nothing else, in strictly increasing order under
    "distance" and in strictly decreasing order under "strength". *)
Theorem filtration_weights_sorted_distinct (A : csr) :
  (exists ws, filtration_weights A "distance" = Ok ws
              /\ StronglySorted Z.lt ws
              /\ forall w, In w ws <-> In w (csr_data A))
  /\ (exists ws, filtration_weights A "strength" = Ok ws
                 /\ StronglySorted Z.gt ws
                 /\ forall w, In w ws <-> In w (csr_data A)).
Proof.
  split.
  - exists (np_unique (csr_data A)). split; [reflexivity|].
    split; [apply np_unique_sorted | intros w; apply np_unique_In].
  - exists (rev (np_unique (csr_data A))). split; [reflexivity|].
    split; [apply sorted_rev, np_unique_sorted|].
    intros w. rewrite <- in_rev. apply np_unique_In.
Qed.

Lemma filter_filter_and {A : Type} (p q : A -> bool) (l : list A) :
  filter q (filter p l) = filter (fun x => p x && q x) l.
Proof.
  induction l as [|x l IH]; [reflexivity|]. cbn [filter].
  destruct (p x); cbn [filter andb]; [|exact IH].
  destruct (q x); [f_equal|]; exact IH.
Qed.

(** The edges whose weight lies in the band from [lo] to [hi], as
    float64 data. *)
Definition band (A : csr) (lo hi : Z) : csr :=
  mk_matrix (csr_shape A)
            (filter (fun e => (lo <=? e_val e) && (e_val e <=? hi)) (edges A))
            np_float64.

(** X2. On weights and thresholds that are float64 numbers as they are,
    a lower threshold under "strength" and an upper threshold under
    "distance" can be applied in either order: both orders leave
    exactly the edges whose weight lies between the two thresholds, in
    storage order and with their weights. *)
Theorem at_weight_edges_band (A : csr) (lo hi : Z) :
  in_int64 lo -> in_int64 hi ->
  exact_weights A -> is_float64 lo -> is_float64 hi ->
  rbind (at_weight_edges A lo "strength")
        (fun B => at_weight_edges B hi "distance")
  = Ok (band A lo hi)
  /\ rbind (at_weight_edges A hi "distance")
           (fun B => at_weight_edges B lo "strength")
     = Ok (band A lo hi).
Proof.
  intros _ _ Hex Hlo Hhi.
  assert (Hcmp : forall dt cmp t e,
             In e (edges A) -> is_float64 t ->
             compare_with dt cmp (e_val e) t = cmp (e_val e) t).
  { intros dt cmp t e He Ht. apply compare_with_exact; [|now intros _].
    exact (exact_weights_In A e Hex He). }
  assert (Hsame : forall p, map to_float64 (filter p (edges A))
                            = filter p (edges A)).
  { intros p. apply map_to_float64_exact. now apply exact_weights_edges. }
  split.
  - rewrite at_weight_edges_strength. cbn [rbind].
    rewrite at_weight_edges_distance. cbn [csr_shape csr_dtype].
    rewrite edges_to_float64, filter_map_swap, map_to_float64_idem.
    rewrite filter_filter_and, Hsame. unfold band.
    f_equal. f_equal. apply filter_ext_In. intros e He.
    change (e_val (to_float64 e)) with (float64 (e_val e)).
    rewrite (exact_weights_In A e Hex He), !Hcmp by assumption.
    now rewrite Z.geb_leb.
  - rewrite at_weight_edges_distance. cbn [rbind].
    rewrite at_weight_edges_strength. cbn [csr_shape csr_dtype].
    rewrite edges_to_float64, filter_map_swap, map_to_float64_idem.
    rewrite filter_filter_and, Hsame. unfold band.
    f_equal. f_equal. apply filter_ext_In. intros e He.
    change (e_val (to_float64 e)) with (float64 (e_val e)).
    rewrite (exact_weights_In A e Hex He), !Hcmp by assumption.
    rewrite Z.geb_leb. apply andb_comm.
Qed.

Lemma at_weight_edges_band_witness :
  rbind (at_weight_edges two_edges 1 "strength")
        (fun B => at_weight_edges B 5 "distance")
  = Ok (mk_matrix (3, 3)%nat [stored 0 1 1; stored 0 2 5] np_float64)
  /\ rbind (at_weight_edges two_edges 5 "distance")
           (fun B => at_weight_edges B 1 "strength")
     = Ok (mk_matrix (3, 3)%nat [stored 0 1 1; stored 0 2 5] np_float64).
Proof.
  apply (at_weight_edges_band two_edges 1 5).
  - unfold in_int64. lia.
  - unfold in_int64. lia.
  - repeat constructor.
  - reflexivity.
  - reflexivity.
Defined.

Lemma sorted_lt_bounds (l : list Z) (x : Z) :
  StronglySorted Z.lt l -> In x l -> hd 0 l <= x <= last l 0.
Proof.
  intros Hs. revert x.
  induction Hs as [|z l Hs IH Hz]; intros x Hin; [contradiction|].
  rewrite Forall_forall in Hz. cbn [hd]. destruct Hin as [<-|Hin].
  - split; [lia|]. destruct l as [|y l']; [cbn; lia|].
    change (z <= last (y :: l') 0).
    assert (Hy : In y (y :: l')) by now left.
    specialize (IH y Hy). specialize (Hz y Hy). cbn [hd] in IH. lia.
  - specialize (IH x Hin). specialize (Hz x Hin).
    destruct l as [|y l']; [contradiction|].
    split; [lia|]. change (x <= last (y :: l') 0). lia.
Qed.

Lemma last_rev_hd (l : list Z) : last (rev l) 0 = hd 0 l.
Proof.
  destruct l as [|x l]; [reflexivity|]. cbn [rev hd]. apply last_last.
Qed.

Lemma hd_rev_last (l : list Z) : hd 0 (rev l) = last l 0.
Proof.
  rewrite <- (rev_involutive l) at 2. now rewrite last_rev_hd.
Qed.

Lemma edge_weight_stored (A : csr) (e : entry) :
  In e (edges A) -> In (e_val e) (np_unique (csr_data A)).
Proof.
  intros He. apply np_unique_In. unfold csr_data. apply in_map.
  unfold edges in He. now apply filter_In in He.
Qed.

(** Every edge of a matrix, as float64 data. *)
Definition all_edges (A : csr) : csr :=
  mk_matrix (csr_shape A) (map to_float64 (edges A)) np_float64.

(** The thresholds that [filtration_weights] returns, the least
    restrictive last: at the last one thresholding keeps every edge. *)
Lemma last_threshold_keeps_all (A : csr) (m : string) (ws : list Z) :
  filtration_weights A m = Ok ws ->
  at_weight_edges A (last ws 0) m = Ok (all_edges A).
Proof.
  unfold filtration_weights. intros Hws.
  destruct (m =? "strength")%string eqn:Hs.
  - apply String.eqb_eq in Hs. subst m. injection Hws as <-.
    rewrite at_weight_edges_strength, last_rev_hd.
    unfold all_edges. f_equal. f_equal. f_equal.
    apply filter_keeps_all. intros e He.
    apply (meets_satisfies (csr_dtype A) "strength"). unfold meets. cbn.
    apply Z.geb_le.
    apply (sorted_lt_bounds _ _ (np_unique_sorted _) (edge_weight_stored _ _ He)).
  - destruct (m =? "distance")%string eqn:Hd; [|discriminate].
    apply String.eqb_eq in Hd. subst m. injection Hws as <-.
    rewrite at_weight_edges_distance.
    unfold all_edges. f_equal. f_equal. f_equal.
    apply filter_keeps_all. intros e He.
    apply (meets_satisfies (csr_dtype A) "distance"). unfold meets. cbn.
    apply Z.leb_le.
    apply (sorted_lt_bounds _ _ (np_unique_sorted _) (edge_weight_stored _ _ He)).
Qed.

(** X3. The filtration runs between two extremes.  Thresholding at the
    last weight that [filtration_weights] returns keeps every edge of
    the matrix, its stored nonzero entries, with their weights converted
    to float64; thresholding at the first one keeps exactly the edges
    whose weight is that extreme weight (a matrix of float64 data
    holding float64 numbers), so none when it is a stored zero. *)
Theorem filtration_extremes (A : csr) (m : string) (ws : list Z) :
  filtration_weights A m = Ok ws ->
  (csr_dtype A = np_float64 -> exact_weights A) ->
  at_weight_edges A (last ws 0) m = Ok (all_edges A)
  /\ at_weight_edges A (hd 0 ws) m
     = Ok (mk_matrix (csr_shape A)
                     (map to_float64
                          (filter (fun e => e_val e =? hd 0 ws) (edges A)))
                     np_float64).
Proof.
  intros Hws Hex. split; [now apply last_threshold_keeps_all|].
  assert (Hcmp : forall cmp e t,
             In e (edges A) -> In t (csr_data A) ->
             compare_with (csr_dtype A) cmp (e_val e) t = cmp (e_val e) t).
  { intros cmp e t He Ht. destruct (csr_dtype A) eqn:Hdt; try reflexivity.
    specialize (Hex eq_refl). apply compare_with_exact.
    - exact (exact_weights_In A e Hex He).
    - intros _. unfold exact_weights in Hex. rewrite Forall_forall in Hex.
      now apply Hex. }
  assert (Hin : forall l : list Z, l <> [] -> In (hd 0 l) l /\ In (last l 0) l).
  { intros l Hl. destruct l as [|x l]; [congruence|]. split; [now left|].
    destruct (exists_last (l := x :: l) ltac:(discriminate)) as (l' & y & E).
    rewrite E, last_last. apply in_or_app. right. now left. }
  unfold filtration_weights in Hws.
  assert (Hcases : edges A = [] \/ np_unique (csr_data A) <> []).
  { destruct (edges A) as [|e0 es] eqn:Hedges; [now left | right].
    intros E. assert (He0 : In e0 (edges A)) by (rewrite Hedges; now left).
    pose proof (edge_weight_stored A e0 He0) as H. rewrite E in H. contradiction. }
  destruct Hcases as [Hedges | Hne].
  { destruct (m =? "strength")%string eqn:Hs.
    - apply String.eqb_eq in Hs. subst m.
      rewrite at_weight_edges_strength, Hedges. reflexivity.
    - destruct (m =? "distance")%string eqn:Hd; [|discriminate].
      apply String.eqb_eq in Hd. subst m.
      rewrite at_weight_edges_distance, Hedges. reflexivity. }
  destruct (m =? "strength")%string eqn:Hs.
  - apply String.eqb_eq in Hs. subst m. injection Hws as <-.
    rewrite at_weight_edges_strength, hd_rev_last.
    f_equal. f_equal. f_equal. apply filter_ext_In. intros e He.
    rewrite Hcmp; [|exact He|apply np_unique_In, (proj2 (Hin _ Hne))].
    pose proof (sorted_lt_bounds _ _ (np_unique_sorted _)
                  (edge_weight_stored _ _ He)) as Hb.
    destruct (Z.eqb_spec (e_val e) (last (np_unique (csr_data A)) 0));
      destruct (Z.geb_spec (e_val e) (last (np_unique (csr_data A)) 0));
      try reflexivity; lia.
  - destruct (m =? "distance")%string eqn:Hd; [|discriminate].
    apply String.eqb_eq in Hd. subst m. injection Hws as <-.
    rewrite at_weight_edges_distance.
    f_equal. f_equal. f_equal. apply filter_ext_In. intros e He.
    rewrite Hcmp; [|exact He|apply np_unique_In, (proj1 (Hin _ Hne))].
    pose proof (sorted_lt_bounds _ _ (np_unique_sorted _)
                  (edge_weight_stored _ _ He)) as Hb.
    destruct (Z.eqb_spec (e_val e) (hd 0 (np_unique (csr_data A))));
      destruct (Z.leb_spec (e_val e) (hd 0 (np_unique (csr_data A))));
      try reflexivity; lia.
Qed.

Lemma filtration_extremes_witness :
  at_weight_edges two_weights 1 "strength" = Ok (all_edges two_weights)
  /\ at_weight_edges two_weights 5 "strength"
     = Ok (mk_matrix (2, 2)%nat [stored 0 1 5] np_float64).
Proof.
  apply (filtration_extremes two_weights "strength" [5; 1] eq_refl).
  discriminate.
Defined.

(* ------------------------------------------------------------------ *)
(** ** Symmetrisation and the matrix handed to the counting solver *)

Lemma flat_map_ext_In {A B : Type} (f g : A -> list B) (l : list A) :
  (forall x, In x l -> f x = g x) -> flat_map f l = flat_map g l.
Proof.
  induction l as [|x l IH]; intros H; [reflexivity|]. cbn [flat_map].
  rewrite (H x) by now left. f_equal. apply IH. intros y Hy. apply H. now right.
Qed.

Lemma csr_of_fun_ext (dt : dtype) (sh : nat * nat) (f g : nat -> nat -> Z) :
  (forall i j, (i < fst sh)%nat -> (j < snd sh)%nat -> f i j = g i j) ->
  csr_of_fun dt sh f = csr_of_fun dt sh g.
Proof.
  intros H. unfold csr_of_fun. f_equal. apply flat_map_ext_In.
  intros [i j] Hp. cbn [fst snd].
  unfold positions in Hp. apply in_flat_map in Hp.
  destruct Hp as (i' & Hi & Hp). apply in_map_iff in Hp.
  destruct Hp as (j' & E & Hj). injection E as <- <-.
  apply in_seq in Hi, Hj. now rewrite H by lia.
Qed.

Lemma triu_of_fun (dt : dtype) (sh : nat * nat) (f : nat -> nat -> Z) :
  triu (csr_of_fun dt sh f)
  = csr_of_fun dt sh (fun i j => if (i <=? j)%nat then f i j else 0).
Proof.
  unfold triu, csr_of_fun. cbn [csr_shape csr_entries csr_dtype]. f_equal.
  induction (positions sh) as [|[i j] ps IH]; [reflexivity|].
  cbn [flat_map fst snd]. rewrite filter_app. f_equal; [|exact IH].
  destruct (i <=? j)%nat eqn:E.
  - destruct (nonzero (f i j)); [|reflexivity].
    cbn [filter]. unfold e_row, e_col. cbn [fst snd]. now rewrite E.
  - change (nonzero 0) with false. cbv iota.
    destruct (nonzero (f i j)); [|reflexivity].
    cbn [filter]. unfold e_row, e_col. cbn [fst snd]. now rewrite E.
Qed.

Lemma count_nonzero_zero (l : list Z) :
  count_nonzero l = 0%nat <-> Forall (fun v => v = 0) l.
Proof.
  unfold count_nonzero. induction l as [|v l IH].
  - split; [constructor | reflexivity].
  - cbn [filter]. unfold nonzero at 1. destruct (Z.eqb_spec v 0) as [->|Hv];
      cbn [negb List.length].
    + rewrite IH. split; [now constructor | now inversion 1].
    + split; [discriminate | inversion 1; contradiction].
Qed.

Lemma zero_diagonal (A : csr) (i : nat) :
  count_nonzero (diagonal A) = 0%nat ->
  (i < fst (csr_shape A))%nat -> (i < snd (csr_shape A))%nat ->
  csr_get A i i = 0.
Proof.
  intros H Hr Hc. apply count_nonzero_zero in H. unfold diagonal in H.
  rewrite Forall_forall in H. apply H. apply in_map_iff. exists i.
  split; [reflexivity|]. apply in_seq. lia.
Qed.

Lemma zero_diagonal_of_fun (dt : dtype) (sh : nat * nat)
      (f : nat -> nat -> Z) :
  (forall i, f i i = 0) ->
  count_nonzero (diagonal (csr_of_fun dt sh f)) = 0%nat.
Proof.
  intros H. apply count_nonzero_zero. unfold diagonal.
  apply Forall_forall. intros v Hv. apply in_map_iff in Hv.
  destruct Hv as (i & <- & _). rewrite csr_get_of_fun, H.
  now destruct ((i <? fst sh) && (i <? snd sh))%nat.
Qed.

(** A matrix in canonical format stores each position at most once. *)
Definition canonical (A : csr) : Prop := NoDup (map fst (csr_entries A)).

Lemma at_pos_spec (i j : nat) (e : entry) :
  at_pos i j e = true <-> fst e = (i, j).
Proof.
  destruct e as [[r c] v]. unfold at_pos, e_row, e_col. cbn [fst snd].
  rewrite andb_true_iff, !Nat.eqb_eq. split.
  - now intros [-> ->].
  - intros E. now injection E.
Qed.

Lemma canonical_single (es : list entry) (i j : nat) (e : entry) :
  NoDup (map fst (e :: es)) -> at_pos i j e = true ->
  filter (at_pos i j) es = [].
Proof.
  intros Hnd He. cbn [map] in Hnd. apply NoDup_cons_iff in Hnd.
  destruct Hnd as [Hnot _]. apply at_pos_spec in He. rewrite He in Hnot.
  clear He. induction es as [|e' es IH]; [reflexivity|]. cbn [filter].
  destruct (at_pos i j e') eqn:E'.
  - exfalso. apply Hnot. apply at_pos_spec in E'. now left.
  - apply IH. intros Hin. apply Hnot. now right.
Qed.

Lemma csr_get_canonical_truth (A : csr) (i j : nat) :
  canonical A -> csr_get (astype_bool A) i j = truth (csr_get A i j).
Proof.
  unfold canonical, csr_get, astype_bool. cbn [csr_entries].
  induction (csr_entries A) as [|e es IH]; intros Hnd; [reflexivity|].
  cbn [map filter].
  assert (Hpos : at_pos i j (e_row e, e_col e, truth (e_val e)) = at_pos i j e)
    by reflexivity.
  rewrite Hpos. destruct (at_pos i j e) eqn:E.
  - pose proof (canonical_single es i j e Hnd E) as Hnone.
    assert (Hnone' : filter (at_pos i j)
                       (map (fun e => (e_row e, e_col e, truth (e_val e))) es) = []).
    { clear -Hnone. induction es as [|e' es IH]; [reflexivity|].
      cbn [map filter] in *.
      change (at_pos i j (e_row e', e_col e', truth (e_val e')))
        with (at_pos i j e').
      destruct (at_pos i j e'); [discriminate|]. now apply IH. }
    rewrite Hnone, Hnone'. cbn [map sumZ fold_right e_val snd].
    now rewrite !Z.add_0_r.
  - apply IH. cbn [map] in Hnd. now inversion Hnd.
Qed.

Lemma shape_eqb_transpose (A : csr) :
  is_square A -> shape_eqb (csr_shape A) (csr_shape (transpose A)) = true.
Proof.
  unfold is_square, shape_eqb, transpose. cbn [csr_shape fst snd].
  intros ->. now rewrite !Nat.eqb_refl.
Qed.

Lemma promote_bool_r (dt : dtype) : promote dt np_bool = dt.
Proof. now destruct dt. Qed.

(** What [rc_submatrix] computes on a square matrix. *)
Lemma rc_submatrix_run (A : csr) :
  is_square A ->
  outcome (rc_submatrix A)
  = Ok (csr_of_fun (csr_dtype A) (csr_shape A)
          (fun i j => csr_get A i j
                      * (csr_get (astype_bool A) i j
                         * csr_get (astype_bool A) j i))).
Proof.
  intros Hsq. unfold rc_submatrix, csr_multiply.
  change (csr_shape (astype_bool A)) with (csr_shape A).
  change (csr_shape (transpose (astype_bool A)))
    with (csr_shape (transpose A)).
  change (csr_dtype (transpose (astype_bool A))) with np_bool.
  change (csr_dtype (astype_bool A)) with np_bool.
  change (promote np_bool np_bool) with np_bool.
  rewrite (shape_eqb_transpose A Hsq).
  unfold when, emit, lift, tret, outcome.
  assert (Hsh : shape_eqb (csr_shape A) (csr_shape A) = true).
  { unfold shape_eqb. now rewrite !Nat.eqb_refl. }
  destruct (negb (count_nonzero (diagonal A) =? 0)%nat);
    cbn [tbind snd csr_of_fun csr_shape csr_dtype]; rewrite Hsh; cbn [snd];
    rewrite promote_bool_r;
    f_equal; apply csr_of_fun_ext; intros i j Hi Hj;
    rewrite csr_get_of_fun; cbn [fst snd];
    apply Nat.ltb_lt in Hi, Hj; rewrite Hi, Hj; cbn [andb];
    now rewrite csr_get_transpose.
Qed.

(** X4. On a square matrix in canonical format [rc_submatrix] keeps the
    weight of an entry exactly when the entry and its opposite are both
    nonzero, and leaves 0 everywhere else; the shape is kept, and the
    result is symmetric in its support: it is nonzero at (i, j) exactly
    when it is nonzero at (j, i). *)
Theorem rc_submatrix_keeps_reciprocal (A : csr) :
  canonical A ->
  is_square A ->
  exists R,
    outcome (rc_submatrix A) = Ok R
    /\ csr_shape R = csr_shape A
    /\ (forall i j,
          (i < fst (csr_shape A))%nat -> (j < fst (csr_shape A))%nat ->
          csr_get R i j
          = if nonzero (csr_get A i j) && nonzero (csr_get A j i)
            then csr_get A i j else 0)
    /\ (forall i j,
          (i < fst (csr_shape A))%nat -> (j < fst (csr_shape A))%nat ->
          nonzero (csr_get R i j) = nonzero (csr_get R j i)).
Proof.
  intros Hcan Hsq.
  assert (Hget : forall i j,
             (i < fst (csr_shape A))%nat -> (j < fst (csr_shape A))%nat ->
             csr_get (csr_of_fun (csr_dtype A) (csr_shape A)
                        (fun i j => csr_get A i j
                                    * (csr_get (astype_bool A) i j
                                       * csr_get (astype_bool A) j i))) i j
             = if nonzero (csr_get A i j) && nonzero (csr_get A j i)
               then csr_get A i j else 0).
  { intros i j Hi Hj. rewrite csr_get_of_fun. cbn [fst snd].
    unfold is_square in Hsq. rewrite <- Hsq.
    apply Nat.ltb_lt in Hi, Hj. rewrite Hi, Hj. cbn [andb].
    rewrite !(csr_get_canonical_truth A) by exact Hcan.
    unfold truth. destruct (nonzero (csr_get A i j));
      destruct (nonzero (csr_get A j i)); cbn [andb]; lia. }
  eexists. split; [apply (rc_submatrix_run A Hsq)|].
  split; [reflexivity|]. split; [exact Hget|].
  intros i j Hi Hj. rewrite (Hget i j Hi Hj), (Hget j i Hj Hi).
  destruct (nonzero (csr_get A i j)) eqn:E1;
    destruct (nonzero (csr_get A j i)) eqn:E2; cbn [andb];
    rewrite ?E1, ?E2; reflexivity.
Qed.

(** A reciprocal pair with different weights, and a single edge. *)
Definition reciprocal_pair : csr :=
  mk_csr (3, 3)%nat [stored 0 1 2; stored 1 0 7; stored 1 2 4].

Lemma canonical_reciprocal_pair : canonical reciprocal_pair.
Proof.
  unfold canonical, reciprocal_pair, stored. cbn [csr_entries map fst].
  repeat constructor; cbn [In]; intros H;
    repeat (destruct H as [H | H]; [discriminate|]); exact H.
Qed.

Lemma rc_submatrix_keeps_reciprocal_witness :
  exists R,
    outcome (rc_submatrix reciprocal_pair) = Ok R
    /\ csr_get R 0 1 = 2 /\ csr_get R 1 0 = 7 /\ csr_get R 1 2 = 0.
Proof.
  destruct (rc_submatrix_keeps_reciprocal reciprocal_pair
              canonical_reciprocal_pair eq_refl) as (R & HR & _ & Hget & _).
  exists R. split; [exact HR|].
  split; [|split].
  - apply (Hget 0%nat 1%nat); cbn; lia.
  - apply (Hget 1%nat 0%nat); cbn; lia.
  - apply (Hget 1%nat 2%nat); cbn; lia.
Defined.

(** What [underlying_undirected_matrix] computes on a square matrix: the
    sum is taken in the dtype of the matrix. *)
Lemma underlying_undirected_matrix_run (A : csr) :
  is_square A ->
  outcome (underlying_undirected_matrix A)
  = Ok (csr_of_fun np_bool (csr_shape A)
          (fun i j => truth (add_in (csr_dtype A) (csr_get A i j)
                                    (csr_get A j i)))).
Proof.
  intros Hsq. unfold underlying_undirected_matrix, csr_add.
  rewrite (shape_eqb_transpose A Hsq).
  change (csr_dtype (transpose A)) with (csr_dtype A). rewrite promote_same.
  unfold when, emit, lift, tret, outcome.
  destruct (negb (count_nonzero (diagonal A) =? 0)%nat); cbn [tbind snd];
    rewrite astype_bool_of_fun; f_equal; apply csr_of_fun_ext; intros i j _ _;
    now rewrite csr_get_transpose.
Qed.

(** X5. On a square matrix of booleans, int64 or float64 numbers
    [underlying_undirected_matrix] returns a symmetric matrix of booleans
    of the same shape, and when the input stores no position twice and
    none of its entries is negative (the entries being below 2^63, as
    int64 numbers are, so that the sum of two of them does not wrap
    around to zero) its entry at (i, j) is 1 exactly when the input has
    a nonzero entry at (i, j) or at (j, i). *)
Theorem underlying_undirected_matrix_symmetric (A : csr) :
  is_square A ->
  exists B,
    outcome (underlying_undirected_matrix A) = Ok B
    /\ csr_shape B = csr_shape A
    /\ csr_dtype B = np_bool
    /\ (forall i j, csr_get B i j = csr_get B j i)
    /\ (forall i j, csr_get B i j = 0 \/ csr_get B i j = 1)
    /\ (canonical A ->
        (forall r c, 0 <= csr_get A r c < 2 ^ 63) ->
        forall i j,
          (i < fst (csr_shape A))%nat -> (j < fst (csr_shape A))%nat ->
          (csr_get B i j = 1 <-> csr_get A i j <> 0 \/ csr_get A j i <> 0)).
Proof.
  intros Hsq. eexists. split; [apply (underlying_undirected_matrix_run A Hsq)|].
  split; [reflexivity|]. split; [reflexivity|]. unfold is_square in Hsq.
  split; [|split].
  - intros i j. rewrite !csr_get_of_fun. rewrite (andb_comm (j <? _)%nat).
    rewrite <- Hsq.
    assert (Hcomm : forall a b, add_in (csr_dtype A) a b
                                = add_in (csr_dtype A) b a).
    { intros a b. unfold add_in. now rewrite (Z.add_comm a b). }
    rewrite (Hcomm (csr_get A j i)). reflexivity.
  - intros i j. rewrite csr_get_of_fun. unfold truth.
    destruct ((i <? _) && (j <? _))%nat; [|now left].
    destruct (nonzero _); [now right | now left].
  - intros _ Hpos i j Hi Hj. rewrite csr_get_of_fun. rewrite <- Hsq.
    apply Nat.ltb_lt in Hi, Hj. rewrite Hi, Hj. cbn [andb].
    unfold truth. rewrite (add_in_nonneg _ _ _ (Hpos i j) (Hpos j i)).
    unfold nonzero. pose proof (Hpos i j). pose proof (Hpos j i).
    destruct (Z.eqb_spec (csr_get A i j + csr_get A j i) 0); cbn [negb];
      split; intros; try lia.
Qed.

Lemma underlying_undirected_matrix_symmetric_witness :
  exists B,
    outcome (underlying_undirected_matrix reciprocal_pair) = Ok B
    /\ csr_shape B = (3, 3)%nat
    /\ csr_dtype B = np_bool
    /\ (forall i j, csr_get B i j = csr_get B j i)
    /\ (forall i j, csr_get B i j = 0 \/ csr_get B i j = 1)
    /\ (csr_get B 1 2 = 1 <->
        csr_get reciprocal_pair 1 2 <> 0 \/ csr_get reciprocal_pair 2 1 <> 0).
Proof.
  destruct (underlying_undirected_matrix_symmetric reciprocal_pair eq_refl)
    as (B & HB & Hshape & Hdt & Hsym & Hbool & Hclosure).
  exists B. repeat (split; [assumption|]).
  apply (Hclosure canonical_reciprocal_pair).
  - intros r c.
    destruct r as [|[|[|r]]]; destruct c as [|[|[|c]]]; vm_compute;
      split; congruence.
  - cbn; lia.
  - cbn; lia.
Defined.

(** Without a warning when the diagonal is zero. *)
Lemma underlying_undirected_matrix_quiet (A : csr) :
  count_nonzero (diagonal A) = 0%nat -> is_square A ->
  underlying_undirected_matrix A
  = ([], Ok (csr_of_fun np_bool (csr_shape A)
               (fun i j => truth (add_in (csr_dtype A) (csr_get A i j)
                                         (csr_get A j i))))).
Proof.
  intros Hdiag Hsq. unfold underlying_undirected_matrix, csr_add.
  rewrite Hdiag, (shape_eqb_transpose A Hsq). cbn [Nat.eqb negb when].
  change (csr_dtype (transpose A)) with (csr_dtype A). rewrite promote_same.
  unfold tret, lift. cbn [tbind app]. rewrite astype_bool_of_fun.
  f_equal. f_equal. apply csr_of_fun_ext. intros i j _ _.
  now rewrite csr_get_transpose.
Qed.

(** The strict upper triangle of the support of [A + A.T], the sum being
    taken in the dtype of [A]; the solver receives it as a matrix of
    int64 numbers. *)
Definition upper_support (A : csr) : csr :=
  csr_of_fun np_int64 (csr_shape A)
    (fun i j => if (i <? j)%nat
                   && nonzero (add_in (csr_dtype A) (csr_get A i j)
                                      (csr_get A j i))
                then 1 else 0).

(** Some stored entry at (i, j) is nonzero. *)
Definition has_edge (A : csr) (i j : nat) : bool :=
  existsb (at_pos i j) (edges A).

(** The strict upper triangle of the symmetric closure of the edges. *)
Definition upper_closure (A : csr) : csr :=
  csr_of_fun np_int64 (csr_shape A)
    (fun i j => if (i <? j)%nat && (has_edge A i j || has_edge A j i)
                then 1 else 0).

Lemma astype_bool_counts (A : csr) (i j : nat) :
  0 <= csr_get (astype_bool A) i j
  /\ nonzero (csr_get (astype_bool A) i j) = has_edge A i j.
Proof.
  unfold csr_get, astype_bool, has_edge, edges. cbn [csr_entries].
  induction (csr_entries A) as [|e es [IH1 IH2]].
  - split; [cbn; lia | reflexivity].
  - cbn [map filter].
    change (at_pos i j (e_row e, e_col e, truth (e_val e))) with (at_pos i j e).
    destruct (at_pos i j e) eqn:E; destruct (nonzero (e_val e)) eqn:NZ.
    + cbn [map existsb]. rewrite E. cbn [orb].
      change (sumZ (?x :: ?l)) with (x + sumZ l).
      change (e_val (e_row e, e_col e, truth (e_val e))) with (truth (e_val e)).
      set (s := sumZ _) in *. unfold truth. rewrite NZ. split; [lia|].
      unfold nonzero. apply negb_true_iff, Z.eqb_neq. lia.
    + cbn [map].
      change (sumZ (?x :: ?l)) with (x + sumZ l).
      change (e_val (e_row e, e_col e, truth (e_val e))) with (truth (e_val e)).
      set (s := sumZ _) in *. unfold truth. rewrite NZ, Z.add_0_l.
      split; assumption.
    + cbn [existsb]. rewrite E. cbn [orb]. split; assumption.
    + split; assumption.
Qed.

Lemma when_quiet (b : bool) (m : traced unit) : b = false -> when b m = tret tt.
Proof. now intros ->. Qed.

Lemma astype_int_of_fun (dt : dtype) (sh : nat * nat) (f : nat -> nat -> Z) :
  astype_int (csr_of_fun dt sh f) = csr_of_fun np_int64 sh f.
Proof. reflexivity. Qed.

Section CallsOfCounting.

Variable flagser_count : csr -> count_options -> flagser_out.

(** [_flagser_counts] on a matrix of zeros and ones with zero diagonal:
    the matrix goes to the solver as a matrix of int64 numbers with the
    same entries, without warning. *)
Lemma flagser_counts_of_fun (dt : dtype) (sh : nat * nat)
      (f : nat -> nat -> Z)
      (max_simplices participation listing : bool) (threads max_dim : Z) :
  (forall i j, f i j = 0 \/ f i j = 1) -> (forall i, f i i = 0) ->
  let M := csr_of_fun np_int64 sh f in
  let opts := mk_count_options (Some max_simplices) (Some participation)
                               (Some listing) (Some threads) (Some max_dim)
                               None in
  let out := flagser_count M opts in
  _flagser_counts flagser_count (csr_of_fun dt sh f) max_simplices
                  participation listing threads max_dim
  = ([CallFlagserCount M opts],
     Ok (mk_counts (euler out) (cell_counts out) (max_cell_counts out)
                   (simplices out)
                   (option_map
                      (map (pad_row match max_cell_counts out with
                                    | None => List.length (cell_counts out)
                                    | Some mc => List.length mc
                                    end))
                      (contain_counts out)))).
Proof.
  intros Hbool Hdiag M opts out. unfold _flagser_counts.
  assert (HM : astype_int (astype_bool (csr_of_fun dt sh f)) = M).
  { unfold M. rewrite astype_bool_of_fun, astype_int_of_fun.
    apply csr_of_fun_ext.
    intros i j _ _. unfold truth, nonzero.
    destruct (Hbool i j) as [-> | ->]; reflexivity. }
  rewrite HM. unfold M at 1.
  rewrite (zero_diagonal_of_fun np_int64 sh f Hdiag).
  reflexivity.
Qed.

Let simplex_options (max_simplices : bool) (threads max_dim : Z) : count_options :=
  mk_count_options (Some max_simplices) (Some false) (Some false)
                   (Some threads) (Some max_dim) None.

(** X6. [simplex_counts] with [simplex_type='undirected'] on a square
    matrix of booleans, int64 or float64 numbers that stores no position
    twice and has a zero diagonal calls the solver once, without warning,
    on the 0/1 matrix that has a 1 at (i, j) exactly when i < j and
    [adj[i, j] + adj[j, i]], computed in the dtype of the matrix (int64
    sums wrap around, float64 sums are rounded), is not zero, and
    returns the solver's cell counts (its maximal cell counts with
    [max_simplices]). *)
Theorem simplex_counts_undirected_call
        (adj : csr) (max_simplices : bool) (threads max_dim : Z) :
  canonical adj ->
  count_nonzero (diagonal adj) = 0%nat ->
  is_square adj ->
  let opts := simplex_options max_simplices threads max_dim in
  let out := flagser_count (upper_support adj) opts in
  simplex_counts flagser_count adj max_simplices threads max_dim "undirected"
  = ([CallFlagserCount (upper_support adj) opts],
     Ok (if max_simplices then max_cell_counts out
         else Some (cell_counts out))).
Proof.
  intros _ Hdiag Hsq opts out. unfold simplex_counts.
  rewrite Hdiag. pose proof Hsq as Hsq'. unfold is_square in Hsq'.
  rewrite <- Hsq', !Nat.eqb_refl. unfold py_assert.
  rewrite String.eqb_refl.
  rewrite (underlying_undirected_matrix_quiet adj Hdiag Hsq).
  unfold tret. cbn [tbind app]. rewrite triu_of_fun.
  set (g := fun i j : nat =>
              if (i <? j)%nat
                 && nonzero (add_in (csr_dtype adj) (csr_get adj i j)
                                    (csr_get adj j i))
              then 1 else 0).
  assert (Hzero : add_in (csr_dtype adj) 0 0 = 0).
  { now destruct (csr_dtype adj). }
  assert (HM : csr_of_fun np_bool (csr_shape adj)
                 (fun i j => if (i <=? j)%nat
                             then truth (add_in (csr_dtype adj)
                                                (csr_get adj i j)
                                                (csr_get adj j i))
                             else 0)
               = csr_of_fun np_bool (csr_shape adj) g).
  { apply csr_of_fun_ext. intros i j Hi Hj. unfold g.
    destruct (Nat.leb_spec i j) as [Hle|Hgt];
      destruct (Nat.ltb_spec i j) as [Hlt|Hge]; cbn [andb];
      try reflexivity; try lia.
    assert (i = j) by lia. subst j.
    rewrite (zero_diagonal adj i Hdiag) by lia. now rewrite Hzero. }
  rewrite HM.
  rewrite flagser_counts_of_fun.
  - fold (upper_support adj). fold (simplex_options max_simplices threads max_dim).
    fold opts. fold out. now destruct max_simplices.
  - intros i j. unfold g. destruct (_ && _); [now right | now left].
  - intros i. unfold g. now rewrite Nat.ltb_irrefl.
Qed.

Let participation_options (max_simplices : bool) (threads max_dim : Z)
  : count_options :=
  mk_count_options (Some max_simplices) (Some true) (Some false)
                   (Some threads) (Some max_dim) None.

(** The run of [node_participation] on the underlying undirected
    graph. *)
Lemma node_participation_undirected_run
      (adj : csr) (max_simplices : bool) (threads max_dim : Z) :
  count_nonzero (diagonal (astype_bool adj)) = 0%nat ->
  is_square adj ->
  let opts := participation_options max_simplices threads max_dim in
  let out := flagser_count (upper_closure adj) opts in
  let width := match max_cell_counts out with
               | None => List.length (cell_counts out)
               | Some mc => List.length mc
               end in
  node_participation flagser_count adj max_simplices threads max_dim
                     "undirected"
  = ([CallFlagserCount (upper_closure adj) opts],
     Ok (option_map (map (pad_row width)) (contain_counts out))).
Proof.
  intros Hdiag Hsq opts out width. unfold node_participation.
  rewrite Hdiag. change (csr_shape (astype_bool adj)) with (csr_shape adj).
  pose proof Hsq as Hsq'. unfold is_square in Hsq'.
  rewrite <- Hsq', !Nat.eqb_refl. unfold py_assert.
  rewrite String.eqb_refl.
  assert (HsqB : is_square (astype_bool adj)) by exact Hsq.
  rewrite (underlying_undirected_matrix_quiet (astype_bool adj) Hdiag HsqB).
  unfold tret. cbn [tbind app]. rewrite triu_of_fun.
  change (csr_shape (astype_bool adj)) with (csr_shape adj).
  change (csr_dtype (astype_bool adj)) with np_bool.
  set (g := fun i j : nat =>
              if (i <? j)%nat && (has_edge adj i j || has_edge adj j i)
              then 1 else 0).
  assert (HM : csr_of_fun np_bool (csr_shape adj)
                 (fun i j => if (i <=? j)%nat
                             then truth (add_in np_bool
                                           (csr_get (astype_bool adj) i j)
                                           (csr_get (astype_bool adj) j i))
                             else 0)
               = csr_of_fun np_bool (csr_shape adj) g).
  { apply csr_of_fun_ext. intros i j Hi Hj. unfold g.
    destruct (astype_bool_counts adj i j) as [P1 N1].
    destruct (astype_bool_counts adj j i) as [P2 N2].
    rewrite <- N1, <- N2. cbn [add_in].
    destruct (Nat.leb_spec i j) as [Hle|Hgt];
      destruct (Nat.ltb_spec i j) as [Hlt|Hge]; cbn [andb];
      try reflexivity; try lia.
    - unfold truth at 1. rewrite nonzero_truth. unfold nonzero.
      destruct (Z.eqb_spec (csr_get (astype_bool adj) i j
                            + csr_get (astype_bool adj) j i) 0);
        destruct (Z.eqb_spec (csr_get (astype_bool adj) i j) 0);
        destruct (Z.eqb_spec (csr_get (astype_bool adj) j i) 0);
        cbn [negb orb]; try reflexivity; lia.
    - assert (i = j) by lia. subst j.
      rewrite (zero_diagonal (astype_bool adj) i Hdiag) by (cbn; lia).
      reflexivity. }
  rewrite HM.
  rewrite flagser_counts_of_fun.
  - reflexivity.
  - intros i j. unfold g. destruct (_ && _); [now right | now left].
  - intros i. unfold g. now rewrite Nat.ltb_irrefl.
Qed.

(** X7. [node_participation] casts the matrix to booleans before it
    symmetrises it.  With [simplex_type='undirected'], on a square
    matrix without nonzero stored diagonal entry, the solver is called
    once, without warning, on the 0/1 matrix that has a 1 at (i, j)
    exactly when i < j and the input has an edge from i to j or from j
    to i: opposite weights cannot cancel. *)
Theorem node_participation_undirected_call
        (adj : csr) (max_simplices : bool) (threads max_dim : Z) :
  count_nonzero (diagonal (astype_bool adj)) = 0%nat ->
  is_square adj ->
  events (node_participation flagser_count adj max_simplices threads max_dim
                             "undirected")
  = [CallFlagserCount (upper_closure adj)
                      (participation_options max_simplices threads max_dim)].
Proof.
  intros Hdiag Hsq.
  now rewrite (node_participation_undirected_run adj max_simplices threads
                 max_dim Hdiag Hsq).
Qed.

End CallsOfCounting.

Lemma canonical_opposite_weights : canonical opposite_weights.
Proof.
  unfold canonical, opposite_weights, stored. cbn [csr_entries map fst].
  repeat constructor; cbn [In]; intros H;
    repeat (destruct H as [H | H]; [discriminate|]); exact H.
Qed.

Lemma simplex_counts_undirected_call_witness :
  simplex_counts skeleton_count opposite_weights false 1 (-1) "undirected"
  = ([CallFlagserCount (upper_support opposite_weights) (counting_options 1)],
     Ok (Some (cell_counts (skeleton_count (upper_support opposite_weights)
                                           (counting_options 1))))).
Proof.
  exact (simplex_counts_undirected_call skeleton_count opposite_weights false
           1 (-1) canonical_opposite_weights eq_refl eq_refl).
Defined.

Lemma node_participation_undirected_call_witness :
  events (node_participation skeleton_count opposite_weights false 1 (-1)
                             "undirected")
  = [CallFlagserCount (mk_csr (2, 2)%nat [stored 0 1 1])
       (mk_count_options (Some false) (Some true) (Some false) (Some 1)
                         (Some (-1)) None)].
Proof.
  exact (node_participation_undirected_call skeleton_count opposite_weights
           false 1 (-1) eq_refl eq_refl).
Defined.

(* ------------------------------------------------------------------ *)
(** ** The filtration drive on matrices that the counter rejects *)

Lemma csr_get_eliminate_zeros (A : csr) (i j : nat) :
  csr_get (eliminate_zeros A) i j = csr_get A i j.
Proof.
  unfold csr_get, eliminate_zeros, edges. cbn [csr_entries].
  induction (csr_entries A) as [|e es IH]; [reflexivity|].
  cbn [filter]. destruct (nonzero (e_val e)) eqn:NZ; cbn [filter].
  - destruct (at_pos i j e); cbn [map]; [|exact IH].
    change (sumZ (?x :: ?l)) with (x + sumZ l). now rewrite IH.
  - destruct (at_pos i j e); cbn [map]; [|exact IH].
    change (sumZ (?x :: ?l)) with (x + sumZ l). rewrite IH.
    unfold nonzero in NZ. apply negb_false_iff, Z.eqb_eq in NZ. lia.
Qed.

Lemma diagonal_eliminate_zeros (A : csr) :
  diagonal (eliminate_zeros A) = diagonal A.
Proof.
  unfold diagonal. change (csr_shape (eliminate_zeros A)) with (csr_shape A).
  apply map_ext. intros i. apply csr_get_eliminate_zeros.
Qed.

Lemma rev_starts_with_last (ws : list Z) :
  ws <> [] -> exists rest, rev ws = last ws 0 :: rest.
Proof.
  intros Hne. destruct (exists_last Hne) as (l & a & ->).
  exists (rev l). now rewrite rev_app_distr, last_last.
Qed.

Lemma filtration_weights_nonempty (A : csr) (m : string) (ws : list Z) :
  csr_entries A <> [] -> filtration_weights A m = Ok ws -> ws <> [].
Proof.
  intros Hne Hws.
  assert (Hin : exists w, In w (csr_data A)).
  { unfold csr_data. destruct (csr_entries A) as [|e es]; [congruence|].
    exists (e_val e). now left. }
  destruct Hin as (w & Hw). apply np_unique_In in Hw.
  unfold filtration_weights in Hws.
  destruct (m =? "strength")%string.
  - injection Hws as <-. intros E. apply in_rev in Hw. rewrite E in Hw.
    contradiction.
  - destruct (m =? "distance")%string; [|discriminate].
    injection Hws as <-. intros E. rewrite E in Hw. contradiction.
Qed.

(** Where no position is stored twice the conversion of the weights to
    float64 numbers converts every value of the matrix. *)
Lemma csr_get_all_edges (A : csr) (i j : nat) :
  canonical A -> csr_get (all_edges A) i j = float64 (csr_get A i j).
Proof.
  unfold canonical, csr_get, all_edges, edges. cbn [csr_entries].
  induction (csr_entries A) as [|e es IH]; intros Hnd; [reflexivity|].
  assert (Hpos : forall e', at_pos i j (to_float64 e') = at_pos i j e')
    by reflexivity.
  cbn [filter]. destruct (at_pos i j e) eqn:E.
  - pose proof (canonical_single es i j e Hnd E) as Hnone.
    assert (Hnone' : filter (at_pos i j)
                       (map to_float64
                            (filter (fun e => nonzero (e_val e)) es)) = []).
    { clear -Hnone Hpos. induction es as [|e' es IH]; [reflexivity|].
      cbn [filter] in *. destruct (at_pos i j e') eqn:E'; [discriminate|].
      destruct (nonzero (e_val e')); [|now apply IH].
      cbn [map filter]. rewrite Hpos, E'. now apply IH. }
    rewrite Hnone. cbn [map]. change (sumZ [e_val e]) with (e_val e + 0).
    rewrite Z.add_0_r.
    destruct (nonzero (e_val e)) eqn:NZ.
    + cbn [map filter]. rewrite Hpos, E, Hnone'. cbn [map].
      change (sumZ [e_val (to_float64 e)]) with (float64 (e_val e) + 0).
      now rewrite Z.add_0_r.
    + rewrite Hnone'. unfold nonzero in NZ.
      apply negb_false_iff, Z.eqb_eq in NZ. now rewrite NZ.
  - assert (Hes : NoDup (map fst es)) by (cbn [map] in Hnd; now inversion Hnd).
    destruct (nonzero (e_val e)); [|exact (IH Hes)].
    cbn [map filter]. rewrite Hpos, E. exact (IH Hes).
Qed.

Lemma count_nonzero_float64 (l : list Z) :
  count_nonzero (map float64 l) = count_nonzero l.
Proof.
  unfold count_nonzero. induction l as [|v l IH]; [reflexivity|].
  cbn [map filter]. rewrite float64_nonzero.
  destruct (nonzero v); cbn [List.length]; now rewrite IH.
Qed.

Lemma diagonal_all_edges (A : csr) :
  canonical A -> diagonal (all_edges A) = map float64 (diagonal A).
Proof.
  intros Hcan. unfold diagonal.
  change (csr_shape (all_edges A)) with (csr_shape A).
  rewrite map_map. apply map_ext. intros i. now apply csr_get_all_edges.
Qed.

Section RejectedMatrices.

Variable flagser_count : csr -> count_options -> flagser_out.
Variable bin_center : Z -> Z -> Z -> Z -> Z.

(** X8. [filtered_simplex_counts] without binning starts with the whole
    network, its weights converted to float64 numbers, so a matrix with
    stored entries that [simplex_counts] rejects is rejected at the
    first step: it raises [AssertionError], for a nonzero diagonal (of a
    matrix that stores no position twice: the rounded values of two
    entries of a diagonal position can cancel where the entries do not)
    or else for a shape that is not square, before any call of the
    solver and without a warning. *)
Theorem filtered_simplex_counts_rejects_invalid
        (adj : csr) (m : string) (n_bins threads : Z) :
  known_method m ->
  csr_entries adj <> [] ->
  (canonical adj /\ count_nonzero (diagonal adj) <> 0%nat)
  \/ ~ is_square adj ->
  exists msg,
    filtered_simplex_counts flagser_count bin_center adj m false n_bins threads
    = ([], Raise (AssertionError msg)).
Proof.
  intros Hm Hne Hbad.
  exists (if (count_nonzero (diagonal (all_edges adj)) =? 0)%nat
          then square_error else diag_matrix_errors).
  destruct (filtration_weights adj m) as [ws|e] eqn:Hws.
  2:{ exfalso. unfold filtration_weights in Hws.
      destruct Hm as [-> | ->]; discriminate. }
  pose proof (filtration_weights_nonempty adj m ws Hne Hws) as Hws_ne.
  destruct (rev_starts_with_last ws Hws_ne) as (rest & Hrev).
  unfold filtered_simplex_counts, tret, lift. cbn [tbind app].
  rewrite Hws, Hrev. cbn [comprehension].
  unfold filter_weight. rewrite (last_threshold_keeps_all adj m ws Hws).
  unfold lift. cbn [tbind app]. unfold simplex_counts.
  change (csr_shape (all_edges adj)) with (csr_shape adj).
  destruct (Nat.eqb_spec (count_nonzero (diagonal (all_edges adj))) 0)
    as [Hd|Hd].
  - assert (Hsq : ~ is_square adj).
    { destruct Hbad as [[Hcan Hdiag]|Hsq]; [|exact Hsq].
      exfalso. apply Hdiag.
      now rewrite diagonal_all_edges, count_nonzero_float64 in Hd. }
    unfold is_square in Hsq. apply Nat.eqb_neq in Hsq. rewrite Hsq.
    reflexivity.
  - reflexivity.
Qed.

End RejectedMatrices.

(** A matrix with a loop at node 0. *)
Definition with_loop : csr := mk_csr (2, 2)%nat [stored 0 0 3; stored 0 1 1].

Lemma filtered_simplex_counts_rejects_invalid_witness :
  exists msg,
    filtered_simplex_counts skeleton_count no_binning with_loop "strength"
                            false 10 1
    = ([], Raise (AssertionError msg)).
Proof.
  refine (filtered_simplex_counts_rejects_invalid skeleton_count no_binning
            with_loop "strength" 10 1 _ _ _).
  - now left.
  - discriminate.
  - left. split; [|discriminate].
    unfold canonical, with_loop, stored. cbn [csr_entries map fst].
    repeat constructor; cbn [In]; intros H;
      repeat (destruct H as [H | H]; [discriminate|]); exact H.
Defined.

(** A loop stored twice at node 0, with the weights 2^53 + 1 and -2^53:
    the diagonal entry is 1, but as float64 numbers the two weights are
    opposite, so the first step of the filtration sees a zero diagonal
    and calls the solver, on the matrix of the truth values. *)
Definition loop_stored_twice : csr :=
  mk_csr (2, 2)%nat
         [stored 0 0 (2 ^ 53 + 1); stored 0 0 (- 2 ^ 53); stored 0 1 1].

Lemma filtered_simplex_counts_cancelling_loop :
  diagonal loop_stored_twice = [1; 0]
  /\ ~ canonical loop_stored_twice
  /\ events (filtered_simplex_counts skeleton_count no_binning
               loop_stored_twice "strength" false 10 1)
     = [LogWarning diag_warning_ignored;
        CallFlagserCount
          (mk_csr (2, 2)%nat [stored 0 0 1; stored 0 0 1; stored 0 1 1])
          (counting_options 1)].
Proof.
  split; [reflexivity|]. split.
  - unfold canonical, loop_stored_twice, stored. cbn [csr_entries map fst].
    intros H. inversion H as [|x l Hnot _]. apply Hnot. now left.
  - vm_compute. reflexivity.
Qed.

(* ------------------------------------------------------------------ *)
(** ** Degrees *)

(** The dense matrix that [node_degree] sums. *)
Definition degree_matrix (adj : csr) (weighted : bool) : ndmat :=
  if weighted then toarray adj else mat_bool (toarray adj).

(** The dtype of the array that [node_degree] sums. *)
Definition degree_dtype (adj : csr) (weighted : bool) : dtype :=
  if weighted then csr_dtype adj else np_bool.

Definition in_out : direction_arg := DTuple ["IN"; "OUT"]%string.
Definition out_in : direction_arg := DTuple ["OUT"; "IN"]%string.

Lemma list_string_eqb_eq (l1 l2 : list string) :
  list_string_eqb l1 l2 = true <-> l1 = l2.
Proof.
  unfold list_string_eqb. destruct (list_eq_dec string_dec l1 l2); split;
    congruence.
Qed.

(** The tuple of the characters of a string is not a pair of strings of
    which the first one has two or more characters. *)
Lemma tuple_of_string_not_pair (s a b : string) :
  String.length a <> 1%nat ->
  list_string_eqb (tuple_of (DStr s)) [a; b] = false.
Proof.
  intros Ha. apply not_true_iff_false. intros E.
  apply list_string_eqb_eq in E. cbn [tuple_of] in E.
  destruct (list_ascii_of_string s) as [|c cs]; [discriminate|].
  cbn [map] in E. injection E as E _. subst a. apply Ha. reflexivity.
Qed.

Lemma pd_series_cases (n : nat) (array : list Z) :
  pd_series n array = Ok array \/ pd_series n array = Raise length_mismatch_error.
Proof. unfold pd_series. destruct (_ =? _)%nat; [now left | now right]. Qed.

Section DegreeProperties.

Variable float_sum : list Z -> Z.

(** X9. [node_degree] never returns the frame whose first column is
    "OUT": the direction [("OUT", "IN")] fails the assertion at the head
    of the function, so the branch that would build that frame cannot
    be reached; a frame is returned only for [("IN", "OUT")], with the
    columns "IN" and "OUT" in this order. *)
Theorem node_degree_never_out_first (adj : csr) (weighted : bool) :
  (exists msg,
     node_degree float_sum adj (Some out_in) weighted
     = ([], Raise (AssertionError msg)))
  /\ forall direction columns,
       outcome (node_degree float_sum adj direction weighted)
       = Ok (DegreeFrame columns) ->
       direction = Some in_out /\ map fst columns = ["IN"; "OUT"]%string.
Proof.
  split; [now exists invalid_direction|].
  intros direction columns. unfold node_degree, outcome.
  set (matrix := if weighted then toarray adj else mat_bool (toarray adj)).
  set (dt := if weighted then csr_dtype adj else np_bool).
  set (warn := when _ _).
  assert (Hwarn : exists l, warn = (l, Ok tt)).
  { unfold warn, when, emit, tret. destruct (negb _); eauto. }
  destruct Hwarn as (l & ->). clearbody matrix dt.
  destruct (pd_series_cases (m_rows matrix) (sum_axis0 float_sum dt matrix))
    as [Hi|Hi];
    destruct (pd_series_cases (m_rows matrix) (sum_axis1 float_sum dt matrix))
      as [Ho|Ho];
    rewrite Hi, Ho; clear Hi Ho;
    unfold lift, tret;
    (destruct direction as [[s|d]|]; cbn [direction_missing];
     [ rewrite !tuple_of_string_not_pair by (cbn; lia);
       destruct (String.length s =? 0)%nat;
       destruct (direction_in_in_out (DStr s));
       destruct (direction_is_in (DStr s));
       cbn; try discriminate
     | cbn [tuple_of direction_in_in_out direction_is_in orb];
       destruct (list_string_eqb d ["IN"; "OUT"]%string) eqn:E1;
       [ apply list_string_eqb_eq in E1; subst d;
         cbn; try discriminate;
         intros H; injection H as <-; split; reflexivity
       | destruct (list_string_eqb d ["OUT"; "IN"]%string) eqn:E2;
         destruct (List.length d =? 0)%nat;
         cbn; try discriminate ]
     | cbn; try discriminate ]).
Qed.

(* ---------------------------------------------------------------- *)

Lemma sumZ_map_add {A : Type} (f g : A -> Z) (l : list A) :
  sumZ (map (fun x => f x + g x) l) = sumZ (map f l) + sumZ (map g l).
Proof.
  induction l as [|x l IH]; [reflexivity|]. cbn [map].
  change (sumZ (?x :: ?l)) with (x + sumZ l). rewrite IH.
  change (sumZ (f x :: map f l)) with (f x + sumZ (map f l)).
  change (sumZ (g x :: map g l)) with (g x + sumZ (map g l)). lia.
Qed.

Lemma sumZ_map_zero {A : Type} (l : list A) : sumZ (map (fun _ => 0) l) = 0.
Proof. induction l as [|x l IH]; [reflexivity|]. cbn [map]. exact IH. Qed.

(** Summing by columns first or by rows first gives the same total. *)
Lemma sumZ_exchange {A B : Type} (f : A -> B -> Z) (rows : list A)
      (cols : list B) :
  sumZ (map (fun j => sumZ (map (fun i => f i j) rows)) cols)
  = sumZ (map (fun i => sumZ (map (fun j => f i j) cols)) rows).
Proof.
  induction rows as [|i rows IH].
  - cbn [map]. apply sumZ_map_zero.
  - cbn [map]. change (sumZ (?x :: ?l)) with (x + sumZ l).
    rewrite <- IH.
    rewrite <- (sumZ_map_add (fun j => f i j)
                  (fun j => sumZ (map (fun i => f i j) rows))).
    reflexivity.
Qed.

(** Counting the booleans by columns or by rows gives the same total. *)
Lemma sum_axes_total (m : ndmat) :
  sumZ (sum_axis0 float_sum np_bool m) = sumZ (sum_axis1 float_sum np_bool m).
Proof. unfold sum_axis0, sum_axis1, np_sum. apply sumZ_exchange. Qed.

Lemma wrap64_sumZ {A : Type} (f : A -> Z) (l : list A) :
  wrap64 (sumZ (map (fun x => wrap64 (f x)) l)) = wrap64 (sumZ (map f l)).
Proof.
  induction l as [|x l IH]; [reflexivity|]. cbn [map].
  change (sumZ (?x :: ?l)) with (x + sumZ l).
  rewrite wrap64_add_l.
  rewrite (Z.add_comm (f x)), <- wrap64_add_l, IH, wrap64_add_l.
  now rewrite Z.add_comm.
Qed.

(** The sums of int64 numbers by columns and by rows have the same
    total modulo 2^64. *)
Lemma sum_axes_total_int64 (m : ndmat) :
  wrap64 (sumZ (sum_axis0 float_sum np_int64 m))
  = wrap64 (sumZ (sum_axis1 float_sum np_int64 m)).
Proof.
  unfold sum_axis0, sum_axis1, np_sum.
  rewrite (wrap64_sumZ (fun j => sumZ (map (fun i => m_at m i j)
                                           (seq 0 (m_rows m))))).
  rewrite (wrap64_sumZ (fun i => sumZ (map (fun j => m_at m i j)
                                           (seq 0 (m_cols m))))).
  f_equal. apply sumZ_exchange.
Qed.

Lemma sumZ_bounds {A : Type} (f : A -> Z) (l : list A) :
  (forall x, 0 <= f x <= 1) ->
  0 <= sumZ (map f l) <= Z.of_nat (List.length l).
Proof.
  intros H. induction l as [|x l IH]; [cbn; lia|].
  cbn [map List.length]. change (sumZ (?x :: ?l)) with (x + sumZ l).
  specialize (H x). lia.
Qed.

Lemma truth_bounds (v : Z) : 0 <= truth v <= 1.
Proof. unfold truth. destruct (nonzero v); lia. Qed.

(** X10. On a square matrix [node_degree] with direction
    [("IN", "OUT")] returns one in-degree and one out-degree per node.
    Without [weighted] every degree lies between 0 and the number of
    nodes and the in-degrees add up to the same total as the
    out-degrees; with [weighted] on int64 weights every degree is a sum
    that wraps around, and the two totals agree modulo 2^64. *)
Theorem node_degree_handshake (adj : csr) (weighted : bool) :
  is_square adj ->
  let n := fst (csr_shape adj) in
  exists ins outs,
    outcome (node_degree float_sum adj (Some in_out) weighted)
    = Ok (DegreeFrame [("IN"%string, ins); ("OUT"%string, outs)])
    /\ List.length ins = n /\ List.length outs = n
    /\ (weighted = false ->
        sumZ ins = sumZ outs
        /\ Forall (fun d => 0 <= d <= Z.of_nat n) (ins ++ outs))
    /\ (weighted = true -> csr_dtype adj = np_int64 ->
        wrap64 (sumZ ins) = wrap64 (sumZ outs)
        /\ Forall in_int64 (ins ++ outs)).
Proof.
  intros Hsq n. unfold is_square in Hsq.
  exists (sum_axis0 float_sum (degree_dtype adj weighted)
                    (degree_matrix adj weighted)),
         (sum_axis1 float_sum (degree_dtype adj weighted)
                    (degree_matrix adj weighted)).
  assert (Hrows : m_rows (degree_matrix adj weighted) = n)
    by (unfold degree_matrix; now destruct weighted).
  assert (Hcols : m_cols (degree_matrix adj weighted) = n)
    by (unfold degree_matrix, n; rewrite Hsq; now destruct weighted).
  assert (Hl0 : forall dt,
             List.length (sum_axis0 float_sum dt (degree_matrix adj weighted))
             = n).
  { intros dt. unfold sum_axis0. now rewrite length_map, length_seq. }
  assert (Hl1 : forall dt,
             List.length (sum_axis1 float_sum dt (degree_matrix adj weighted))
             = n).
  { intros dt. unfold sum_axis1. now rewrite length_map, length_seq. }
  split; [|split; [apply Hl0|split; [apply Hl1|split]]].
  - unfold node_degree, outcome.
    fold (degree_matrix adj weighted). fold (degree_dtype adj weighted).
    unfold pd_series. rewrite Hl0, Hl1, Hrows, Nat.eqb_refl.
    unfold when, emit, lift, tret.
    now destruct (negb (count_nonzero (np_diag (degree_matrix adj weighted))
                        =? 0)%nat).
  - intros ->. split; [apply sum_axes_total|].
    unfold degree_matrix, degree_dtype in *. apply Forall_app. split.
    + unfold sum_axis0, np_sum. apply Forall_forall. intros d Hd.
      apply in_map_iff in Hd. destruct Hd as (j & <- & _).
      pose proof (sumZ_bounds (fun i => m_at (mat_bool (toarray adj)) i j)
                    (seq 0 (m_rows (mat_bool (toarray adj))))) as Hb.
      rewrite length_seq, Hrows in Hb. apply Hb.
      intros x. cbn [mat_bool m_at]. apply truth_bounds.
    + unfold sum_axis1, np_sum. apply Forall_forall. intros d Hd.
      apply in_map_iff in Hd. destruct Hd as (i & <- & _).
      pose proof (sumZ_bounds (fun j => m_at (mat_bool (toarray adj)) i j)
                    (seq 0 (m_cols (mat_bool (toarray adj))))) as Hb.
      rewrite length_seq in Hb.
      assert (Hn : Z.of_nat (m_cols (mat_bool (toarray adj))) = Z.of_nat n)
        by now rewrite Hcols.
      rewrite Hn in Hb. apply Hb.
      intros x. cbn [mat_bool m_at]. apply truth_bounds.
  - intros -> Hdt. unfold degree_dtype. rewrite Hdt.
    split; [apply sum_axes_total_int64|].
    apply Forall_app. split; apply Forall_forall; intros d Hd;
      unfold sum_axis0, sum_axis1, np_sum in Hd; apply in_map_iff in Hd;
      destruct Hd as (k & <- & _); apply wrap64_range.
Qed.

(** X11. On a matrix that is not square the out-degrees are still
    returned, one per row, while every direction that needs the
    in-degrees (["IN"], [("IN", "OUT")] and no direction) raises
    [ValueError]: there is one column sum per column but one index
    label per row. *)
Theorem node_degree_not_square (adj : csr) (weighted : bool) :
  ~ is_square adj ->
  outcome (node_degree float_sum adj (Some (DStr "OUT")) weighted)
  = Ok (DegreeSeries (sum_axis1 float_sum (degree_dtype adj weighted)
                                (degree_matrix adj weighted)))
  /\ exists msg,
       outcome (node_degree float_sum adj (Some (DStr "IN")) weighted)
       = Raise (ValueError msg)
       /\ outcome (node_degree float_sum adj (Some in_out) weighted)
          = Raise (ValueError msg)
       /\ outcome (node_degree float_sum adj None weighted)
          = Raise (ValueError msg).
Proof.
  intros Hsq. unfold is_square in Hsq.
  set (dt := degree_dtype adj weighted).
  enough (H : outcome (node_degree float_sum adj (Some (DStr "OUT")) weighted)
              = Ok (DegreeSeries (sum_axis1 float_sum dt
                                            (degree_matrix adj weighted)))
              /\ outcome (node_degree float_sum adj (Some (DStr "IN")) weighted)
                 = Raise length_mismatch_error
              /\ outcome (node_degree float_sum adj (Some in_out) weighted)
                 = Raise length_mismatch_error
              /\ outcome (node_degree float_sum adj None weighted)
                 = Raise length_mismatch_error).
  { destruct H as (H1 & H2 & H3 & H4). split; [exact H1|].
    eexists. split; [exact H2 | split; [exact H3 | exact H4]]. }
  assert (Hrows : m_rows (degree_matrix adj weighted) = fst (csr_shape adj))
    by (unfold degree_matrix; now destruct weighted).
  assert (Hcols : m_cols (degree_matrix adj weighted) = snd (csr_shape adj))
    by (unfold degree_matrix; now destruct weighted).
  assert (Hin : pd_series (m_rows (degree_matrix adj weighted))
                          (sum_axis0 float_sum dt (degree_matrix adj weighted))
                = Raise length_mismatch_error).
  { unfold pd_series, sum_axis0. rewrite length_map, length_seq, Hrows, Hcols.
    replace (snd (csr_shape adj) =? fst (csr_shape adj))%nat with false;
      [reflexivity|].
    symmetry. apply Nat.eqb_neq. congruence. }
  assert (Hout : pd_series (m_rows (degree_matrix adj weighted))
                           (sum_axis1 float_sum dt (degree_matrix adj weighted))
                 = Ok (sum_axis1 float_sum dt (degree_matrix adj weighted))).
  { unfold pd_series, sum_axis1. now rewrite length_map, length_seq, Nat.eqb_refl. }
  unfold node_degree, outcome. fold (degree_matrix adj weighted).
  fold (degree_dtype adj weighted). fold dt.
  rewrite Hin, Hout. unfold when, emit, lift, tret.
  destruct (negb (count_nonzero (np_diag (degree_matrix adj weighted)) =? 0)%nat);
    repeat split; reflexivity.
Qed.

End DegreeProperties.

(** A sum of float64 numbers that rounds once, at the end. *)
Definition rounded_sum (l : list Z) : Z := float64 (sumZ l).

Lemma node_degree_handshake_witness :
  exists ins outs,
    outcome (node_degree rounded_sum reciprocal_pair (Some in_out) true)
    = Ok (DegreeFrame [("IN"%string, ins); ("OUT"%string, outs)])
    /\ List.length ins = 3%nat /\ List.length outs = 3%nat
    /\ wrap64 (sumZ ins) = wrap64 (sumZ outs).
Proof.
  destruct (node_degree_handshake rounded_sum reciprocal_pair true eq_refl)
    as (ins & outs & H1 & H2 & H3 & _ & H4).
  exists ins, outs. repeat (split; [assumption|]).
  apply (H4 eq_refl eq_refl).
Defined.

(** Two nodes and three columns. *)
Definition two_by_three : csr := mk_csr (2, 3)%nat [stored 0 2 4; stored 1 2 1].

Lemma node_degree_not_square_witness :
  outcome (node_degree rounded_sum two_by_three (Some (DStr "OUT")) true)
  = Ok (DegreeSeries [4; 1])
  /\ exists msg,
       outcome (node_degree rounded_sum two_by_three None true)
       = Raise (ValueError msg).
Proof.
  destruct (node_degree_not_square rounded_sum two_by_three true)
    as (H1 & msg & _ & _ & H4).
  - discriminate.
  - split; [exact H1 | exists msg; exact H4].
Defined.

(* ------------------------------------------------------------------ *)
(** ** Generalised degree: argument checks and the meaning of a column *)

Lemma lookup_map (g : Z -> Z) (k : Z) (l : list Z) :
  lookup k (map (fun x => (x, g x)) l)
  = if in_dec Z.eq_dec k l then Some (g k) else None.
Proof.
  induction l as [|x l IH]; [reflexivity|]. cbn [map lookup].
  destruct (Z.eqb_spec x k) as [->|Hne].
  - destruct (in_dec Z.eq_dec k (k :: l)) as [_|Hn]; [reflexivity|].
    exfalso. apply Hn. now left.
  - rewrite IH. destruct (in_dec Z.eq_dec k l) as [Hin|Hnin];
      destruct (in_dec Z.eq_dec k (x :: l)) as [Hin'|Hnin']; try reflexivity.
    + exfalso. apply Hnin'. now right.
    + exfalso. destruct Hin' as [E|Hin']; [congruence | contradiction].
Qed.

Lemma count_occ_of_nat (col : list nat) (v : nat) :
  count_occ Z.eq_dec (map Z.of_nat col) (Z.of_nat v)
  = count_occ Nat.eq_dec col v.
Proof.
  induction col as [|x col IH]; [reflexivity|]. cbn [map count_occ].
  destruct (Z.eq_dec (Z.of_nat x) (Z.of_nat v)) as [E|E];
    destruct (Nat.eq_dec x v) as [E'|E']; try lia; now rewrite IH.
Qed.

(** The value of a degree column at node [v] is the number of times [v]
    occurs in the column of vertices it is built from. *)
Lemma degree_column_counts (n : nat) (col : list nat) :
  degree_column n col
  = map (fun v => Z.of_nat (count_occ Nat.eq_dec col v)) (seq 0 n).
Proof.
  unfold degree_column, unique_counts. apply map_ext. intros v.
  rewrite (lookup_map (fun x => Z.of_nat (count_occ Z.eq_dec (map Z.of_nat col) x))).
  destruct (in_dec Z.eq_dec (Z.of_nat v) (np_unique (map Z.of_nat col)))
    as [Hin|Hnin].
  - now rewrite count_occ_of_nat.
  - rewrite np_unique_In in Hnin.
    rewrite <- count_occ_of_nat.
    assert (H0 : count_occ Z.eq_dec (map Z.of_nat col) (Z.of_nat v) = 0%nat)
      by now apply count_occ_not_In.
    now rewrite H0.
Qed.

(** The position in a simplex that a degree looks at: its first vertex,
    the source, for the out-degree and its last vertex, the sink, for
    the in-degree. *)
Definition degree_position (dim : Z) (kind : degree_kind) : nat :=
  match kind with
  | OutDegree => 0%nat
  | InDegree => Z.to_nat dim
  end.

(** A column of the table counts, for each node, the simplices of its
    dimension that the solver lists with the node at that position. *)
Definition counts_simplices (out : flagser_out) (n : nat)
           (c : (Z * degree_kind) * list Z) : Prop :=
  let dim := fst (fst c) in
  let kind := snd (fst c) in
  exists rows,
    nth_error (simplices out) (Z.to_nat dim) = Some rows
    /\ snd c
       = map (fun v =>
                Z.of_nat (List.length
                            (filter (fun r => (nth (degree_position dim kind) r 0
                                               =? v)%nat) rows)))
             (seq 0 n).

Lemma count_occ_filter (k : nat) (rows : list (list nat)) (v : nat) :
  count_occ Nat.eq_dec (map (fun r => nth k r 0%nat) rows) v
  = List.length (filter (fun r => (nth k r 0 =? v)%nat) rows).
Proof.
  induction rows as [|r rows IH]; [reflexivity|]. cbn [map count_occ filter].
  destruct (Nat.eq_dec (nth k r 0%nat) v) as [E|E].
  - apply Nat.eqb_eq in E. rewrite E. cbn [List.length]. now rewrite IH.
  - apply Nat.eqb_neq in E. now rewrite E.
Qed.

Lemma column_inv (k : nat) (rows : list (list nat)) (col : list nat) :
  column k rows = Ok col -> col = map (fun r => nth k r 0%nat) rows.
Proof.
  unfold column. destruct rows as [|r rows]; [discriminate|].
  destruct (forallb _ _); [|discriminate]. now intros [= <-].
Qed.

Lemma degree_step_counts (out : flagser_out) (n : nat)
      (direction : direction_arg) (table table' : degree_table) (dim : Z) :
  Forall (counts_simplices out n) table ->
  degree_step out n direction table dim = Ok table' ->
  Forall (counts_simplices out n) table'.
Proof.
  intros Hall. unfold degree_step.
  assert (Hcol : forall kind col rows,
             nth_error (simplices out) (Z.to_nat dim) = Some rows ->
             column (degree_position dim kind) rows = Ok col ->
             counts_simplices out n ((dim, kind), degree_column n col)).
  { intros kind col rows Hrows Hc. exists rows. cbn [fst snd].
    split; [exact Hrows|]. apply column_inv in Hc. subst col.
    rewrite degree_column_counts. apply map_ext. intros v.
    now rewrite count_occ_filter. }
  destruct (nth_error (simplices out) (Z.to_nat dim)) as [rows|] eqn:Hrows.
  - destruct (in_direction "OUT" direction).
    + destruct (column 0 rows) as [c0|] eqn:H0; cbn [rbind]; [|discriminate].
      destruct (in_direction "IN" direction).
      * destruct (column (Z.to_nat dim) rows) as [cd|] eqn:Hd; cbn [rbind];
          [|discriminate].
        intros [= <-]. apply Forall_app. split.
        -- apply Forall_app. split; [exact Hall|]. constructor; [|constructor].
           exact (Hcol OutDegree c0 rows eq_refl H0).
        -- constructor; [|constructor].
           exact (Hcol InDegree cd rows eq_refl Hd).
      * intros [= <-]. apply Forall_app. split; [exact Hall|].
        constructor; [|constructor].
        exact (Hcol OutDegree c0 rows eq_refl H0).
    + cbn [rbind]. destruct (in_direction "IN" direction).
      * destruct (column (Z.to_nat dim) rows) as [cd|] eqn:Hd; cbn [rbind];
          [|discriminate].
        intros [= <-]. apply Forall_app. split; [exact Hall|].
        constructor; [|constructor].
        exact (Hcol InDegree cd rows eq_refl Hd).
      * now intros [= <-].
  - destruct (in_direction "OUT" direction); cbn [rbind]; [discriminate|].
    destruct (in_direction "IN" direction); [discriminate|].
    now intros [= <-].
Qed.

Lemma degree_loop_counts (out : flagser_out) (n : nat)
      (direction : direction_arg) (dims : list Z) (table table' : degree_table) :
  Forall (counts_simplices out n) table ->
  degree_loop out n direction dims table = Ok table' ->
  Forall (counts_simplices out n) table'.
Proof.
  revert table. induction dims as [|d dims IH]; intros table Hall.
  - cbn [degree_loop]. now intros [= <-].
  - cbn [degree_loop].
    destruct (degree_step out n direction table d) as [t|] eqn:Hs;
      cbn [rbind]; [|discriminate].
    apply IH. exact (degree_step_counts out n direction table t d Hall Hs).
Qed.

Section DegreeTable.

Variable flagser_count : csr -> count_options -> flagser_out.

(** X12. [node_k_degree] checks its arguments before anything else: a
    [max_dim] that is neither -1 nor at least 2, or a direction that is
    none of "IN", "OUT" and [("IN", "OUT")], raises [AssertionError]
    without a warning and without a call of the solver. *)
Theorem node_k_degree_rejects_arguments
        (adj : csr) (direction : direction_arg) (max_dim : Z) :
  (max_dim <= 1 /\ max_dim <> -1) \/ direction_valid direction = false ->
  exists msg,
    node_k_degree flagser_count adj direction max_dim
    = ([], Raise (AssertionError msg)).
Proof.
  intros H. unfold node_k_degree.
  destruct ((max_dim >? 1) || (max_dim =? -1)) eqn:Hpre.
  - destruct H as [[H1 H2]|H].
    + exfalso. apply orb_true_iff in Hpre. destruct Hpre as [Hp|Hp].
      * apply Z.gtb_lt in Hp. lia.
      * apply Z.eqb_eq in Hp. lia.
    + rewrite H. eexists. reflexivity.
  - eexists. reflexivity.
Qed.

(** X13. Every column of the table that [node_k_degree] returns counts
    simplices: the out-degree of a node in dimension [dim] is the number
    of simplices of that dimension listed by the solver whose first
    vertex is the node, and its in-degree the number of those whose
    vertex at position [dim], the last one, is the node. *)
Theorem node_k_degree_counts_simplices
        (adj : csr) (direction : direction_arg) (max_dim : Z)
        (table : degree_table) :
  outcome (node_k_degree flagser_count adj direction max_dim)
  = Ok (Some table) ->
  Forall (counts_simplices (flagser_count adj (listing_options max_dim))
                           (fst (csr_shape adj)))
         table.
Proof.
  intros Hrun.
  destruct ((max_dim >? 1) || (max_dim =? -1)) eqn:Hpre.
  2:{ unfold node_k_degree in Hrun. rewrite Hpre in Hrun. discriminate. }
  destruct (direction_valid direction) eqn:Hdir.
  2:{ unfold node_k_degree in Hrun. rewrite Hpre, Hdir in Hrun. discriminate. }
  rewrite (node_k_degree_run flagser_count adj direction max_dim Hpre Hdir)
    in Hrun.
  cbv zeta in Hrun.
  destruct (_ && _) in Hrun; [discriminate|].
  destruct (degree_loop _ _ _ _ _) as [t|] eqn:Hloop in Hrun; [|discriminate].
  unfold outcome in Hrun. cbn [snd] in Hrun. injection Hrun as ->.
  eapply degree_loop_counts; [|exact Hloop]. constructor.
Qed.

End DegreeTable.

(** A solver stand-in that lists the simplices of a triangle. *)
Definition triangle_listing (_ : csr) (_ : count_options) : flagser_out :=
  mk_flagser_out 1 [3; 3; 1] None None
                 [[[0]; [1]; [2]]; [[0; 1]; [0; 2]; [1; 2]]; [[0; 1; 2]]]%nat.

Definition triangle : csr :=
  mk_csr (3, 3)%nat [stored 0 1 1; stored 0 2 1; stored 1 2 1].

Lemma node_k_degree_rejects_arguments_witness :
  exists msg,
    node_k_degree triangle_listing triangle (DStr "BOTH") 1
    = ([], Raise (AssertionError msg)).
Proof.
  apply (node_k_degree_rejects_arguments triangle_listing triangle
           (DStr "BOTH") 1).
  left. lia.
Defined.

Lemma node_k_degree_counts_simplices_witness :
  Forall (counts_simplices (triangle_listing triangle (listing_options (-1))) 3)
         [((2, OutDegree), [1; 0; 0]); ((2, InDegree), [0; 0; 1])].
Proof.
  exact (node_k_degree_counts_simplices triangle_listing triangle
           both_directions (-1) _ eq_refl).
Defined.

(* ------------------------------------------------------------------ *)
(** ** Simplex lists: dimensions 0 and 1 *)

Lemma series_set_vertices_edges {V : Type} (s : list V) (a b d : V) :
  series_set (series_set s 0 a d) 1 b d = a :: b :: skipn 2 s.
Proof. destruct s as [|x [|y r]]; reflexivity. Qed.

Section SimplexLists.

Variable flagser_count : csr -> count_options -> flagser_out.

(** The run of [list_simplices_by_dimension] for directed simplices,
    all of them, on valid arguments. *)
Lemma list_simplices_directed_run
        (adj : csr) (max_dim : Z) (nodes : option (list nat)) (threads : Z) :
  count_nonzero (diagonal adj) = 0%nat ->
  is_square adj ->
  (forall ns, nodes = Some ns ->
              Forall (fun v => (v < fst (csr_shape adj))%nat) ns) ->
  let opts := mk_count_options (Some false) None (Some true) (Some threads)
                               (Some max_dim) nodes in
  let out := flagser_count adj opts in
  let sources := match nodes with
                 | Some ns => ns
                 | None => seq 0 (fst (csr_shape adj))
                 end in
  list_simplices_by_dimension flagser_count adj false max_dim nodes
                              "directed" threads
  = ([CallFlagserCount adj opts],
     Ok (Some (Arr2 1 (map (fun v => [v]) sources))
         :: Some (Arr2 2 (map (fun e => [e_row e; e_col e])
                              (filter (fun e => nat_in (e_row e) sources)
                                      (csr_entries adj))))
         :: map (fun rows => Some (np_array rows)) (skipn 2 (simplices out)))).
Proof.
  intros Hdiag Hsq Hnodes opts out sources.
  unfold list_simplices_by_dimension. rewrite Hdiag.
  unfold is_square in Hsq. rewrite <- Hsq, !Nat.eqb_refl.
  assert (Hassert :
            match nodes with
            | Some ns =>
                py_assert (forallb (fun v => (v <? fst (csr_shape adj))%nat) ns)
                  "nodes must be a subarray of the nodes of the matrix"
            | None => tret tt
            end = tret tt).
  { destruct nodes as [ns|]; [|reflexivity].
    replace (forallb (fun v => (v <? fst (csr_shape adj))%nat) ns) with true;
      [reflexivity|].
    symmetry. apply forallb_forall. intros v Hv.
    specialize (Hnodes ns eq_refl). rewrite Forall_forall in Hnodes.
    apply Nat.ltb_lt. now apply Hnodes. }
  rewrite Hassert. unfold py_assert, call_flagser_count, emit, tret.
  cbn [tbind app String.eqb Ascii.eqb Bool.eqb].
  fold opts. fold out. fold sources.
  rewrite series_set_vertices_edges. rewrite skipn_map. reflexivity.
Qed.

(** X14. [list_simplices_by_dimension] for directed simplices, all of
    them and not only the maximal ones, on a square matrix with zero
    diagonal and with nodes of the matrix: the solver is called once on
    the matrix as it is; dimension 0 of the result lists the nodes asked
    for, one per row, and dimension 1 lists the positions of the stored
    entries whose row is one of these nodes, in storage order, whatever
    the solver lists there; from dimension 2 on the lists are the
    solver's. *)
Theorem list_simplices_by_dimension_low_dimensions
        (adj : csr) (max_dim : Z) (nodes : option (list nat)) (threads : Z) :
  count_nonzero (diagonal adj) = 0%nat ->
  is_square adj ->
  (forall ns, nodes = Some ns ->
              Forall (fun v => (v < fst (csr_shape adj))%nat) ns) ->
  let opts := mk_count_options (Some false) None (Some true) (Some threads)
                               (Some max_dim) nodes in
  let out := flagser_count adj opts in
  let sources := match nodes with
                 | Some ns => ns
                 | None => seq 0 (fst (csr_shape adj))
                 end in
  list_simplices_by_dimension flagser_count adj false max_dim nodes
                              "directed" threads
  = ([CallFlagserCount adj opts],
     Ok (Some (Arr2 1 (map (fun v => [v]) sources))
         :: Some (Arr2 2 (map (fun e => [e_row e; e_col e])
                              (filter (fun e => nat_in (e_row e) sources)
                                      (csr_entries adj))))
         :: map (fun rows => Some (np_array rows)) (skipn 2 (simplices out)))).
Proof. exact (list_simplices_directed_run adj max_dim nodes threads). Qed.

End SimplexLists.

Lemma list_simplices_by_dimension_low_dimensions_witness :
  list_simplices_by_dimension triangle_listing triangle false (-1)
                              (Some [1; 2]%nat) "directed" 1
  = ([CallFlagserCount triangle
        (mk_count_options (Some false) None (Some true) (Some 1) (Some (-1))
                          (Some [1; 2]%nat))],
     Ok [Some (Arr2 1 [[1]; [2]]%nat); Some (Arr2 2 [[1; 2]]%nat);
         Some (Arr2 3 [[0; 1; 2]]%nat)]).
Proof.
  refine (list_simplices_by_dimension_low_dimensions triangle_listing triangle
            (-1) (Some [1; 2]%nat) 1 eq_refl eq_refl _).
  intros ns [= <-]. repeat constructor.
Defined.

(* ------------------------------------------------------------------ *)
(** ** The decoder keeps every vertex *)

Lemma slot_bounds (k w : Z) : 0 <= slot k w < 2 ^ 21.
Proof. unfold slot. apply Z.mod_pos_bound. lia. Qed.

Lemma word_vertices_bounds (w : Z) :
  Forall (fun v => 0 <= v < 2 ^ 21 - 1) (word_vertices w)
  /\ (List.length (word_vertices w) <= 3)%nat.
Proof.
  unfold word_vertices. split.
  - apply Forall_forall. intros v Hv. apply filter_In in Hv.
    destruct Hv as [Hin Hne]. apply negb_true_iff, Z.eqb_neq in Hne.
    assert (Hb : 0 <= v < 2 ^ 21).
    { cbn [In] in Hin. destruct Hin as [<-|[<-|[<-|[]]]]; apply slot_bounds. }
    lia.
  - etransitivity; [apply filter_length_le|]. cbn [List.length]. lia.
Qed.

Lemma concat_cons_to_first {A : Type} (x : A) (l : list (list A)) :
  List.concat (cons_to_first x l) = x :: List.concat l.
Proof. destruct l as [|c cs]; reflexivity. Qed.

(** Cutting into blocks neither drops nor reorders a word. *)
Lemma concat_blocks (starts : Z -> bool) (words : list Z) :
  List.concat (blocks starts words) = words.
Proof.
  induction words as [|w r IH]; [reflexivity|].
  destruct r as [|w' r']; [reflexivity|].
  rewrite blocks_cons2. destruct (starts w').
  - cbn [List.concat app]. now rewrite IH.
  - rewrite concat_cons_to_first. now rewrite IH.
Qed.

Lemma blocks_nonempty (starts : Z -> bool) (words : list Z) :
  Forall (fun b => b <> []) (blocks starts words).
Proof.
  induction words as [|w r IH]; [constructor|].
  destruct r as [|w' r']; [repeat constructor; discriminate|].
  rewrite blocks_cons2. destruct (starts w').
  - constructor; [discriminate | exact IH].
  - destruct (blocks_cons starts w' r') as (g & gs & E). rewrite E in IH |- *.
    cbn [cons_to_first]. inversion IH; subst.
    constructor; [discriminate | assumption].
Qed.

Lemma concat_simplex_of (bs : list (list Z)) :
  List.concat (map simplex_of bs)
  = List.concat (map word_vertices (List.concat bs)).
Proof.
  induction bs as [|b bs IH]; [reflexivity|].
  cbn [map List.concat]. rewrite map_app, concat_app, IH. reflexivity.
Qed.

(** X15. On a sequence of words that is not empty [_binary2simplex]
    neither drops, adds nor reorders a vertex: the simplices, one after
    the other, hold the vertices of the decoded words in word order.
    Every vertex is a 21-bit number below the empty-slot marker
    2^21 - 1, and with [test] the vertices are also returned word by
    word. *)
Theorem binary2simplex_keeps_vertices (words : list Z) (test : option Z) :
  inspected words test <> [] ->
  exists (vertices : option (list (list Z))) (simplices : list (Z * list Z)),
    _binary2simplex words test = Ok (vertices, simplices)
    /\ List.concat (map snd simplices)
       = List.concat (map word_vertices (inspected words test))
    /\ Forall (fun v => 0 <= v < 2 ^ 21 - 1) (List.concat (map snd simplices))
    /\ (List.length simplices <= List.length (inspected words test))%nat
    /\ vertices = if truthy test
                  then Some (map word_vertices (inspected words test))
                  else None.
Proof.
  intros Hne. unfold _binary2simplex. fold (inspected words test).
  destruct (inspected words test) as [|w r] eqn:Hw; [congruence|].
  set (bs := blocks (fun w => negb (bit63 w)) (w :: r)).
  assert (Hg : groupby_hstack
                 (combine (cumsum_from 0 (map fst (map decode_vertices (w :: r))))
                          (map snd (map decode_vertices (w :: r))))
               = combine (zseq (started w) (List.length bs)) (map simplex_of bs)).
  { pose proof (grouped_blocks r w 0) as G. unfold sid_rows in G.
    rewrite G. now rewrite Z.add_0_l. }
  assert (Hlen : List.length (zseq (started w) (List.length bs))
                 = List.length (map simplex_of bs))
    by now rewrite zseq_length, length_map.
  assert (Hvs : map snd (map decode_vertices (w :: r))
                = map word_vertices (w :: r)).
  { rewrite map_map. apply map_ext. intros x.
    now rewrite decode_vertices_layout. }
  assert (Hall : List.concat (map simplex_of bs)
                 = List.concat (map word_vertices (w :: r))).
  { rewrite concat_simplex_of. unfold bs. now rewrite concat_blocks. }
  exists (if truthy test then Some (map word_vertices (w :: r)) else None),
         (combine (zseq (started w) (List.length bs)) (map simplex_of bs)).
  split; [|split; [|split; [|split]]].
  - rewrite Hg, Hvs. now destruct (truthy test).
  - now rewrite (combine_snd _ _ Hlen).
  - rewrite (combine_snd _ _ Hlen), Hall. apply Forall_concat.
    apply Forall_forall. intros vs Hvs'. apply in_map_iff in Hvs'.
    destruct Hvs' as (x & <- & _). apply word_vertices_bounds.
  - rewrite length_combine, zseq_length, length_map, Nat.min_id.
    unfold bs. rewrite <- (concat_blocks (fun w => negb (bit63 w)) (w :: r)) at 2.
    generalize (blocks_nonempty (fun w => negb (bit63 w)) (w :: r)).
    generalize (blocks (fun w => negb (bit63 w)) (w :: r)).
    induction l as [|b l IH]; intros Hb; [cbn; lia|].
    inversion Hb as [|? ? Hb1 Hb2]; subst. cbn [List.length List.concat].
    rewrite length_app. specialize (IH Hb2).
    destruct b as [|x b]; [congruence|]. cbn [List.length]. lia.
  - reflexivity.
Qed.

Lemma binary2simplex_keeps_vertices_witness :
  exists (vertices : option (list (list Z))) (simplices : list (Z * list Z)),
    _binary2simplex flagged_words (Some 2) = Ok (vertices, simplices)
    /\ List.concat (map snd simplices) = [1; 2; 3; 4; 5]
    /\ vertices = Some [[1; 2; 3]; [4; 5]].
Proof.
  destruct (binary2simplex_keeps_vertices flagged_words (Some 2))
    as (vs & ss & Hrun & Hall & _ & _ & Hvs).
  - discriminate.
  - exists vs, ss. split; [exact Hrun|]. split; [exact Hall | exact Hvs].
Defined.

(* ------------------------------------------------------------------ *)
(** ** The chunker: rejected schedules, maximal chunks *)

Definition too_long_message : string :=
  "approximation list too long for the dimension range".

(** X16. [chunk_approx_and_dims] raises [AssertionError] for a schedule
    with more entries than the range from [min_dim] to [max_dim] has
    dimensions, and [IndexError] for an empty schedule that passes this
    check. *)
Theorem chunk_approx_and_dims_rejects
        (min_dim : Z) (max_dim : option Z) (approximation : list Z) :
  (forall M, max_dim = Some M ->
             Z.of_nat (List.length approximation) > M - min_dim + 1 ->
             chunk_approx_and_dims min_dim max_dim approximation
             = Raise (AssertionError too_long_message))
  /\ (approximation = [] ->
      (forall M, max_dim = Some M -> min_dim - 1 <= M) ->
      exists msg,
        chunk_approx_and_dims min_dim max_dim approximation
        = Raise (IndexError msg)).
Proof.
  split.
  - intros M -> Hlong. unfold chunk_approx_and_dims.
    cbn [max_dim_or_inf ext_add ext_leb].
    replace (Z.of_nat (List.length approximation) - 1 <=? M + - min_dim)
      with false by (symmetry; apply Z.leb_gt; lia).
    reflexivity.
  - intros -> Hfits. unfold chunk_approx_and_dims.
    replace (ext_leb (Fin (Z.of_nat (List.length (@nil Z)) - 1))
                     (ext_add (max_dim_or_inf max_dim) (- min_dim))) with true.
    + eexists. reflexivity.
    + symmetry. destruct max_dim as [M|]; [|reflexivity].
      cbn. apply Z.leb_le. specialize (Hfits M eq_refl). lia.
Qed.

(* ---------------------------------------------------------------- *)

(** The values of the maximal runs of a schedule. *)
Fixpoint run_values (a : list Z) : list Z :=
  match a with
  | [] => []
  | x :: r =>
      match r with
      | [] => [x]
      | y :: _ => if x =? y then run_values r else x :: run_values r
      end
  end.

(** No two neighbours in the list are equal. *)
Fixpoint adjacent_differ (l : list Z) : Prop :=
  match l with
  | [] => True
  | x :: r =>
      match r with
      | [] => True
      | y :: _ => x <> y /\ adjacent_differ r
      end
  end.

Lemma run_values_cons2 (x y : Z) (r : list Z) :
  run_values (x :: y :: r)
  = if x =? y then run_values (y :: r) else x :: run_values (y :: r).
Proof. reflexivity. Qed.

Lemma run_values_head (x : Z) (r : list Z) :
  exists vs, run_values (x :: r) = x :: vs.
Proof.
  revert x. induction r as [|y r IH]; intros x.
  - now exists [].
  - rewrite run_values_cons2. destruct (Z.eqb_spec x y) as [->|Hne].
    + apply IH.
    + now exists (run_values (y :: r)).
Qed.

Lemma run_values_last (x : Z) (r : list Z) :
  last (run_values (x :: r)) 0 = last (x :: r) 0.
Proof.
  revert x. induction r as [|y r IH]; intros x; [reflexivity|].
  rewrite run_values_cons2. change (last (x :: y :: r) 0) with (last (y :: r) 0).
  destruct (x =? y); [apply IH|].
  destruct (run_values_head y r) as (vs & E). rewrite <- (IH y), E.
  reflexivity.
Qed.

Lemma run_values_adjacent (a : list Z) : adjacent_differ (run_values a).
Proof.
  induction a as [|x r IH]; [exact I|].
  destruct r as [|y r']; [exact I|].
  rewrite run_values_cons2. destruct (Z.eqb_spec x y) as [->|Hne]; [exact IH|].
  destruct (run_values_head y r') as (vs & E). rewrite E in IH |- *.
  split; assumption.
Qed.

Lemma adjacent_differ_snoc (l : list Z) (v : Z) :
  adjacent_differ l -> l <> [] -> last l 0 <> v -> adjacent_differ (l ++ [v]).
Proof.
  induction l as [|x l IH]; intros Hadj Hne Hlast; [congruence|].
  destruct l as [|y l'].
  - cbn in Hlast |- *. split; [exact Hlast | exact I].
  - destruct Hadj as [Hxy Hadj]. cbn [app]. split; [exact Hxy|].
    apply IH; [exact Hadj | discriminate | exact Hlast].
Qed.

Lemma adjacent_differ_nth (l : list Z) (j : nat) (a b : Z) :
  adjacent_differ l ->
  nth_error l j = Some a -> nth_error l (S j) = Some b -> a <> b.
Proof.
  revert j. induction l as [|x l IH]; intros j Hadj Ha Hb.
  - now destruct j.
  - destruct l as [|y l']; [destruct j; discriminate|].
    destruct Hadj as [Hxy Hadj]. destruct j as [|j].
    + cbn in Ha, Hb. congruence.
    + exact (IH j Hadj Ha Hb).
Qed.

Lemma runs_start (lo : Z) (a : list Z) :
  a <> [] -> Forall (fun c => lo <= hd 0 c) (runs lo a).
Proof.
  intros Hne. apply Forall_forall. intros c Hc.
  apply In_nth_error in Hc. destruct Hc as (j & Hj).
  destruct (good_runs_values _ _ _ _ _ (runs_good a lo Hne) Hj)
    as (s & n & v & -> & Hs & _).
  now rewrite zseq_S.
Qed.

Lemma runs_first (lo : Z) (a : list Z) :
  a <> [] -> exists g gs, runs lo a = g :: gs /\ hd 0 g = lo.
Proof.
  intros Hne. pose proof (runs_good a lo Hne) as Hg.
  destruct (runs lo a) as [|g gs]; [contradiction|].
  destruct Hg as (n & v & -> & _). exists (zseq lo (S n)), gs.
  split; [reflexivity|]. now rewrite zseq_S.
Qed.

Lemma schedule_values_run_values (min_dim : Z) (a : list Z) :
  a <> [] -> schedule_values min_dim a = run_values a.
Proof.
  unfold schedule_values, scheduled. revert min_dim.
  induction a as [|x r IH]; intros lo Hne; [congruence|].
  destruct r as [|y r'].
  - cbn [runs map run_values hd]. now rewrite Z.sub_diag.
  - assert (Hr : y :: r' <> []) by discriminate.
    specialize (IH (lo + 1) Hr).
    assert (Hshift : forall cs,
               Forall (fun c => lo + 1 <= hd 0 c) cs ->
               map (fun c => nth (Z.to_nat (hd 0 c - lo)) (x :: y :: r') (-1)) cs
               = map (fun c => nth (Z.to_nat (hd 0 c - (lo + 1))) (y :: r') (-1))
                     cs).
    { intros cs Hcs. apply map_ext_in. intros c Hc.
      rewrite Forall_forall in Hcs. specialize (Hcs c Hc).
      replace (Z.to_nat (hd 0 c - lo)) with (S (Z.to_nat (hd 0 c - (lo + 1))))
        by lia.
      reflexivity. }
    pose proof (runs_start (lo + 1) (y :: r') Hr) as Hstart.
    rewrite runs_cons2, run_values_cons2.
    destruct (Z.eqb_spec x y) as [->|Hxy].
    + destruct (runs_first (lo + 1) (y :: r') Hr) as (g & gs & E & Hg).
      rewrite E in IH, Hstart |- *. cbn [cons_to_first map hd].
      rewrite Z.sub_diag. cbn [Z.to_nat nth].
      cbn [map] in IH. rewrite Hg, Z.sub_diag in IH. cbn [Z.to_nat nth] in IH.
      rewrite <- IH. f_equal. apply Hshift. now inversion Hstart.
    + cbn [map hd]. rewrite Z.sub_diag. cbn [Z.to_nat nth]. f_equal.
      rewrite <- IH. now apply Hshift.
Qed.

(** X17. The chunks of [chunk_approx_and_dims] are maximal: on a
    schedule that is not empty, does not end in -1 and fits the range,
    no two consecutive chunks carry the same approximation value, so the
    range is never cut where the value stays the same. *)
Theorem chunk_approx_and_dims_maximal
        (min_dim : Z) (max_dim : option Z) (approximation : list Z) :
  approximation <> [] ->
  last approximation 0 <> -1 ->
  ext_leb (Fin (Z.of_nat (List.length approximation) - 1))
          (ext_add (max_dim_or_inf max_dim) (- min_dim)) = true ->
  exists (dim_chunks : list chunk) (approx_chunks : list Z),
    chunk_approx_and_dims min_dim max_dim approximation
    = Ok (dim_chunks, approx_chunks)
    /\ forall j a b,
         nth_error approx_chunks j = Some a ->
         nth_error approx_chunks (S j) = Some b ->
         a <> b.
Proof.
  intros Hne Hlast Hfits.
  eexists. eexists.
  split; [apply (chunker_shape min_dim max_dim approximation Hne Hlast Hfits)|].
  intros j a b. apply adjacent_differ_nth.
  rewrite (schedule_values_run_values min_dim approximation Hne).
  destruct approximation as [|x r]; [congruence|].
  unfold beyond_value. destruct (ext_ltb _ _).
  - apply adjacent_differ_snoc.
    + apply run_values_adjacent.
    + destruct (run_values_head x r) as (vs & ->). discriminate.
    + now rewrite run_values_last.
  - rewrite app_nil_r. apply run_values_adjacent.
Qed.

Lemma chunk_approx_and_dims_maximal_witness :
  exists (dim_chunks : list chunk) (approx_chunks : list Z),
    chunk_approx_and_dims 0 (Some 5) [5; 5; 7] = Ok (dim_chunks, approx_chunks)
    /\ forall j a b,
         nth_error approx_chunks j = Some a ->
         nth_error approx_chunks (S j) = Some b ->
         a <> b.
Proof.
  apply (chunk_approx_and_dims_maximal 0 (Some 5) [5; 5; 7]).
  - discriminate.
  - cbn. lia.
  - reflexivity.
Defined.

(* ------------------------------------------------------------------ *)
(** ** Persistent homology: the calls of the weighted solver *)

(** The upper bound of a chunk as [persistence] reads it: -1 stands for
    [np.inf]. *)
Definition read_bound (N : ext) : ext :=
  match N with
  | Fin z => if z =? -1 then Inf else N
  | Inf => N
  end.

(** The call that [persistence] makes for a chunk and its value. *)
Definition chunk_call (adj : csr) (ca : chunk * Z) : weighted_call :=
  mk_weighted_call adj (hd Inf (fst ca))
                   (Some (read_bound (last (fst ca) Inf)))
                   (if snd ca =? -1 then None else Some (snd ca)).

Lemma last_error_value {A : Type} (l : list A) (x d : A) :
  last_error l = Some x -> last l d = x.
Proof.
  induction l as [|y l IH]; [discriminate|].
  destruct l as [|z l']; [now intros [= ->]|].
  rewrite last_error_cons. intros H. now apply IH.
Qed.

Lemma last_error_some {A : Type} (l : list A) (d : A) :
  l <> [] -> last_error l = Some (last l d).
Proof.
  induction l as [|y l IH]; intros Hne; [congruence|].
  destruct l as [|z l']; [reflexivity|].
  rewrite last_error_cons. apply IH. discriminate.
Qed.

Lemma py_index_first {A : Type} (l : list A) (d : A) :
  l <> [] -> py_index l 0 = Ok (hd d l).
Proof.
  intros Hne. destruct l as [|x l]; [congruence|].
  now apply (py_index_nth (x :: l) 0 x).
Qed.

Lemma tiles_read (cs : list chunk) (lo : Z) (hi : ext) :
  tiles lo hi cs -> 0 <= lo ->
  Forall (fun c => c <> [] /\ read_bound (last c Inf) = last c Inf) cs.
Proof.
  revert lo. induction cs as [|c rest IH]; intros lo Ht Hlo; [constructor|].
  cbn [tiles] in Ht. destruct Ht as [Hhd Ht].
  assert (Hc : c <> []) by (intros ->; discriminate).
  destruct rest as [|c' rest'].
  - destruct Ht as [Hlast Hle]. constructor; [|constructor].
    split; [exact Hc|]. rewrite (last_error_value c hi Inf Hlast).
    destruct hi as [M|]; [|reflexivity]. cbn in Hle. apply Z.leb_le in Hle.
    cbn. now replace (M =? -1) with false by (symmetry; apply Z.eqb_neq; lia).
  - destruct Ht as (N & Hlast & HN & Ht). constructor.
    + split; [exact Hc|]. rewrite (last_error_value c (Fin N) Inf Hlast).
      cbn. now replace (N =? -1) with false by (symmetry; apply Z.eqb_neq; lia).
    + apply (IH (N + 1)); [exact Ht | lia].
Qed.

Section PersistenceCalls.

Variable dgm : Type.
Variable flagser_weighted : weighted_call -> list dgm * list Z.
Variable bin_center : Z -> Z -> Z -> Z -> Z.
Variable invert_weight : Z -> Z -> Z -> Z.

(** The diagrams and the Betti numbers of a list of calls, one call
    after the other. *)
Definition collected (calls : list weighted_call) : list dgm * list Z :=
  (List.concat (map (fun c => fst (flagser_weighted c)) calls),
   List.concat (map (fun c => snd (flagser_weighted c)) calls)).

Lemma persistence_loop_run (adj : csr) (chunks : list (chunk * Z))
      (acc : list weighted_call * (list dgm * list Z)) :
  Forall (fun ca => fst ca <> []) chunks ->
  persistence_loop dgm flagser_weighted adj chunks acc
  = (fst acc ++ map (chunk_call adj) chunks,
     Ok (fst (snd acc) ++ fst (collected (map (chunk_call adj) chunks)),
         snd (snd acc) ++ snd (collected (map (chunk_call adj) chunks)))).
Proof.
  revert acc. induction chunks as [|[c a] rest IH]; intros acc Hall.
  - cbn. rewrite !app_nil_r. now destruct acc as [l [d b]].
  - inversion Hall as [|? ? Hc Hrest]; subst. cbn [fst] in Hc.
    cbn [persistence_loop]. unfold persistence_step.
    rewrite (py_index_first c Inf Hc). cbn [rbind].
    rewrite (py_index_last c _ (last_error_some c Inf Hc)). cbn [rbind].
    rewrite (IH _ Hrest). cbn [fst snd map collected List.concat].
    unfold chunk_call at 1 2 3. cbn [fst snd]. unfold read_bound.
    rewrite <- !app_assoc. reflexivity.
Qed.

(** X18. [persistence] with a list as [approximation] follows the chunks
    of [chunk_approx_and_dims]: for a schedule that is not empty, does
    not end in -1 and fits the range from [min_dim] >= 0 to [max_dim],
    the weighted solver is called once per chunk, in order, from the
    first to the last dimension of the chunk, with the value of the
    chunk as approximation ([None] for -1); the chunks tile the range,
    and the diagrams and Betti numbers returned are those of the calls,
    one after the other. *)
Theorem persistence_calls_follow_chunks
        (weighted_adj adj : csr) (min_dim : Z) (max_dim : option Z)
        (schedule : list Z) (invert binned : bool) (n_bins : Z)
        (return_bettis : bool) :
  prepare_weights bin_center invert_weight weighted_adj invert binned n_bins
  = Ok adj ->
  0 <= min_dim ->
  schedule <> [] ->
  last schedule 0 <> -1 ->
  ext_leb (Fin (Z.of_nat (List.length schedule) - 1))
          (ext_add (max_dim_or_inf max_dim) (- min_dim)) = true ->
  exists (dim_chunks : list chunk) (approx_chunks : list Z),
    chunk_approx_and_dims min_dim max_dim schedule
    = Ok (dim_chunks, approx_chunks)
    /\ List.length approx_chunks = List.length dim_chunks
    /\ tiles min_dim (max_dim_or_inf max_dim) dim_chunks
    /\ Forall (fun c => read_bound (last c Inf) = last c Inf) dim_chunks
    /\ let calls := map (chunk_call adj) (combine dim_chunks approx_chunks) in
       persistence dgm flagser_weighted bin_center invert_weight
                   weighted_adj min_dim max_dim (ApproxList schedule)
                   invert binned n_bins return_bettis
       = (calls,
          Ok (fst (collected calls),
              if return_bettis then Some (snd (collected calls)) else None)).
Proof.
  intros Hprep Hmin Hne Hlast Hfits.
  pose proof (chunker_shape min_dim max_dim schedule Hne Hlast Hfits) as Hshape.
  pose proof (all_tiles min_dim max_dim schedule Hne Hfits) as Htiles.
  pose proof (tiles_read _ _ _ Htiles Hmin) as Hread.
  eexists. eexists. split; [exact Hshape|].
  split; [|split; [exact Htiles|split]].
  - rewrite !length_app. unfold schedule_chunks, schedule_values.
    rewrite !length_map. f_equal. unfold beyond, beyond_value.
    now destruct (ext_ltb _ _).
  - eapply Forall_impl; [|exact Hread]. now intros c [_ H].
  - cbv zeta. unfold persistence. rewrite Hprep, Hshape.
    rewrite persistence_loop_run.
    + cbn [fst snd app rbind]. reflexivity.
    + apply Forall_forall. intros [c a] Hin. cbn [fst].
      apply in_combine_l in Hin. rewrite Forall_forall in Hread.
      now apply Hread.
Qed.

End PersistenceCalls.

(** A weighted solver stand-in: no diagram, and the lowest dimension of
    the call as its one Betti number. *)
Definition echo_weighted (c : weighted_call) : list unit * list Z :=
  ([], [match wc_min_dimension c with Fin z => z | Inf => -1 end]).

Definition no_inversion (_ _ w : Z) : Z := w.

Lemma persistence_calls_follow_chunks_witness :
  persistence unit echo_weighted no_binning no_inversion two_weights 0 (Some 5)
              (ApproxList [5; 5; 7]) false false 10 true
  = ([mk_weighted_call two_weights (Fin 0) (Some (Fin 1)) (Some 5);
      mk_weighted_call two_weights (Fin 2) (Some (Fin 2)) (Some 7);
      mk_weighted_call two_weights (Fin 3) (Some (Fin 5)) None],
     Ok ([], Some [0; 2; 3])).
Proof.
  destruct (persistence_calls_follow_chunks unit echo_weighted no_binning
              no_inversion two_weights two_weights 0 (Some 5) [5; 5; 7]
              false false 10 true eq_refl)
    as (dcs & acs & Hrun & _ & _ & _ & Hcalls).
  - lia.
  - discriminate.
  - cbn. lia.
  - reflexivity.
  - injection Hrun as <- <-. exact Hcalls.
Defined.

(* ---------------------------------------------------------------- *)
(** *** A schedule that ends in -1 *)

Lemma runs_nonempty (lo : Z) (a : list Z) : runs lo a <> [].
Proof.
  destruct a as [|x r]; [discriminate|].
  destruct (runs_first lo (x :: r)) as (g & gs & -> & _); discriminate.
Qed.

Lemma last_error_cons_to_first {A : Type} (x : A) (g : list A)
      (gs : list (list A)) :
  last_error (cons_to_first x (g :: gs))
  = match gs with
    | [] => Some (x :: g)
    | _ :: _ => last_error (g :: gs)
    end.
Proof. destruct gs; reflexivity. Qed.

(** A schedule whose last two entries are equal ends in a run of two or
    more dimensions. *)
Lemma runs_last_two (lo v : Z) (prefix : list Z) :
  exists s n,
    last_error (runs lo (prefix ++ [v; v])) = Some (zseq s (S (S n))).
Proof.
  revert lo. induction prefix as [|x p IH]; intros lo.
  - exists lo, 0%nat. cbn [app]. rewrite runs_cons2, Z.eqb_refl.
    cbn [runs cons_to_first last_error]. now rewrite !zseq_S.
  - destruct (IH (lo + 1)) as (s & n & Hlast).
    assert (Hr : p ++ [v; v] <> []) by (destruct p; discriminate).
    destruct (p ++ [v; v]) as [|y r] eqn:E; [congruence|].
    cbn [app]. rewrite E, runs_cons2.
    destruct (runs_first (lo + 1) (y :: r) Hr) as (g & gs & Eg & Hg).
    rewrite Eg in Hlast |- *. destruct (x =? y).
    + rewrite last_error_cons_to_first. destruct gs as [|g' gs'].
      * injection Hlast as ->. rewrite zseq_S in Hg. cbn [hd] in Hg. subst s.
        exists lo, (S n). now rewrite (zseq_S lo).
      * exists s, n. exact Hlast.
    + exists s, n. rewrite last_error_cons. exact Hlast.
Qed.

Lemma combine_snoc {A B : Type} (l : list A) (l' : list B) (x : A) (y : B) :
  List.length l = List.length l' ->
  combine (l ++ [x]) (l' ++ [y]) = combine l l' ++ [(x, y)].
Proof.
  revert l'. induction l as [|a l IH]; intros [|b l'] H; try discriminate.
  - reflexivity.
  - cbn [app combine]. f_equal. apply IH. now injection H.
Qed.

Section ExactTail.

Variable dgm : Type.
Variable flagser_weighted : weighted_call -> list dgm * list Z.
Variable bin_center : Z -> Z -> Z -> Z -> Z.
Variable invert_weight : Z -> Z -> Z -> Z.

(** X19. When the schedule ends in two or more entries -1, [persistence]
    makes its last call without approximation and without upper bound:
    the last dimension of the last chunk is the mark -1, which is read
    as [np.inf], so [max_dim] does not limit the computation. *)
Theorem persistence_exact_tail_unbounded
        (weighted_adj adj : csr) (min_dim : Z) (max_dim : option Z)
        (prefix : list Z) (invert binned : bool) (n_bins : Z)
        (return_bettis : bool) :
  let schedule := prefix ++ [-1; -1] in
  prepare_weights bin_center invert_weight weighted_adj invert binned n_bins
  = Ok adj ->
  ext_leb (Fin (Z.of_nat (List.length schedule) - 1))
          (ext_add (max_dim_or_inf max_dim) (- min_dim)) = true ->
  let run := persistence dgm flagser_weighted bin_center invert_weight
                         weighted_adj min_dim max_dim (ApproxList schedule)
                         invert binned n_bins return_bettis in
  is_ok (snd run) = true
  /\ exists first_dim,
       last_error (fst run)
       = Some (mk_weighted_call adj (Fin first_dim) (Some Inf) None).
Proof.
  intros schedule Hprep Hfits run.
  assert (Hne : schedule <> []) by (unfold schedule; destruct prefix; discriminate).
  assert (Hlast : last schedule 0 = -1).
  { unfold schedule. change (prefix ++ [-1; -1]) with (prefix ++ [-1] ++ [-1]).
    rewrite app_assoc. apply last_last. }
  destruct (runs_last_two min_dim (-1) prefix) as (s & n & Hrun).
  fold schedule in Hrun.
  pose proof (chunk_approx_and_dims_exact_tail min_dim max_dim schedule s n
                Hne Hlast Hfits Hrun) as Hshape.
  set (tail := map Fin (zseq s (S n)) ++ [Fin (-1)]) in Hshape.
  assert (Hc : last_error (schedule_chunks min_dim schedule)
               = Some (map Fin (zseq s (S (S n))))).
  { unfold schedule_chunks. now apply last_error_map. }
  pose proof (last_error_snoc _ _ Hc) as Hchunks.
  assert (Hvals : schedule_values min_dim schedule
                  = removelast (schedule_values min_dim schedule) ++ [-1]).
  { assert (Hv : last_error (schedule_values min_dim schedule) = Some (-1)).
    { rewrite (schedule_values_run_values min_dim schedule Hne).
      destruct schedule as [|x r] eqn:E; [congruence|].
      destruct (run_values_head x r) as (vs & Evs).
      rewrite (last_error_some (run_values (x :: r)) 0)
        by (rewrite Evs; discriminate).
      now rewrite run_values_last, Hlast. }
    now apply last_error_snoc. }
  assert (Hlen : List.length (removelast (schedule_chunks min_dim schedule))
                 = List.length (removelast (schedule_values min_dim schedule))).
  { apply (f_equal (@List.length chunk)) in Hchunks.
    apply (f_equal (@List.length Z)) in Hvals.
    rewrite length_app in Hchunks, Hvals. cbn [List.length] in Hchunks, Hvals.
    unfold schedule_chunks, schedule_values in *.
    rewrite !length_map in *. lia. }
  assert (Hcomb : combine (set_last (schedule_chunks min_dim schedule) tail)
                          (schedule_values min_dim schedule)
                  = combine (removelast (schedule_chunks min_dim schedule))
                            (removelast (schedule_values min_dim schedule))
                    ++ [(tail, -1)]).
  { unfold set_last. rewrite Hvals at 1. now apply combine_snoc. }
  assert (Hall : Forall (fun ca : chunk * Z => fst ca <> [])
                        (combine (set_last (schedule_chunks min_dim schedule) tail)
                                 (schedule_values min_dim schedule))).
  { apply Forall_forall. intros [c a] Hin. cbn [fst].
    apply in_combine_l in Hin. unfold set_last in Hin.
    apply in_app_or in Hin. destruct Hin as [Hin|[<-|[]]].
    - assert (Hin' : In c (schedule_chunks min_dim schedule)).
      { rewrite Hchunks. apply in_or_app. now left. }
      unfold schedule_chunks in Hin'. apply in_map_iff in Hin'.
      destruct Hin' as (r & <- & Hr).
      apply In_nth_error in Hr. destruct Hr as (j & Hj).
      destruct (good_runs_values _ _ _ _ _ (runs_good schedule min_dim Hne) Hj)
        as (s' & n' & v & -> & _).
      rewrite zseq_S. discriminate.
    - unfold tail. destruct (map Fin (zseq s (S n))); discriminate. }
  unfold run, persistence. rewrite Hprep, Hshape.
  rewrite (persistence_loop_run dgm flagser_weighted adj _ _ Hall).
  cbn [fst snd app rbind is_ok]. split; [reflexivity|].
  exists s. rewrite Hcomb, map_app. cbn [map]. rewrite last_error_app.
  f_equal. unfold chunk_call, tail. cbn [fst snd].
  rewrite zseq_S. cbn [map app hd]. rewrite app_comm_cons, last_last.
  reflexivity.
Qed.

End ExactTail.

Lemma persistence_exact_tail_unbounded_witness :
  is_ok (snd (persistence unit echo_weighted no_binning no_inversion
                          two_weights 0 (Some 3) (ApproxList [5; -1; -1])
                          false false 10 true)) = true
  /\ exists first_dim,
       last_error (fst (persistence unit echo_weighted no_binning no_inversion
                                    two_weights 0 (Some 3)
                                    (ApproxList [5; -1; -1])
                                    false false 10 true))
       = Some (mk_weighted_call two_weights (Fin first_dim) (Some Inf) None).
Proof.
  exact (persistence_exact_tail_unbounded unit echo_weighted no_binning
           no_inversion two_weights two_weights 0 (Some 3) [5]
           false false 10 true eq_refl eq_refl).
Defined.

(* ------------------------------------------------------------------ *)
(** ** The older Betti counts: one solver call per run of the schedule *)

(** [None] for the value -1, "exact". *)
Definition exactness (a : Z) : option Z := if a =? -1 then None else Some a.

(** What the solver answers to a call. *)
Definition answer (flagser_unweighted : csr -> Z -> ext -> option Z -> list Z)
           (e : event) : list Z :=
  match e with
  | CallFlagserUnweighted adj n N a => flagser_unweighted adj n N a
  | _ => []
  end.

(** The call for a range of dimensions on which the schedule is
    constant. *)
Definition range_call (adj : csr) (schedule : list Z) (r : list Z) : event :=
  CallFlagserUnweighted (astype_int (astype_bool adj)) (hd 0 r) (Fin (last r 0))
                        (exactness (scheduled 0 schedule (hd 0 r))).

Lemma fit_length (m : Z) (schedule : list Z) :
  0 <= m ->
  Z.of_nat (List.length (fit_approximation (Fin m) schedule)) = m + 1.
Proof.
  intros Hm. unfold fit_approximation.
  destruct (Z.ltb_spec (Z.of_nat (List.length schedule) - 1) m) as [Hlt|Hge].
  - rewrite length_app, repeat_length.
    replace (Z.of_nat (List.length schedule
                       + Z.to_nat (m - (Z.of_nat (List.length schedule) - 1)))
             - 1 >? m) with false by (symmetry; rewrite Z.gtb_ltb; apply Z.ltb_ge; lia).
    rewrite length_app, repeat_length. lia.
  - destruct (Z.gtb_spec (Z.of_nat (List.length schedule) - 1) m) as [Hgt|Hle].
    + unfold py_slice_to.
      replace (m + 1 <? 0) with false by (symmetry; apply Z.ltb_ge; lia).
      rewrite length_firstn. lia.
    + lia.
Qed.

Lemma fit_values (m d : Z) (schedule : list Z) :
  0 <= d <= m ->
  nth (Z.to_nat d) (fit_approximation (Fin m) schedule) (-1)
  = scheduled 0 schedule d.
Proof.
  intros Hd. unfold scheduled. rewrite Z.sub_0_r. unfold fit_approximation.
  assert (Hpad : forall k j,
             nth k (schedule ++ repeat (-1) j) (-1) = nth k schedule (-1)).
  { intros k j. destruct (Nat.lt_ge_cases k (List.length schedule)) as [H|H].
    - now apply app_nth1.
    - rewrite app_nth2 by lia. rewrite nth_repeat.
      symmetry. now apply nth_overflow. }
  destruct (Z.ltb_spec (Z.of_nat (List.length schedule) - 1) m) as [Hlt|Hge].
  - rewrite length_app, repeat_length.
    replace (Z.of_nat (List.length schedule
                       + Z.to_nat (m - (Z.of_nat (List.length schedule) - 1)))
             - 1 >? m) with false by (symmetry; rewrite Z.gtb_ltb; apply Z.ltb_ge; lia).
    apply Hpad.
  - destruct (Z.gtb_spec (Z.of_nat (List.length schedule) - 1) m) as [Hgt|Hle];
      [|reflexivity].
    unfold py_slice_to.
    replace (m + 1 <? 0) with false by (symmetry; apply Z.ltb_ge; lia).
    rewrite nth_firstn.
    now replace (Z.to_nat d <? Z.to_nat (m + 1))%nat with true
      by (symmetry; apply Nat.ltb_lt; lia).
Qed.

Lemma range_in_schedule (fitted : list Z) (r : list Z) :
  fitted <> [] -> In r (runs 0 fitted) ->
  exists s n,
    r = zseq s (S n) /\ 0 <= s
    /\ s + Z.of_nat n < Z.of_nat (List.length fitted)
    /\ forall d, s <= d <= s + Z.of_nat n ->
                 nth (Z.to_nat d) fitted (-1) = nth (Z.to_nat s) fitted (-1).
Proof.
  intros Hne Hin. apply In_nth_error in Hin. destruct Hin as (j & Hj).
  destruct (good_runs_values _ _ _ _ _ (runs_good fitted 0 Hne) Hj)
    as (s & n & v & -> & Hs & Hv).
  exists s, n. split; [reflexivity|]. split; [exact Hs|].
  assert (Hval : forall d, s <= d <= s + Z.of_nat n ->
                           nth_error fitted (Z.to_nat d) = Some v).
  { intros d Hd. specialize (Hv d Hd). now rewrite Z.sub_0_r in Hv. }
  split.
  - assert (Hlast : nth_error fitted (Z.to_nat (s + Z.of_nat n)) = Some v)
      by (apply Hval; lia).
    assert (Hlt : (Z.to_nat (s + Z.of_nat n) < List.length fitted)%nat)
      by (apply nth_error_Some; congruence).
    lia.
  - intros d Hd.
    rewrite (nth_error_nth _ _ _ (Hval d Hd)).
    now rewrite (nth_error_nth _ _ _ (Hval s ltac:(lia))).
Qed.

Lemma zseq_last_value (s : Z) (n : nat) :
  last (zseq s (S n)) 0 = s + Z.of_nat n.
Proof. rewrite zseq_snoc. apply last_last. Qed.

Section LibraryBetti.

Variable flagser_unweighted : csr -> Z -> ext -> option Z -> list Z.

(** The events of one turn of the loop: the message, then the call. *)
Definition range_events (adj : csr) (fitted : list Z) (r : list Z)
  : list event :=
  [Print (Library.run_message
            (Library.str_Z (hd 0 r)) (Library.str_Z (last r 0))
            (Library.str_opt (exactness (nth (Z.to_nat (hd 0 r)) fitted (-1)))));
   CallFlagserUnweighted adj (hd 0 r) (Fin (last r 0))
                         (exactness (nth (Z.to_nat (hd 0 r)) fitted (-1)))].

Lemma library_betti_loop_run (adj : csr) (fitted : list Z)
      (ranges : list (list Z)) (bettis : list Z) :
  Forall (fun r => r <> []
                   /\ 0 <= hd 0 r < Z.of_nat (List.length fitted)) ranges ->
  Library.betti_loop flagser_unweighted adj fitted ranges bettis
  = (flat_map (range_events adj fitted) ranges,
     Ok (bettis
         ++ List.concat
              (map (fun r => flagser_unweighted adj (hd 0 r) (Fin (last r 0))
                               (exactness (nth (Z.to_nat (hd 0 r)) fitted (-1))))
                   ranges))).
Proof.
  revert bettis. induction ranges as [|r rest IH]; intros bettis Hall.
  - cbn. now rewrite app_nil_r.
  - inversion Hall as [|? ? [Hr Hhd] Hrest]; subst.
    cbn [Library.betti_loop]. unfold Library.betti_of_range.
    rewrite (py_index_first r 0 Hr).
    rewrite (py_index_last r _ (last_error_some r 0 Hr)).
    assert (Hidx : py_index fitted (hd 0 r)
                   = Ok (nth (Z.to_nat (hd 0 r)) fitted (-1))).
    { replace (hd 0 r) with (Z.of_nat (Z.to_nat (hd 0 r))) at 1 by lia.
      apply py_index_nth. apply nth_error_nth'. lia. }
    unfold call_flagser_unweighted. unfold lift, emit, tret.
    cbn [tbind app]. rewrite Hidx. cbn [tbind app]. rewrite (IH _ Hrest).
    cbn [flat_map map List.concat range_events app].
    unfold exactness. now rewrite <- app_assoc.
Qed.

Lemma solver_calls_ranges (adj : csr) (fitted : list Z)
      (ranges : list (list Z)) :
  filter is_solver_call (flat_map (range_events adj fitted) ranges)
  = map (fun r => CallFlagserUnweighted adj (hd 0 r) (Fin (last r 0))
                    (exactness (nth (Z.to_nat (hd 0 r)) fitted (-1))))
        ranges.
Proof.
  induction ranges as [|r rest IH]; [reflexivity|].
  cbn [flat_map range_events app filter is_solver_call map]. now rewrite IH.
Qed.

(** X20. [betti_counts] of [library/topology.py] with a schedule and a
    bound [max_dim] >= 0: the schedule is padded with -1 or cut to the
    dimensions 0 .. [max_dim], and the solver is called once for each
    maximal run of equal values, from the first to the last dimension of
    the run, with that value as approximation ([None] for -1).  The runs
    tile 0 .. [max_dim], the result is the concatenation of the answers,
    and [min_dim] plays no part. *)
Theorem library_betti_counts_schedule
        (adj : csr) (min_dim m : Z) (schedule : list Z) :
  0 <= m ->
  let run := Library.betti_counts flagser_unweighted adj min_dim (Some m)
                                  (Some schedule) in
  let ranges := runs 0 (fit_approximation (Fin m) schedule) in
  solver_calls run = map (range_call adj schedule) ranges
  /\ outcome run
     = Ok (List.concat (map (answer flagser_unweighted) (solver_calls run)))
  /\ tiles 0 (Fin m) (map (map Fin) ranges)
  /\ forall r d,
       In r ranges -> covers d (map Fin r) = true ->
       0 <= d <= m
       /\ scheduled 0 schedule d = scheduled 0 schedule (hd 0 r).
Proof.
  intros Hm run ranges.
  set (fitted := fit_approximation (Fin m) schedule) in *.
  pose proof (fit_length m schedule Hm) as Hlen. fold fitted in Hlen.
  assert (Hne : fitted <> []).
  { intros E. rewrite E in Hlen. cbn in Hlen. lia. }
  assert (Hranges : forall r, In r ranges ->
            exists s n,
              r = zseq s (S n) /\ 0 <= s /\ s + Z.of_nat n <= m
              /\ forall d, s <= d <= s + Z.of_nat n ->
                           scheduled 0 schedule d = scheduled 0 schedule s).
  { intros r Hr.
    destruct (range_in_schedule fitted r Hne Hr) as (s & n & -> & Hs & Hn & Hv).
    exists s, n. split; [reflexivity|]. split; [exact Hs|]. split; [lia|].
    intros d Hd. unfold fitted in Hv.
    rewrite <- !(fit_values m) by lia. now apply Hv. }
  assert (Hall : Forall (fun r => r <> []
                           /\ 0 <= hd 0 r < Z.of_nat (List.length fitted))
                        ranges).
  { apply Forall_forall. intros r Hr.
    destruct (Hranges r Hr) as (s & n & -> & Hs & Hn & _).
    rewrite zseq_S. cbn [hd]. split; [discriminate | lia]. }
  assert (Hcalls : map (fun r => CallFlagserUnweighted (astype_int (astype_bool adj))
                                   (hd 0 r) (Fin (last r 0))
                                   (exactness (nth (Z.to_nat (hd 0 r)) fitted (-1))))
                       ranges
                   = map (range_call adj schedule) ranges).
  { apply map_ext_in. intros r Hr.
    destruct (Hranges r Hr) as (s & n & -> & Hs & Hn & _).
    unfold range_call. rewrite zseq_S. cbn [hd]. unfold fitted.
    now rewrite (fit_values m s) by lia. }
  assert (Hrun : run
                 = (Print ("Correct dimensions for approximation: "
                           ++ Library.str_bool
                                (Z.of_nat (List.length fitted) =? m + 1))
                    :: flat_map (range_events (astype_int (astype_bool adj)) fitted) ranges,
                    Ok (List.concat
                          (map (fun r => flagser_unweighted (astype_int (astype_bool adj))
                                           (hd 0 r) (Fin (last r 0))
                                           (exactness
                                              (nth (Z.to_nat (hd 0 r)) fitted (-1))))
                               ranges)))).
  { unfold run, Library.betti_counts. cbn [max_dim_or_inf]. fold fitted.
    pose proof (np_split_runs 0 fitted) as Hsplit.
    rewrite map_ext with (g := fun i => i) in Hsplit by (intros; lia).
    rewrite map_id in Hsplit. rewrite Hsplit. fold ranges.
    rewrite (library_betti_loop_run (astype_int (astype_bool adj)) fitted ranges [] Hall).
    unfold emit, tret. cbn [tbind app]. now rewrite app_nil_r. }
  split; [|split; [|split]].
  - rewrite Hrun. unfold solver_calls, events. cbn [fst filter is_solver_call].
    now rewrite solver_calls_ranges.
  - rewrite Hrun. unfold solver_calls, events, outcome.
    cbn [fst snd filter is_solver_call]. rewrite solver_calls_ranges.
    now rewrite map_map.
  - pose proof (good_runs_tiles _ 0 fitted Hne (runs_good fitted 0 Hne)) as Ht.
    replace (0 + Z.of_nat (List.length fitted) - 1) with m in Ht by lia.
    exact Ht.
  - intros r d Hr Hcov.
    destruct (Hranges r Hr) as (s & n & -> & Hs & Hn & Hv).
    apply covers_zseq in Hcov. rewrite zseq_S. cbn [hd].
    split; [lia|]. now apply Hv.
Qed.

End LibraryBetti.

(** A solver stand-in that answers with the bounds of the call. *)
Definition echo_unweighted (_ : csr) (n : Z) (N : ext) (_ : option Z) : list Z :=
  [n; match N with Fin z => z | Inf => -1 end].

Lemma library_betti_counts_schedule_witness :
  solver_calls (Library.betti_counts echo_unweighted two_weights 7 (Some 4)
                                     (Some [1; 1; 2]))
  = [CallFlagserUnweighted (astype_int (astype_bool two_weights)) 0 (Fin 1) (Some 1);
     CallFlagserUnweighted (astype_int (astype_bool two_weights)) 2 (Fin 2) (Some 2);
     CallFlagserUnweighted (astype_int (astype_bool two_weights)) 3 (Fin 4) None]
  /\ outcome (Library.betti_counts echo_unweighted two_weights 7 (Some 4)
                                   (Some [1; 1; 2]))
     = Ok [0; 1; 2; 2; 3; 4].
Proof.
  destruct (library_betti_counts_schedule echo_unweighted two_weights 7 4
              [1; 1; 2]) as (Hcalls & Hout & _).
  - lia.
  - split; [exact Hcalls | exact Hout].
Defined.

(* ------------------------------------------------------------------ *)
(** ** Tools for persistence: bars alive at a threshold, Betti curves *)

Definition ext_lt (a b : ext) : Prop := ext_ltb a b = true.

Lemma ext_eqb_eq (a b : ext) : ext_eqb a b = true <-> a = b.
Proof.
  destruct a as [x|], b as [y|]; cbn; split; try discriminate; try reflexivity.
  - intros H. apply Z.eqb_eq in H. now subst.
  - intros [= ->]. apply Z.eqb_refl.
Qed.

Lemma ext_leb_trans (a b c : ext) :
  ext_leb a b = true -> ext_leb b c = true -> ext_leb a c = true.
Proof.
  destruct a as [x|], b as [y|], c as [z|]; cbn; try discriminate;
    try reflexivity.
  rewrite !Z.leb_le. lia.
Qed.

Lemma ext_ltb_leb (a b : ext) : ext_ltb a b = true -> ext_leb a b = true.
Proof.
  destruct a as [x|], b as [y|]; cbn; try discriminate; try reflexivity.
  rewrite Z.ltb_lt, Z.leb_le. lia.
Qed.

Lemma ext_lt_trans (a b c : ext) : ext_lt a b -> ext_lt b c -> ext_lt a c.
Proof.
  unfold ext_lt. destruct a as [x|], b as [y|], c as [z|]; cbn;
    try discriminate; try reflexivity.
  rewrite !Z.ltb_lt. lia.
Qed.

Lemma ext_not_lt_eq (a b : ext) :
  ext_ltb a b = false -> ext_eqb a b = false -> ext_lt b a.
Proof.
  unfold ext_lt. destruct a as [x|], b as [y|]; cbn; try discriminate;
    try reflexivity.
  rewrite !Z.ltb_ge, Z.eqb_neq, Z.ltb_lt. lia.
Qed.

Lemma ext_insert_unique_In (x y : ext) (l : list ext) :
  In y (ext_insert_unique x l) <-> y = x \/ In y l.
Proof.
  induction l as [|z l IH]; cbn [ext_insert_unique In].
  - intuition.
  - destruct (ext_ltb x z); cbn [In]; [intuition|].
    destruct (ext_eqb x z) eqn:E; cbn [In].
    + apply ext_eqb_eq in E. subst z. intuition.
    + rewrite IH. intuition.
Qed.

Lemma ext_insert_unique_sorted (x : ext) (l : list ext) :
  StronglySorted ext_lt l -> StronglySorted ext_lt (ext_insert_unique x l).
Proof.
  induction 1 as [|z l Hs IH Hz]; cbn [ext_insert_unique].
  - constructor; constructor.
  - destruct (ext_ltb x z) eqn:Hlt.
    + constructor; [now constructor|].
      constructor; [exact Hlt|].
      eapply Forall_impl; [|exact Hz]. intros a Ha.
      exact (ext_lt_trans x z a Hlt Ha).
    + destruct (ext_eqb x z) eqn:Heq; [now constructor|].
      constructor; [exact IH|].
      apply Forall_forall. intros a Ha. apply ext_insert_unique_In in Ha.
      destruct Ha as [->|Ha].
      * now apply ext_not_lt_eq.
      * rewrite Forall_forall in Hz. now apply Hz.
Qed.

Lemma ext_unique_sorted (xs : list ext) : StronglySorted ext_lt (ext_unique xs).
Proof.
  induction xs as [|x xs IH]; [constructor|].
  now apply ext_insert_unique_sorted.
Qed.

Lemma ext_unique_In (x : ext) (xs : list ext) :
  In x (ext_unique xs) <-> In x xs.
Proof.
  induction xs as [|y xs IH]; [reflexivity|].
  cbn [ext_unique fold_right In]. fold (ext_unique xs).
  rewrite ext_insert_unique_In, IH. intuition.
Qed.

Lemma sorted_filter (p : ext -> bool) (l : list ext) :
  StronglySorted ext_lt l -> StronglySorted ext_lt (filter p l).
Proof.
  induction 1 as [|z l Hs IH Hz]; [constructor|]. cbn [filter].
  destruct (p z); [|exact IH]. constructor; [exact IH|].
  apply Forall_forall. intros a Ha. apply filter_In in Ha.
  rewrite Forall_forall in Hz. now apply Hz.
Qed.

Lemma sorted_last_greatest (l : list ext) (x d : ext) :
  StronglySorted ext_lt l -> In x l -> ext_leb x (last l d) = true.
Proof.
  intros Hs. revert x. induction Hs as [|z l Hs IH Hz]; intros x Hin;
    [contradiction|].
  rewrite Forall_forall in Hz. destruct l as [|y l'].
  - destruct Hin as [<-|[]]. cbn. destruct z; cbn; [apply Z.leb_refl | reflexivity].
  - change (last (z :: y :: l') d) with (last (y :: l') d).
    destruct Hin as [<-|Hin]; [|now apply IH].
    apply (ext_leb_trans z y).
    + apply ext_ltb_leb. apply Hz. now left.
    + apply IH. now left.
Qed.

Definition finite (v : ext) : bool := negb (ext_eqb v Inf).

(** The number of [True] in a boolean array. *)
Definition count_true (bs : list bool) : nat := count_occ Bool.bool_dec bs true.

Lemma count_true_cons (b : bool) (bs : list bool) :
  count_true (b :: bs) = ((if b then 1 else 0) + count_true bs)%nat.
Proof. unfold count_true. now destruct b. Qed.

(** A bar is alive at a threshold when it is born by then and has not
    died by then. *)
Definition alive (thresh : ext) (bar : ext * ext) : bool :=
  ext_leb (fst bar) thresh && negb (ext_leb (snd bar) thresh).

(** X21. [num_cycles] counts the bars alive at the threshold: when [B]
    and [D] hold the births and the deaths of the same bars, and no bar
    dies before it is born, the result is the number of bars born at or
    before the threshold that have not died at or before it, so it is
    never negative. *)
Theorem num_cycles_counts_alive_bars (B D : list ext) (thresh : ext) :
  List.length B = List.length D ->
  Forall (fun bar => ext_leb (fst bar) (snd bar) = true) (combine B D) ->
  num_cycles B D thresh
  = Z.of_nat (List.length (filter (alive thresh) (combine B D)))
  /\ 0 <= num_cycles B D thresh.
Proof.
  intros Hlen Hall.
  assert (H : num_cycles B D thresh
              = Z.of_nat (List.length (filter (alive thresh) (combine B D)))).
  { unfold num_cycles. fold (count_true (map (fun b => ext_leb b thresh) B)).
    fold (count_true (map (fun d => ext_leb d thresh) D)).
    revert D Hlen Hall. induction B as [|b B IH]; intros [|d D] Hlen Hall;
      try discriminate; [reflexivity|].
    cbn [map combine filter]. rewrite !count_true_cons.
    inversion Hall as [|? ? Hbd Hrest]; subst. cbn [fst snd] in Hbd.
    specialize (IH D ltac:(now injection Hlen) Hrest).
    unfold alive at 1. cbn [fst snd].
    destruct (ext_leb b thresh) eqn:Eb; destruct (ext_leb d thresh) eqn:Ed;
      cbn [andb negb List.length]; try lia.
    rewrite (ext_leb_trans b d thresh Hbd Ed) in Eb. discriminate. }
  split; [exact H | rewrite H; lia].
Qed.

Lemma num_cycles_counts_alive_bars_witness :
  num_cycles [Fin 0; Fin 1; Fin 1] [Fin 2; Inf; Fin 3] (Fin 2) = 2
  /\ 0 <= num_cycles [Fin 0; Fin 1; Fin 1] [Fin 2; Inf; Fin 3] (Fin 2).
Proof.
  apply (num_cycles_counts_alive_bars [Fin 0; Fin 1; Fin 1]
           [Fin 2; Inf; Fin 3] (Fin 2)).
  - reflexivity.
  - repeat constructor.
Defined.

Lemma thresholds_sorted (B D : list ext) :
  StronglySorted ext_lt (fst (betti_curve B D)).
Proof. apply sorted_filter, ext_unique_sorted. Qed.

Lemma thresholds_In (B D : list ext) (v : ext) :
  In v (fst (betti_curve B D)) <-> In v (B ++ D) /\ v <> Inf.
Proof.
  unfold betti_curve. cbn [fst]. rewrite filter_In, ext_unique_In. split.
  - intros [Hin Hf]. split; [exact Hin|]. intros ->. discriminate.
  - intros [Hin Hf]. split; [exact Hin|]. destruct v; [reflexivity | congruence].
Qed.

(** X22. The thresholds of [betti_curve] are the finite values among the
    births and deaths, each of them once, in strictly increasing order,
    and the curve has one value per threshold, the result of
    [num_cycles] there. *)
Theorem betti_curve_thresholds (B D : list ext) :
  let thresholds := fst (betti_curve B D) in
  let values := snd (betti_curve B D) in
  StronglySorted ext_lt thresholds
  /\ (forall v, In v thresholds <-> In v (B ++ D) /\ v <> Inf)
  /\ List.length values = List.length thresholds
  /\ forall k t, nth_error thresholds k = Some t ->
                 nth_error values k = Some (num_cycles B D t).
Proof.
  cbv zeta. split; [|split; [|split]].
  - apply thresholds_sorted.
  - apply thresholds_In.
  - unfold betti_curve. cbn [fst snd]. apply length_map.
  - unfold betti_curve. cbn [fst snd]. intros k t Hk.
    now rewrite nth_error_map, Hk.
Qed.

Lemma count_true_all (f : ext -> bool) (l : list ext) :
  (forall x, In x l -> f x = true) -> count_true (map f l) = List.length l.
Proof.
  induction l as [|x l IH]; intros H; [reflexivity|].
  cbn [map List.length]. rewrite count_true_cons, (H x) by now left.
  rewrite IH; [reflexivity|]. intros y Hy. apply H. now right.
Qed.

Lemma count_true_ext (f g : ext -> bool) (l : list ext) :
  (forall x, In x l -> f x = g x) -> count_true (map f l) = count_true (map g l).
Proof.
  induction l as [|x l IH]; intros H; [reflexivity|].
  cbn [map]. rewrite !count_true_cons, (H x) by now left.
  rewrite IH; [reflexivity|]. intros y Hy. apply H. now right.
Qed.

Lemma count_true_split (f : ext -> bool) (l : list ext) :
  (count_true (map f l) + count_true (map (fun x => negb (f x)) l))%nat
  = List.length l.
Proof.
  induction l as [|x l IH]; [reflexivity|].
  cbn [map List.length]. rewrite !count_true_cons. destruct (f x); cbn; lia.
Qed.

Lemma last_map_nonempty {A B : Type} (f : A -> B) (l : list A) (d : A) (d' : B) :
  l <> [] -> last (map f l) d' = f (last l d).
Proof.
  induction l as [|x l IH]; intros Hne; [congruence|].
  destruct l as [|y l']; [reflexivity|].
  change (last (map f (x :: y :: l')) d') with (last (map f (y :: l')) d').
  change (last (x :: y :: l') d) with (last (y :: l') d).
  apply IH. discriminate.
Qed.

(** X23. A Betti curve ends at the number of bars that never die: when
    [B] and [D] hold the births and deaths of the same bars, there is at
    least one bar and every birth is finite, the last value of
    [betti_curve] is the number of deaths equal to [np.inf]. *)
Theorem betti_curve_ends_at_infinite_bars (B D : list ext) :
  B <> [] ->
  List.length B = List.length D ->
  Forall (fun b => b <> Inf) B ->
  last (snd (betti_curve B D)) 0
  = Z.of_nat (count_true (map (fun d => ext_eqb d Inf) D)).
Proof.
  intros Hne Hlen Hfin.
  pose proof (thresholds_sorted B D) as Hsorted.
  pose proof (thresholds_In B D) as Hmem.
  set (ts := fst (betti_curve B D)) in *.
  assert (Hts : ts <> []).
  { destruct B as [|b B']; [congruence|]. intros E.
    assert (Hin : In b ts).
    { apply Hmem. split; [now left|]. now inversion Hfin. }
    rewrite E in Hin. contradiction. }
  assert (Hsnd : snd (betti_curve B D) = map (num_cycles B D) ts) by reflexivity.
  rewrite Hsnd, (last_map_nonempty (num_cycles B D) ts Inf 0 Hts).
  set (t := last ts Inf).
  assert (Ht : In t ts).
  { pose proof (last_error_some ts Inf Hts) as Hl. fold t in Hl.
    apply last_error_nth in Hl. eapply nth_error_In. exact Hl. }
  assert (Htfin : t <> Inf) by (apply Hmem in Ht; tauto).
  assert (Hle : forall v, In v (B ++ D) ->
                          ext_leb v t = negb (ext_eqb v Inf)).
  { intros v Hv. destruct v as [z|].
    - cbn [ext_eqb negb]. apply (sorted_last_greatest ts (Fin z) Inf Hsorted).
      apply Hmem. split; [exact Hv | discriminate].
    - destruct t as [z|]; [reflexivity | congruence]. }
  unfold num_cycles.
  fold (count_true (map (fun b => ext_leb b t) B)).
  fold (count_true (map (fun d => ext_leb d t) D)).
  rewrite (count_true_all (fun b => ext_leb b t) B).
  2:{ intros b Hb. rewrite Hle by (apply in_or_app; now left).
      rewrite Forall_forall in Hfin. specialize (Hfin b Hb).
      destruct b; [reflexivity | congruence]. }
  rewrite (count_true_ext (fun d => ext_leb d t)
                          (fun d => negb (ext_eqb d Inf)) D).
  2:{ intros d Hd. apply Hle. apply in_or_app. now right. }
  pose proof (count_true_split (fun d => ext_eqb d Inf) D) as Hsplit.
  lia.
Qed.

Lemma betti_curve_ends_at_infinite_bars_witness :
  last (snd (betti_curve [Fin 0; Fin 1; Fin 1] [Fin 2; Inf; Fin 3])) 0 = 1.
Proof.
  apply (betti_curve_ends_at_infinite_bars [Fin 0; Fin 1; Fin 1]
           [Fin 2; Inf; Fin 3]).
  - discriminate.
  - reflexivity.
  - repeat constructor; discriminate.
Defined.

(* ------------------------------------------------------------------ *)
(** ** The two filtration drives side by side *)

(** The matrix that a solver call receives. *)
Definition call_matrix (e : event) : option csr :=
  match e with
  | CallFlagserCount A _ => Some A
  | CallFlagserUnweighted A _ _ _ => Some A
  | _ => None
  end.

Section TwoDrives.

Variable flagser_count : csr -> count_options -> flagser_out.
Variable bin_center : Z -> Z -> Z -> Z -> Z.


End TwoDrives.


(** Two opposite edges of weights 2^53 + 1 and 2^53, which are the same
    float64 number: at the threshold 2^53 + 1 the newer drive keeps one
    edge of the original matrix, the older one keeps both edges of the
    matrix that it has thresholded before. *)
Definition close_weights : csr :=
  mk_csr (2, 2)%nat [stored 0 1 (2 ^ 53 + 1); stored 1 0 (2 ^ 53)].

Lemma filtered_simplex_counts_variants_differ :
  ~ exact_weights close_weights
  /\ map call_matrix
         (events (filtered_simplex_counts skeleton_count no_binning
                    close_weights "strength" false 10 1))
     = [Some (mk_csr (2, 2)%nat [stored 0 1 1; stored 1 0 1]);
        Some (mk_csr (2, 2)%nat [stored 0 1 1])]
  /\ map call_matrix
         (events (Library.filtered_simplex_counts skeleton_count no_binning
                    close_weights "strength" 1 false 10))
     = [Some (mk_csr (2, 2)%nat [stored 0 1 1; stored 1 0 1]);
        Some (mk_csr (2, 2)%nat [stored 0 1 1; stored 1 0 1])].
Proof.
  split; [|split; vm_compute; reflexivity].
  intros H. inversion H as [|x l Hx _]. vm_compute in Hx. discriminate.
Qed.

(* ------------------------------------------------------------------ *)
(** ** [betti_counts] never reaches the solver *)

Section BettiNeverRuns.

Variable flagser_unweighted : csr -> Z -> ext -> option Z -> list Z.

(** X25. Whatever its arguments, [betti_counts] raises before it calls
    the solver or warns: [AssertionError] for a nonzero diagonal
    or a matrix that is not square, and otherwise [TypeError], because
    its third check evaluates [approximation in None]. *)
Theorem betti_counts_always_raises
        (adj : csr) (min_dim : Z) (max_dim : option Z) (simplex_type : string)
        (approximation : option (list Z)) :
  exists e,
    betti_counts flagser_unweighted adj min_dim max_dim simplex_type
                 approximation
    = ([], Raise e)
    /\ (if (count_nonzero (diagonal (astype_bool adj)) =? 0)%nat
           && (fst (csr_shape adj) =? snd (csr_shape adj))%nat
        then exists msg, e = TypeError msg
        else exists msg, e = AssertionError msg).
Proof.
  unfold betti_counts, betti_counts_checks.
  change (diagonal (astype_int (astype_bool adj)))
    with (diagonal (astype_bool adj)).
  change (csr_shape (astype_int (astype_bool adj))) with (csr_shape adj).
  destruct (count_nonzero (diagonal (astype_bool adj)) =? 0)%nat;
    [|eexists; split; [reflexivity | eexists; reflexivity]].
  destruct (fst (csr_shape adj) =? snd (csr_shape adj))%nat;
    eexists; (split; [reflexivity | eexists; reflexivity]).
Qed.

End BettiNeverRuns.

(* ------------------------------------------------------------------ *)
(** ** Bidirectional edges: the edges themselves *)



Section EdgeDimension.

Variable flagser_count : csr -> count_options -> flagser_out.


End EdgeDimension.

